(** * Markdown Deck: slide compiler, enhancement pipeline, synchronisation

    A shallow embedding of [src/App.tsx].  JavaScript strings are sequences
    of UTF-16 code units, numbers are doubles (array positions and
    counters are written as the integers they are), and the built-ins the
    program calls ([String.prototype.split], [replace], [match], [trim],
    [encodeURIComponent], [URLSearchParams], [Number.parseInt], ...) are
    modelled after the ECMAScript and WHATWG algorithms they implement. *)

From Stdlib Require Import String Ascii ZArith List Bool Lia.
Import ListNotations.
Open Scope Z_scope.

(** ** JavaScript strings *)

Module JsString.

(** A string is the list of its UTF-16 code units. *)
Definition jsstring := list Z.

(** ASCII literals of the source, written as Rocq strings; as in the
    source, the escape [\n] is the line feed. *)
Fixpoint unescape (s : jsstring) : jsstring :=
  match s with
  | 92 :: 110 :: s' => 10 :: unescape s'
  | c :: s' => c :: unescape s'
  | [] => []
  end.

Definition str (s : string) : jsstring :=
  unescape (map (fun a => Z.of_N (N_of_ascii a)) (list_ascii_of_string s)).

Fixpoint eqb (a b : jsstring) : bool :=
  match a, b with
  | [], [] => true
  | x :: a', y :: b' => (x =? y) && eqb a' b'
  | _, _ => false
  end.

(** ECMAScript LineTerminator: LF, CR, LS, PS. *)
Definition isLineTerminator (c : Z) : bool :=
  (c =? 10) || (c =? 13) || (c =? 8232) || (c =? 8233).

(** ECMAScript WhiteSpace together with LineTerminator: the set of [\s] and
    of [String.prototype.trim]. *)
Definition isWhiteSpace (c : Z) : bool :=
  (c =? 9) || (c =? 10) || (c =? 11) || (c =? 12) || (c =? 13) || (c =? 32)
  || (c =? 160) || (c =? 5760) || ((8192 <=? c) && (c <=? 8202))
  || (c =? 8232) || (c =? 8233) || (c =? 8239) || (c =? 8287)
  || (c =? 12288) || (c =? 65279).

Fixpoint trimStart (s : jsstring) : jsstring :=
  match s with
  | c :: s' => if isWhiteSpace c then trimStart s' else s
  | [] => []
  end.

Definition trimEnd (s : jsstring) : jsstring := rev (trimStart (rev s)).

(** [s.trim()] *)
Definition trim (s : jsstring) : jsstring := trimEnd (trimStart s).

(** [a || b] on strings: the empty string is the only falsy one. *)
Definition orElse (a b : jsstring) : jsstring :=
  match a with [] => b | _ => a end.

(** [parts.join(sep)] *)
Fixpoint join (sep : jsstring) (parts : list jsstring) : jsstring :=
  match parts with
  | [] => []
  | [p] => p
  | p :: rest => p ++ sep ++ join sep rest
  end.

(** [s.slice(from, to)] for [0 <= from <= to]. *)
Definition slice (s : jsstring) (from to : nat) : jsstring :=
  firstn (to - from) (skipn from s).

(** ASCII case mapping, the part of [toLowerCase]/[toUpperCase] the
    program's identifiers exercise. *)
Definition asciiUpper (c : Z) : Z :=
  if (97 <=? c) && (c <=? 122) then c - 32 else c.
Definition asciiLower (c : Z) : Z :=
  if (65 <=? c) && (c <=? 90) then c + 32 else c.

(** Decimal rendering of a non-negative integer, most significant digit
    first: [String(n)] for an integer [n]. *)
Fixpoint digitsOf (fuel : nat) (n : Z) (acc : jsstring) : jsstring :=
  match fuel with
  | O => acc
  | S f =>
      let acc' := (48 + n mod 10) :: acc in
      if n <? 10 then acc' else digitsOf f (n / 10) acc'
  end.

Definition numberToString (n : Z) : jsstring :=
  if n <? 0 then 45 :: digitsOf (S (Z.to_nat (Z.log2 (- n)))) (- n) []
  else digitsOf (S (Z.to_nat (Z.log2 n))) n [].

End JsString.
Import JsString.

(** ** JavaScript numbers *)

Module Number.

(** A JavaScript number is a double: not-a-number, an infinity, or a finite
    value.  A finite double is an integer or an odd multiple of a negative
    power of two.  The two zeros are identified: nothing the program does
    with a slide index tells them apart. *)
Inductive number : Type :=
| NaN
| PosInf
| NegInf
| Int (z : Z)
| Frac (m : Z) (k : positive).       (* m / 2^k, m odd *)

(** The exact value of a finite number, as a fraction. *)
Definition num (x : number) : Z :=
  match x with Int z => z | Frac m _ => m | _ => 0 end.
Definition den (x : number) : Z :=
  match x with Frac _ k => 2 ^ Z.pos k | _ => 1 end.

Definition isNaN (x : number) : bool :=
  match x with NaN => true | _ => false end.

(** [Number.isFinite] *)
Definition isFinite (x : number) : bool :=
  match x with Int _ | Frac _ _ => true | _ => false end.

Definition neg (x : number) : number :=
  match x with
  | NaN => NaN
  | PosInf => NegInf
  | NegInf => PosInf
  | Int z => Int (- z)
  | Frac m k => Frac (- m) k
  end.

(** The number [m / 2^k] in normal form. *)
Fixpoint reduce (fuel : nat) (m k : Z) : number :=
  match fuel with
  | O => Int m
  | S f =>
      if k <=? 0 then Int m
      else if Z.even m then reduce f (m / 2) (k - 1)
      else Frac m (Z.to_pos k)
  end.

(** The number [m * 2^u]. *)
Definition dyadic (m u : Z) : number :=
  if 0 <=? u then Int (m * 2 ^ u) else reduce (S (Z.to_nat (- u))) m (- u).

(** [2^e <= a / b], for positive [a] and [b]. *)
Definition atLeastPow2 (a b e : Z) : bool :=
  if 0 <=? e then b * 2 ^ e <=? a else b <=? a * 2 ^ (- e).

(** The integer part of the binary logarithm of [a / b]. *)
Definition floorLog2 (a b : Z) : Z :=
  let e := Z.log2 a - Z.log2 b in
  if atLeastPow2 a b e then e else e - 1.

(** The integer nearest to [p / q], the even one of two. *)
Definition roundHalfEven (p q : Z) : Z :=
  let f := p / q in
  let twice := 2 * (p mod q) in
  if twice <? q then f
  else if q <? twice then f + 1
  else if Z.even f then f else f + 1.

(** The double nearest to the positive fraction [a / b], ties to even:
    53 significant bits, the unit in the last place not below [2^-1074],
    and infinity from [2^1024] on. *)
Definition roundPositive (a b : Z) : number :=
  let e := floorLog2 a b in
  let u := Z.max (e - 52) (-1074) in
  let m := if 0 <=? u then roundHalfEven a (b * 2 ^ u)
           else roundHalfEven (a * 2 ^ (- u)) b in
  if (1024 <=? e) || ((e =? 1023) && (m =? 2 ^ 53)) then PosInf
  else dyadic m u.

(** The Number value for the fraction [a / b], [b] positive. *)
Definition round (a b : Z) : number :=
  if a =? 0 then Int 0
  else if 0 <? a then roundPositive a b
  else neg (roundPositive (- a) b).

(** The Number value for a mathematical integer. *)
Definition ofInteger (z : Z) : number := round z 1.

(** [x + y] *)
Definition add (x y : number) : number :=
  match x, y with
  | NaN, _ | _, NaN => NaN
  | PosInf, NegInf | NegInf, PosInf => NaN
  | PosInf, _ | _, PosInf => PosInf
  | NegInf, _ | _, NegInf => NegInf
  | _, _ => round (num x * den y + num y * den x) (den x * den y)
  end.

(** [x - y] *)
Definition sub (x y : number) : number := add x (neg y).

(** [x < y] *)
Definition ltb (x y : number) : bool :=
  match x, y with
  | NaN, _ | _, NaN => false
  | _, NegInf => false
  | NegInf, _ => true
  | PosInf, _ => false
  | _, PosInf => true
  | _, _ => num x * den y <? num y * den x
  end.

(** [x > y] *)
Definition gtb (x y : number) : bool := ltb y x.

(** [x <= y] *)
Definition leb (x y : number) : bool :=
  match x, y with
  | NaN, _ | _, NaN => false
  | NegInf, _ => true
  | _, NegInf => false
  | _, PosInf => true
  | PosInf, _ => false
  | _, _ => num x * den y <=? num y * den x
  end.

(** [x === y] *)
Definition eqb (x y : number) : bool :=
  match x, y with
  | PosInf, PosInf | NegInf, NegInf => true
  | Int a, Int b => a =? b
  | Frac m k, Frac n l => (m =? n) && (Pos.eqb k l)
  | _, _ => false
  end.

(** [Object.is(x, y)], the zeros identified. *)
Definition same (x y : number) : bool :=
  match x, y with
  | NaN, NaN | PosInf, PosInf | NegInf, NegInf => true
  | Int a, Int b => a =? b
  | Frac m k, Frac n l => (m =? n) && (Pos.eqb k l)
  | _, _ => false
  end.

(** [Math.max(x, y)] *)
Definition max (x y : number) : number :=
  if isNaN x || isNaN y then NaN else if ltb x y then y else x.

(** *** Number::toString *)

(** The number of decimal digits of a positive integer. *)
Definition decimalLength (z : Z) : Z := Z.of_nat (length (numberToString z)).

(** The least [j >= 1] with [b <= a * 10^j], for [0 < a < b]. *)
Fixpoint leadingZeros (fuel : nat) (a b j : Z) : Z :=
  match fuel with
  | O => j
  | S f => if b <=? a * 10 then j else leadingZeros f (a * 10) b (j + 1)
  end.

(** [n] with [10^(n-1) <= a / b < 10^n]. *)
Definition decimalExponent (a b : Z) : Z :=
  if b <=? a then decimalLength (a / b) else 1 - leadingZeros 400 a b 1.

(** [s * 10^t] as a fraction. *)
Definition timesPow10 (s t : Z) : Z * Z :=
  if 0 <=? t then (s * 10 ^ t, 1) else (s, 10 ^ (- t)).

(** Whether [s * 10^t] has the Number value [x]. *)
Definition denotes (x : number) (s t : Z) : bool :=
  let '(p, q) := timesPow10 s t in same (round p q) x.

(** The [k]-digit candidates around [a / b]: the multiple of [10^t] below
    it and the one above, [t = n - k]; of two that denote [x], the nearer
    one, the even one when they are equally near. *)
Definition candidate (x : number) (a b n k : Z) : option (Z * Z) :=
  let t := n - k in
  let lo := if 0 <=? t then a / (b * 10 ^ t) else (a * 10 ^ (- t)) / b in
  let hi := lo + 1 in
  match denotes x lo t, denotes x hi t with
  | true, false => Some (lo, t)
  | false, true => Some (hi, t)
  | false, false => None
  | true, true =>
      (* compare 2 * a / b with (lo + hi) * 10^t *)
      let '(p, q) := timesPow10 (lo + hi) t in
      let l := 2 * a * q in
      let r := p * b in
      if l <? r then Some (lo, t)
      else if r <? l then Some (hi, t)
      else if Z.even lo then Some (lo, t) else Some (hi, t)
  end.

(** The shortest digits: the least [k] with a candidate. *)
Fixpoint shortest (fuel : nat) (x : number) (a b n k : Z) : Z * Z :=
  match fuel with
  | O => (if 0 <=? n - k then a / (b * 10 ^ (n - k))
          else (a * 10 ^ (k - n)) / b, n - k)
  | S f =>
      match candidate x a b n k with
      | Some st => st
      | None => shortest f x a b n (k + 1)
      end
  end.

(** [s] without its trailing zeros, the exponent raised accordingly. *)
Fixpoint stripZeros (fuel : nat) (s t : Z) : Z * Z :=
  match fuel with
  | O => (s, t)
  | S f => if (s mod 10 =? 0) && negb (s =? 0) then stripZeros f (s / 10) (t + 1)
           else (s, t)
  end.

Definition zeros (n : Z) : jsstring := repeat 48 (Z.to_nat n).

(** The string for the digits [s] and the position [n] of the decimal
    point, steps 6 to 10 of Number::toString. *)
Definition layout (s n : Z) : jsstring :=
  let ds := numberToString s in
  let k := Z.of_nat (length ds) in
  if (k <=? n) && (n <=? 21) then ds ++ zeros (n - k)
  else if (0 <? n) && (n <=? 21) then
    firstn (Z.to_nat n) ds ++ str "." ++ skipn (Z.to_nat n) ds
  else if (-6 <? n) && (n <=? 0) then str "0." ++ zeros (- n) ++ ds
  else
    let e := n - 1 in
    (if k =? 1 then ds else firstn 1 ds ++ str "." ++ skipn 1 ds)
    ++ str "e" ++ (if 0 <=? e then str "+" else str "-")
    ++ numberToString (Z.abs e).

(** Number::toString for the positive double [x = a / b], by the search
    of the specification. *)
Definition positiveToString (x : number) (a b : Z) : jsstring :=
  let n := decimalExponent a b in
  let '(s, t) := shortest 17 x a b n 1 in
  let '(s, t) := stripZeros 400 s t in
  layout s (t + decimalLength s).

Definition generalToString (x : number) : jsstring :=
  match x with
  | NaN => str "NaN"
  | PosInf => str "Infinity"
  | NegInf => str "-Infinity"
  | _ =>
      if num x =? 0 then str "0"
      else if num x <? 0 then 45 :: positiveToString (neg x) (- num x) (den x)
      else positiveToString x (num x) (den x)
  end.

(** [String(x)].  An integer up to [2^53] in magnitude is written with
    all its digits: every integer in that range is a double, so no
    shorter digit string denotes it. *)
Definition toString (x : number) : jsstring :=
  match x with
  | Int z => if Z.abs z <=? 2 ^ 53 then numberToString z else generalToString x
  | _ => generalToString x
  end.

End Number.

(** ** Regular expressions

    The fragment of ECMAScript patterns used by the program: literal
    characters, classes, the assertions [^] and [$], concatenation,
    alternation, capturing groups and quantifiers applied to a single
    character or class.  Matching is the backtracking semantics of the
    language specification, written with continuations. *)

Module Regex.

Inductive atom : Type :=
| Lit (c : Z)               (* a pattern character *)
| Space                     (* \s *)
| Any                       (* [\s\S] *)
| Dot                       (* . *)
| NoneOf (cs : list Z).     (* [^...] *)

Inductive regex : Type :=
| Eps
| One (a : atom)
| Bol                                             (* ^ *)
| Eol                                             (* $ *)
| Cat (r1 r2 : regex)
| Alt (r1 r2 : regex)
| Rep (greedy : bool) (lo : nat) (hi : option nat) (a : atom)
| Grp (n : nat) (r : regex).                      (* n-th capturing group *)

Record flags := { ignoreCase : bool; multiline : bool }.

(** Canonicalize of the specification, without the [u] flag.  A code unit
    outside ASCII never canonicalizes to an ASCII one, so for the ASCII
    pattern characters of this program the ASCII mapping is exact; the
    classes [\s], [.] and [[\s\S]] are closed under case mapping. *)
Definition canon (fl : flags) (c : Z) : Z :=
  if ignoreCase fl then asciiUpper c else c.

Definition atom_ok (fl : flags) (a : atom) (c : Z) : bool :=
  match a with
  | Lit p => canon fl p =? canon fl c
  | Space => isWhiteSpace c
  | Any => true
  | Dot => negb (isLineTerminator c)
  | NoneOf cs => negb (existsb (Z.eqb c) cs)
  end.

(** Matcher state: the input before the current position (most recent
    first), the input after it, and the captures. *)
Record mstate := { pre : list Z; post : list Z; caps : list (option jsstring) }.

Definition at_bol (fl : flags) (st : mstate) : bool :=
  match pre st with
  | [] => true
  | c :: _ => multiline fl && isLineTerminator c
  end.

Definition at_eol (fl : flags) (st : mstate) : bool :=
  match post st with
  | [] => true
  | c :: _ => multiline fl && isLineTerminator c
  end.

Fixpoint set_nth {A} (n : nat) (x : A) (l : list A) : list A :=
  match n, l with
  | O, _ :: l' => x :: l'
  | S n', y :: l' => y :: set_nth n' x l'
  | _, [] => []
  end.

Section Rep.
Context {A : Type} (ok : Z -> bool) (k : list Z -> list Z -> option A).

Definition decr (hi : option nat) : option nat := option_map Nat.pred hi.
Definition exhausted (hi : option nat) : bool :=
  match hi with Some O => true | _ => false end.

(** RepeatMatcher for a one-character body. *)
Fixpoint rep (greedy : bool) (lo : nat) (hi : option nat)
    (pr po : list Z) {struct po} : option A :=
  if greedy then
    match
      (if exhausted hi then None else
         match po with
         | c :: po' =>
             if ok c then rep greedy (Nat.pred lo) (decr hi) (c :: pr) po'
             else None
         | [] => None
         end)
    with
    | Some r => Some r
    | None => match lo with O => k pr po | S _ => None end
    end
  else
    match (match lo with O => k pr po | S _ => None end) with
    | Some r => Some r
    | None =>
        if exhausted hi then None else
          match po with
          | c :: po' =>
              if ok c then rep greedy (Nat.pred lo) (decr hi) (c :: pr) po'
              else None
          | [] => None
          end
    end.
End Rep.

Definition captured (st st' : mstate) : jsstring :=
  rev (firstn (length (pre st') - length (pre st)) (pre st')).

Fixpoint m (fl : flags) (r : regex) (k : mstate -> option mstate)
    (st : mstate) : option mstate :=
  match r with
  | Eps => k st
  | One a =>
      match post st with
      | c :: po =>
          if atom_ok fl a c
          then k {| pre := c :: pre st; post := po; caps := caps st |}
          else None
      | [] => None
      end
  | Bol => if at_bol fl st then k st else None
  | Eol => if at_eol fl st then k st else None
  | Cat r1 r2 => m fl r1 (m fl r2 k) st
  | Alt r1 r2 =>
      match m fl r1 k st with
      | Some x => Some x
      | None => m fl r2 k st
      end
  | Rep g lo hi a =>
      rep (atom_ok fl a)
        (fun pr po => k {| pre := pr; post := po; caps := caps st |})
        g lo hi (pre st) (post st)
  | Grp n r' =>
      m fl r' (fun st' =>
        k {| pre := pre st'; post := post st';
             caps := set_nth n (Some (captured st st')) (caps st') |}) st
  end.

(** A compiled pattern: body, number of capturing groups, flags. *)
Record pattern := { body : regex; ngroups : nat; fl : flags }.

(** One match: where it starts, what it matched, its groups ([$1] first). *)
Record mres := { index : nat; matched : jsstring; groups : list (option jsstring) }.

Definition mlen (r : mres) : nat := length (matched r).

(** Match attempt at the current position (a sticky [exec]). *)
Definition match_at (p : pattern) (pr po : list Z) : option mres :=
  let st0 := {| pre := pr; post := po; caps := repeat None (ngroups p) |} in
  match m (fl p) (body p) Some st0 with
  | Some st => Some {| index := length pr; matched := captured st0 st;
                       groups := caps st |}
  | None => None
  end.

(** [exec] of a non-global pattern: the leftmost match. *)
Fixpoint search (p : pattern) (pr po : list Z) {struct po} : option mres :=
  match match_at p pr po with
  | Some r => Some r
  | None =>
      match po with
      | [] => None
      | c :: po' => search p (c :: pr) po'
      end
  end.

(** All matches of a global pattern, left to right; [skip] counts the code
    units of the previous match still to be stepped over.  After an empty
    match the search resumes one code unit further. *)
Fixpoint scan (p : pattern) (skip : nat) (pr po : list Z) {struct po}
    : list mres :=
  match skip with
  | S n =>
      match po with
      | [] => []
      | c :: po' => scan p n (c :: pr) po'
      end
  | O =>
      match match_at p pr po with
      | Some r =>
          r :: match po with
               | [] => []
               | c :: po' => scan p (Nat.pred (mlen r)) (c :: pr) po'
               end
      | None =>
          match po with
          | [] => []
          | c :: po' => scan p 0 (c :: pr) po'
          end
      end
  end.

(** [s.matchAll(p)] (and the match list [replace] builds) for a global [p]. *)
Definition matchAll (p : pattern) (s : jsstring) : list mres := scan p 0 [] s.

(** [s.match(p)] for a non-global [p]. *)
Definition match_ (p : pattern) (s : jsstring) : option mres := search p [] s.

Section Replace.
(** [s.replace(p, callback)] for a global [p].  The callback may update a
    store of type [S] (the array the program's callbacks push to). *)
Context {S : Type} (cb : mres -> S -> jsstring * S).

Fixpoint replace_go (s : jsstring) (results : list mres) (next : nat)
    (acc : jsstring) (st : S) : jsstring * S :=
  match results with
  | [] => (acc ++ skipn next s, st)
  | r :: rest =>
      let '(repl, st') := cb r st in
      if (next <=? index r)%nat
      then replace_go s rest (index r + mlen r)%nat
             (acc ++ slice s next (index r) ++ repl) st'
      else replace_go s rest next acc st'
  end.

Definition replace (p : pattern) (s : jsstring) (st : S) : jsstring * S :=
  replace_go s (matchAll p s) 0 [] st.
End Replace.

(** [s.split(p)] for a pattern without capturing groups.  [pending] holds
    the code units since the end of the previous separator, most recent
    first.  A separator that is empty right after the previous one is
    passed over, as in the specification's loop. *)
Fixpoint split_loop (p : pattern) (skip : nat) (pending : list Z)
    (pr po : list Z) {struct po} : list jsstring :=
  match po with
  | [] => [rev pending]
  | c :: po' =>
      match skip with
      | S n => split_loop p n pending (c :: pr) po'
      | O =>
          match match_at p pr po with
          | None => split_loop p 0 (c :: pending) (c :: pr) po'
          | Some r =>
              match mlen r, pending with
              | O, [] => split_loop p 0 [c] (c :: pr) po'
              | O, _ => rev pending :: split_loop p 0 [c] (c :: pr) po'
              | S n, _ => rev pending :: split_loop p n [] (c :: pr) po'
              end
          end
      end
  end.

Definition split (p : pattern) (s : jsstring) : list jsstring :=
  match s with
  | [] => match match_at p [] [] with Some _ => [] | None => [[]] end
  | _ => split_loop p 0 [] [] s
  end.

(** Pattern-building helpers. *)
Definition seq (rs : list regex) : regex := fold_right Cat Eps rs.
Definition lits (s : jsstring) : regex := seq (map (fun c => One (Lit c)) s).
Definition star (a : atom) : regex := Rep true 0 None a.
Definition plus (a : atom) : regex := Rep true 1 None a.
Definition lazy_star (a : atom) : regex := Rep false 0 None a.
Definition lazy_plus (a : atom) : regex := Rep false 1 None a.

End Regex.
Import Regex.

(** ** Percent-encoding: [encodeURIComponent] and [decodeURIComponent] *)

Module Uri.

Definition isAlnum (c : Z) : bool :=
  ((48 <=? c) && (c <=? 57)) || ((65 <=? c) && (c <=? 90))
  || ((97 <=? c) && (c <=? 122)).

(** The unescaped set of [encodeURIComponent]: alphanumerics and
    [- _ . ! ~ * ' ( )]. *)
Definition uriUnescaped (c : Z) : bool :=
  isAlnum c || existsb (Z.eqb c) (str "-_.!~*'()").

Definition isLeadSurrogate (c : Z) : bool := (55296 <=? c) && (c <=? 56319).
Definition isTrailSurrogate (c : Z) : bool := (56320 <=? c) && (c <=? 57343).

(** UTF-8 octets of a code point. *)
Definition utf8 (cp : Z) : list Z :=
  if cp <? 128 then [cp]
  else if cp <? 2048 then [192 + cp / 64; 128 + cp mod 64]
  else if cp <? 65536 then
    [224 + cp / 4096; 128 + (cp / 64) mod 64; 128 + cp mod 64]
  else
    [240 + cp / 262144; 128 + (cp / 4096) mod 64; 128 + (cp / 64) mod 64;
     128 + cp mod 64].

Definition hexDigit (x : Z) : Z := if x <? 10 then 48 + x else 55 + x.

(** One octet as [%XX], upper-case digits. *)
Definition pct (b : Z) : jsstring := [37; hexDigit (b / 16); hexDigit (b mod 16)].

Definition pctAll (bs : list Z) : jsstring := flat_map pct bs.

(** Encode of the language specification; [None] is the [URIError] thrown
    at an unpaired surrogate. *)
Fixpoint encodeWith (unescaped : Z -> bool) (s : jsstring) : option jsstring :=
  match s with
  | [] => Some []
  | c :: s' =>
      if unescaped c then option_map (cons c) (encodeWith unescaped s')
      else if isTrailSurrogate c then None
      else if isLeadSurrogate c then
        match s' with
        | d :: s'' =>
            if isTrailSurrogate d then
              option_map
                (app (pctAll (utf8 ((c - 55296) * 1024 + (d - 56320) + 65536))))
                (encodeWith unescaped s'')
            else None
        | [] => None
        end
      else option_map (app (pctAll (utf8 c))) (encodeWith unescaped s')
  end.

Definition encodeURIComponent (s : jsstring) : option jsstring :=
  encodeWith uriUnescaped s.

Definition hexVal (c : Z) : option Z :=
  if (48 <=? c) && (c <=? 57) then Some (c - 48)
  else if (65 <=? c) && (c <=? 70) then Some (c - 55)
  else if (97 <=? c) && (c <=? 102) then Some (c - 87)
  else None.

(** The input of Decode seen as plain code units and [%XX] octets; a [%]
    that is not followed by two hexadecimal digits is an error. *)
Inductive tok : Type := Raw (c : Z) | Oct (b : Z).

Fixpoint tokens (s : jsstring) : option (list tok) :=
  match s with
  | [] => Some []
  | c :: s' =>
      if c =? 37 then
        match s' with
        | h :: l :: s'' =>
            match hexVal h, hexVal l with
            | Some x, Some y => option_map (cons (Oct (16 * x + y))) (tokens s'')
            | _, _ => None
            end
        | _ => None
        end
      else option_map (cons (Raw c)) (tokens s')
  end.

Definition isCont (b : Z) : bool := (128 <=? b) && (b <=? 191).

(** UTF16EncodeCodePoint *)
Definition utf16 (cp : Z) : jsstring :=
  if cp <? 65536 then [cp]
  else [55296 + (cp - 65536) / 1024; 56320 + (cp - 65536) mod 1024].

(** A code point decoded from [n] octets is accepted when the octets are
    its shortest UTF-8 form and it is a Unicode scalar value. *)
Definition validScalar (lo cp : Z) : bool :=
  (lo <=? cp) && (cp <=? 1114111)
  && negb ((55296 <=? cp) && (cp <=? 57343)).

Fixpoint decodeTokens (ts : list tok) : option jsstring :=
  match ts with
  | [] => Some []
  | Raw c :: ts' => option_map (cons c) (decodeTokens ts')
  | Oct b :: ts' =>
      if b <? 128 then option_map (cons b) (decodeTokens ts')
      else if b <? 192 then None
      else if b <? 224 then
        match ts' with
        | Oct b1 :: r =>
            let cp := (b - 192) * 64 + (b1 - 128) in
            if isCont b1 && validScalar 128 cp
            then option_map (app (utf16 cp)) (decodeTokens r) else None
        | _ => None
        end
      else if b <? 240 then
        match ts' with
        | Oct b1 :: Oct b2 :: r =>
            let cp := (b - 224) * 4096 + (b1 - 128) * 64 + (b2 - 128) in
            if isCont b1 && isCont b2 && validScalar 2048 cp
            then option_map (app (utf16 cp)) (decodeTokens r) else None
        | _ => None
        end
      else if b <? 248 then
        match ts' with
        | Oct b1 :: Oct b2 :: Oct b3 :: r =>
            let cp := (b - 240) * 262144 + (b1 - 128) * 4096
                      + (b2 - 128) * 64 + (b3 - 128) in
            if isCont b1 && isCont b2 && isCont b3 && validScalar 65536 cp
            then option_map (app (utf16 cp)) (decodeTokens r) else None
        | _ => None
        end
      else None
  end.

(** [decodeURIComponent]; [None] is the [URIError] it throws. *)
Definition decodeURIComponent (s : jsstring) : option jsstring :=
  match tokens s with
  | Some ts => decodeTokens ts
  | None => None
  end.

End Uri.
Import Uri.

(** ** Slide compiler *)

Module Compiler.

Record Slide := {
  id : Z;
  title : jsstring;
  markdown : jsstring;
  html : jsstring;
  notes : jsstring
}.

(** The token [marked] hands to [renderer.code]. *)
Record CodeToken := { text : jsstring; lang : option jsstring }.

Definition fl_m : flags := {| ignoreCase := false; multiline := true |}.
Definition fl_i : flags := {| ignoreCase := true; multiline := false |}.
Definition fl_im : flags := {| ignoreCase := true; multiline := true |}.
Definition fl_none : flags := {| ignoreCase := false; multiline := false |}.

(** [/^\s*---\s*$/gm] *)
Definition separatorPattern : pattern :=
  {| body := seq [Bol; star Space; lits (str "---"); star Space; Eol];
     ngroups := 0; fl := fl_m |}.

(** [/::: ?notes\s*([\s\S]*?):::/gi] *)
Definition blockNotesPattern : pattern :=
  {| body := seq [lits (str ":::"); Rep true 0 (Some 1%nat) (Lit 32);
                  lits (str "notes"); star Space;
                  Grp 0 (lazy_star Any); lits (str ":::")];
     ngroups := 1; fl := fl_i |}.

(** [/^Note:\s*(.+)$/gim] *)
Definition lineNotePattern : pattern :=
  {| body := seq [Bol; lits (str "Note:"); star Space; Grp 0 (plus Dot); Eol];
     ngroups := 1; fl := fl_im |}.

(** [/^\s{0,3}#{1,2}\s+(.+)$/m] *)
Definition headingPattern : pattern :=
  {| body := seq [Bol; Rep true 0 (Some 3%nat) Space;
                  Rep true 1 (Some 2%nat) (Lit 35); plus Space;
                  Grp 0 (plus Dot); Eol];
     ngroups := 1; fl := fl_m |}.

(** The first group of a match, [undefined] read as the empty string. *)
Definition group1 (r : mres) : jsstring :=
  match groups r with
  | Some g :: _ => g
  | _ => []
  end.

Definition extractTitle (markdown : jsstring) (fallbackIndex : Z) : jsstring :=
  match match_ headingPattern markdown with
  | Some headingMatch =>
      match group1 headingMatch with
      | [] => str "Slide " ++ numberToString (fallbackIndex + 1)
      | g => trim g
      end
  | None => str "Slide " ++ numberToString (fallbackIndex + 1)
  end.

Definition replaceAllChar (c : Z) (by_ : jsstring) (s : jsstring) : jsstring :=
  flat_map (fun x => if x =? c then by_ else [x]) s.

Definition escapeHtml (content : jsstring) : jsstring :=
  replaceAllChar 39 (str "&#39;")
    (replaceAllChar 34 (str "&quot;")
      (replaceAllChar 62 (str "&gt;")
        (replaceAllChar 60 (str "&lt;")
          (replaceAllChar 38 (str "&amp;") content)))).

Definition dquote : jsstring := [34].

(** The callbacks of the two [replace] calls of [parseSlides]: push the
    trimmed note when it is not empty, replace the match by nothing. *)
Definition collectNote (r : mres) (noteCollection : list jsstring)
    : jsstring * list jsstring :=
  let trimmedNotes := trim (group1 r) in
  match trimmedNotes with
  | [] => ([], noteCollection)
  | _ => ([], noteCollection ++ [trimmedNotes])
  end.

Definition emptySlide : jsstring := str "_Empty slide_".
Definition noNotes : jsstring := str "No speaker notes for this slide.".

Section Renderer.
(** [String.prototype.toLowerCase] (Unicode case tables) and the Markdown
    engine [marked.parse], called with the program's [code] renderer, are
    parameters.  [None] stands for a thrown exception. *)
Variable toLowerCase : jsstring -> jsstring.
Variable marked_parse :
  (CodeToken -> option jsstring) -> jsstring -> option jsstring.

(** [renderer.code] *)
Definition renderer_code (t : CodeToken) : option jsstring :=
  match encodeURIComponent (text t) with
  | None => None
  | Some encodedCode =>
      let cleanLang :=
        toLowerCase (trim (match lang t with Some l => l | None => [] end)) in
      if JsString.eqb cleanLang (str "mermaid") then
        Some (str "<div class=" ++ dquote ++ str "md-mermaid" ++ dquote
              ++ str " data-mermaid=" ++ dquote ++ encodedCode ++ dquote
              ++ str "></div>")
      else
        Some (str "<pre class=" ++ dquote ++ str "md-code" ++ dquote
              ++ str " data-lang=" ++ dquote ++ escapeHtml cleanLang ++ dquote
              ++ str " data-code=" ++ dquote ++ encodedCode ++ dquote
              ++ str "></pre>")
  end.

Definition markdownToHtml (content : jsstring) : option jsstring :=
  marked_parse renderer_code content.

(** The body of the [map] callback of [parseSlides]. *)
Definition compileSlide (rawSlide : jsstring) (index : nat) : option Slide :=
  let noteCollection : list jsstring := [] in
  let '(content, noteCollection) :=
    replace collectNote blockNotesPattern rawSlide noteCollection in
  let '(content, noteCollection) :=
    replace collectNote lineNotePattern content noteCollection in
  let normalizedContent := orElse (trim content) emptySlide in
  match markdownToHtml normalizedContent with
  | None => None
  | Some h =>
      Some {| id := Z.of_nat index;
              title := extractTitle normalizedContent (Z.of_nat index);
              markdown := normalizedContent;
              html := h;
              notes := orElse (trim (join (str "\n\n") noteCollection)) noNotes |}
  end.

(** [rawSlides.map(...)], left to right from position [index]; the first
    exception aborts the whole map. *)
Fixpoint compileFrom (index : nat) (rawSlides : list jsstring)
    : option (list Slide) :=
  match rawSlides with
  | [] => Some []
  | rawSlide :: rest =>
      match compileSlide rawSlide index with
      | None => None
      | Some s => option_map (cons s) (compileFrom (S index) rest)
      end
  end.

Definition parseSlides (markdown : jsstring) : option (list Slide) :=
  compileFrom 0 (split separatorPattern markdown).

End Renderer.

End Compiler.
Import Compiler.

(** ** Themes *)

Module Theme.

(** The keys of [THEME_CONFIG]. *)
Definition THEME_IDS : list jsstring :=
  [str "minimal"; str "corporate"; str "hacker"; str "academic"; str "vibrant"].

Definition DEFAULT_THEME_ID : jsstring := str "corporate".

(** The fields of a theme: label, highlighting theme, diagram theme,
    editor theme. *)
Record ThemeConfig := {
  label : jsstring;
  shikiTheme : jsstring;
  mermaidTheme : jsstring;
  monacoTheme : jsstring
}.

Definition THEME_CONFIG : list (jsstring * ThemeConfig) :=
  [(str "minimal",
    {| label := str "Quartz"; shikiTheme := str "github-light";
       mermaidTheme := str "neutral"; monacoTheme := str "vs" |});
   (str "corporate",
    {| label := str "Studio"; shikiTheme := str "github-dark";
       mermaidTheme := str "default"; monacoTheme := str "vs-dark" |});
   (str "hacker",
    {| label := str "Hacker"; shikiTheme := str "monokai";
       mermaidTheme := str "dark"; monacoTheme := str "vs-dark" |});
   (str "academic",
    {| label := str "Academic"; shikiTheme := str "vitesse-light";
       mermaidTheme := str "neutral"; monacoTheme := str "vs" |});
   (str "vibrant",
    {| label := str "Vibrant"; shikiTheme := str "nord";
       mermaidTheme := str "forest"; monacoTheme := str "vs-dark" |})].

(** [THEME_CONFIG] is an object literal, so the [in] operator also finds
    the properties it inherits from [Object.prototype]. *)
Definition objectPrototypeKeys : list jsstring :=
  [str "constructor"; str "__defineGetter__"; str "__defineSetter__";
   str "hasOwnProperty"; str "__lookupGetter__"; str "__lookupSetter__";
   str "isPrototypeOf"; str "propertyIsEnumerable"; str "toString";
   str "valueOf"; str "__proto__"; str "toLocaleString"].

Definition mem (k : jsstring) (ks : list jsstring) : bool :=
  existsb (JsString.eqb k) ks.

(** [key in THEME_CONFIG] *)
Definition inThemeConfig (key : jsstring) : bool :=
  mem key THEME_IDS || mem key objectPrototypeKeys.

Definition knownTheme (key : jsstring) : bool := mem key THEME_IDS.

End Theme.
Import Theme.

(** ** Deep-link codec *)

Module DeepLink.

Record HashState := {
  slideIndex : Number.number;
  themeId : jsstring;
  presenter : bool
}.

(** *** UTF-8, as the URL standard applies it to strings *)

Definition replacement : Z := 65533.

(** Conversion to a scalar-value string followed by UTF-8 encoding: an
    unpaired surrogate becomes U+FFFD. *)
Fixpoint utf8Encode (s : jsstring) : list Z :=
  match s with
  | [] => []
  | c :: s' =>
      if isLeadSurrogate c then
        match s' with
        | d :: s'' =>
            if isTrailSurrogate d
            then utf8 ((c - 55296) * 1024 + (d - 56320) + 65536) ++ utf8Encode s''
            else utf8 replacement ++ utf8Encode s'
        | [] => utf8 replacement
        end
      else if isTrailSurrogate c then utf8 replacement ++ utf8Encode s'
      else utf8 c ++ utf8Encode s'
  end.

Definition between (lo hi b : Z) : bool := (lo <=? b) && (b <=? hi).

(** UTF-8 decode without BOM: ill-formed input yields U+FFFD and decoding
    resumes at the offending byte. *)
Fixpoint utf8Decode (bs : list Z) : jsstring :=
  match bs with
  | [] => []
  | b :: r0 =>
      if b <? 128 then b :: utf8Decode r0
      else if between 194 223 b then
        match r0 with
        | b1 :: r1 =>
            if isCont b1
            then utf16 ((b - 192) * 64 + (b1 - 128)) ++ utf8Decode r1
            else replacement :: utf8Decode r0
        | [] => [replacement]
        end
      else if between 224 239 b then
        match r0 with
        | b1 :: r1 =>
            if between (if b =? 224 then 160 else 128)
                       (if b =? 237 then 159 else 191) b1
            then
              match r1 with
              | b2 :: r2 =>
                  if isCont b2
                  then utf16 ((b - 224) * 4096 + (b1 - 128) * 64 + (b2 - 128))
                         ++ utf8Decode r2
                  else replacement :: utf8Decode r1
              | [] => [replacement]
              end
            else replacement :: utf8Decode r0
        | [] => [replacement]
        end
      else if between 240 244 b then
        match r0 with
        | b1 :: r1 =>
            if between (if b =? 240 then 144 else 128)
                       (if b =? 244 then 143 else 191) b1
            then
              match r1 with
              | b2 :: r2 =>
                  if isCont b2 then
                    match r2 with
                    | b3 :: r3 =>
                        if isCont b3
                        then utf16 ((b - 240) * 262144 + (b1 - 128) * 4096
                                    + (b2 - 128) * 64 + (b3 - 128))
                               ++ utf8Decode r3
                        else replacement :: utf8Decode r2
                    | [] => [replacement]
                    end
                  else replacement :: utf8Decode r1
              | [] => [replacement]
              end
            else replacement :: utf8Decode r0
        | [] => [replacement]
        end
      else replacement :: utf8Decode r0
  end.

(** *** application/x-www-form-urlencoded *)

(** Bytes the serializer leaves as they are: alphanumerics and [* - . _]. *)
Definition formSafe (b : Z) : bool :=
  isAlnum b || (b =? 42) || (b =? 45) || (b =? 46) || (b =? 95).

Definition serializeByte (b : Z) : jsstring :=
  if b =? 32 then [43] else if formSafe b then [b] else pct b.

Definition serializeBytes (bs : list Z) : jsstring := flat_map serializeByte bs.

Definition serializePair (nv : jsstring * jsstring) : jsstring :=
  serializeBytes (utf8Encode (fst nv)) ++ [61] ++ serializeBytes (utf8Encode (snd nv)).

(** [params.toString()] *)
Definition toString (params : list (jsstring * jsstring)) : jsstring :=
  join [38] (map serializePair params).

(** Percent-decode of the URL standard: a [%] that is not followed by two
    hexadecimal digits stands for itself. *)
Fixpoint percentDecode (s : list Z) : list Z :=
  match s with
  | [] => []
  | c :: s' =>
      if c =? 37 then
        match s' with
        | h :: l :: s'' =>
            match hexVal h, hexVal l with
            | Some x, Some y => (16 * x + y) :: percentDecode s''
            | _, _ => c :: percentDecode s'
            end
        | _ => c :: percentDecode s'
        end
      else c :: percentDecode s'
  end.

Definition plusToSpace (s : list Z) : list Z :=
  map (fun c => if c =? 43 then 32 else c) s.

(** Split at every occurrence of [sep]. *)
Fixpoint splitOn (sep : Z) (cur : list Z) (s : list Z) : list (list Z) :=
  match s with
  | [] => [rev cur]
  | c :: s' =>
      if c =? sep then rev cur :: splitOn sep [] s'
      else splitOn sep (c :: cur) s'
  end.

(** Split at the first [=]; without one the value is empty. *)
Fixpoint cutAtEq (cur : list Z) (s : list Z) : list Z * list Z :=
  match s with
  | [] => (rev cur, [])
  | c :: s' => if c =? 61 then (rev cur, s') else cutAtEq (c :: cur) s'
  end.

Definition parsePair (piece : list Z) : jsstring * jsstring :=
  let '(n, v) := cutAtEq [] piece in
  (utf8Decode (percentDecode (plusToSpace n)),
   utf8Decode (percentDecode (plusToSpace v))).

Definition nonEmpty (l : list Z) : bool :=
  match l with [] => false | _ => true end.

(** The urlencoded parser, applied to the UTF-8 bytes of the input. *)
Definition parseUrlencoded (input : jsstring) : list (jsstring * jsstring) :=
  map parsePair (filter nonEmpty (splitOn 38 [] (utf8Encode input))).

(** [new URLSearchParams(init)]: one leading [?] is dropped. *)
Definition URLSearchParams (init : jsstring) : list (jsstring * jsstring) :=
  match init with
  | c :: rest => if c =? 63 then parseUrlencoded rest else parseUrlencoded init
  | [] => parseUrlencoded init
  end.

(** [params.get(name)]; [None] is [null]. *)
Fixpoint get (name : jsstring) (params : list (jsstring * jsstring))
    : option jsstring :=
  match params with
  | [] => None
  | (n, v) :: rest => if JsString.eqb n name then Some v else get name rest
  end.

(** [params.delete(name)] *)
Definition delete (name : jsstring) (params : list (jsstring * jsstring)) :=
  filter (fun nv => negb (JsString.eqb (fst nv) name)) params.

(** [params.set(name, value)]: the first tuple named [name] takes the
    value and the others are removed; without one the tuple is appended. *)
Fixpoint set (name value : jsstring) (params : list (jsstring * jsstring)) :=
  match params with
  | [] => [(name, value)]
  | (n, v) :: rest =>
      if JsString.eqb n name then (n, value) :: delete name rest
      else (n, v) :: set name value rest
  end.

(** *** Numbers in the fragment *)

Definition isDigit (c : Z) : bool := (48 <=? c) && (c <=? 57).

Fixpoint digitsValue (acc : Z) (seen : bool) (s : jsstring) : option Z :=
  match s with
  | c :: s' =>
      if isDigit c then digitsValue (10 * acc + (c - 48)) true s'
      else if seen then Some acc else None
  | [] => if seen then Some acc else None
  end.

(** The mathematical integer [Number.parseInt(s, 10)] reads: leading
    white space, a sign, then the longest run of digits; [None] when there
    is no digit. *)
Definition parseIntMath (s : jsstring) : option Z :=
  match trimStart s with
  | c :: r =>
      if c =? 45 then option_map Z.opp (digitsValue 0 false r)
      else if c =? 43 then digitsValue 0 false r
      else digitsValue 0 false (c :: r)
  | [] => None
  end.

(** [Number.parseInt(s, 10)]: the Number value for that integer, [NaN]
    when there is none. *)
Definition parseInt10 (s : jsstring) : Number.number :=
  match parseIntMath s with
  | Some z => Number.ofInteger z
  | None => Number.NaN
  end.

(** *** The location fragment *)

(** The fragment percent-encode set: C0 controls, space, the double
    quote, [<], [>], the backtick and everything above [~]. *)
Definition fragmentEscaped (b : Z) : bool :=
  (b <=? 32) || (b =? 34) || (b =? 60) || (b =? 62) || (b =? 96) || (126 <? b).

Definition isTabOrNewline (c : Z) : bool := (c =? 9) || (c =? 10) || (c =? 13).
Definition isC0OrSpace (c : Z) : bool := (0 <=? c) && (c <=? 32).

Fixpoint dropTrailingC0 (s : jsstring) : jsstring :=
  match s with
  | [] => []
  | c :: s' =>
      match dropTrailingC0 s' with
      | [] => if isC0OrSpace c then [] else [c]
      | r => c :: r
      end
  end.

(** What the URL parser stores as fragment for the text after [#]. *)
Definition urlFragment (afterHash : jsstring) : jsstring :=
  flat_map (fun b => if fragmentEscaped b then pct b else [b])
    (utf8Encode (filter (fun c => negb (isTabOrNewline c)) (dropTrailingC0 afterHash))).

(** [window.location.hash] for a stored fragment. *)
Definition locationHash (fragment : jsstring) : jsstring :=
  match fragment with [] => [] | _ => 35 :: fragment end.

(** [hash.replace(/^#/, '')] *)
Definition stripHash (hash : jsstring) : jsstring :=
  match hash with
  | c :: r => if c =? 35 then r else hash
  | [] => []
  end.

(** *** The codec *)

Definition readHashState (hash : jsstring) : HashState :=
  let params := URLSearchParams (stripHash hash) in
  let requestedTheme := get (str "theme") params in
  let requestedSlide :=
    parseInt10 (match get (str "slide") params with Some v => v | None => str "1" end) in
  let themeId :=
    match requestedTheme with
    | Some t => if nonEmpty t && inThemeConfig t then t else DEFAULT_THEME_ID
    | None => DEFAULT_THEME_ID
    end in
  {| slideIndex := if Number.isFinite requestedSlide
                   then Number.max (Number.Int 0)
                          (Number.sub requestedSlide (Number.Int 1))
                   else Number.Int 0;
     themeId := themeId;
     presenter := match get (str "presenter") params with
                  | Some v => JsString.eqb v (str "1")
                  | None => false
                  end |}.

(** The hash-writing effect of [App]: the new value of
    [window.location.hash], given the old one. *)
Definition writeHash (oldHash : jsstring) (currentSlide : Number.number)
    (themeId : jsstring) (isPresenterWindow : bool) : jsstring :=
  let params := URLSearchParams (stripHash oldHash) in
  let params :=
    set (str "slide")
      (Number.toString (Number.add currentSlide (Number.Int 1))) params in
  let params := set (str "theme") themeId params in
  let params := if isPresenterWindow then set (str "presenter") (str "1") params
                else delete (str "presenter") params in
  let hash := toString params in
  match hash with
  | [] => locationHash []
  | _ => locationHash (urlFragment hash)
  end.

End DeepLink.

(** ** HTML start tags

    The part of the HTML tokenizer that reads the start tag of an element
    and its attributes.  Character references in attribute values are
    those [escapeHtml] writes; any other ampersand stands for itself. *)

Module Html.

Inductive tstate : Type :=
| TagName
| BeforeAttrName
| AttrName
| AfterAttrName
| BeforeAttrValue
| ValueDouble
| ValueSingle
| ValueUnquoted
| AfterValueQuoted.

Definition isHtmlSpace (c : Z) : bool :=
  (c =? 9) || (c =? 10) || (c =? 12) || (c =? 32).

Fixpoint startsWith (p s : jsstring) : bool :=
  match p, s with
  | [], _ => true
  | x :: p', y :: s' => (x =? y) && startsWith p' s'
  | _ :: _, [] => false
  end.

(** The character a reference stands for, and the code units after the
    ampersand it takes. *)
Definition entityAt (s : jsstring) : option (Z * nat) :=
  if startsWith (str "amp;") s then Some (38, 4%nat)
  else if startsWith (str "lt;") s then Some (60, 3%nat)
  else if startsWith (str "gt;") s then Some (62, 3%nat)
  else if startsWith (str "quot;") s then Some (34, 5%nat)
  else if startsWith (str "#39;") s then Some (39, 4%nat)
  else None.

Fixpoint decodeCharRefs (skip : nat) (s : jsstring) : jsstring :=
  match s with
  | [] => []
  | c :: r =>
      match skip with
      | S n => decodeCharRefs n r
      | O =>
          if c =? 38 then
            match entityAt r with
            | Some (ch, len) => ch :: decodeCharRefs len r
            | None => c :: decodeCharRefs 0 r
            end
          else c :: decodeCharRefs 0 r
      end
  end.

Definition attribute : Type := (jsstring * jsstring)%type.

Fixpoint lookup (name : jsstring) (attrs : list attribute) : option jsstring :=
  match attrs with
  | [] => None
  | (n, v) :: rest => if JsString.eqb n name then Some v else lookup name rest
  end.

(** Close the attribute being read (name and raw value, most recent code
    unit first); a repeated name is dropped. *)
Definition finish (cur : option (list Z * list Z)) (attrs : list attribute)
    : list attribute :=
  match cur with
  | None => attrs
  | Some (nm, vl) =>
      match lookup (rev nm) attrs with
      | Some _ => attrs
      | None => attrs ++ [(rev nm, decodeCharRefs 0 (rev vl))]
      end
  end.

(** The tokenizer from the tag-name state on; the result is the tag name,
    the attributes and the input after the closing [>]. *)
Fixpoint startTag (st : tstate) (tg : list Z) (attrs : list attribute)
    (cur : option (list Z * list Z)) (s : jsstring)
    : option (jsstring * list attribute * jsstring) :=
  match s with
  | [] => None
  | c :: r =>
      match st with
      | TagName =>
          if isHtmlSpace c || (c =? 47) then startTag BeforeAttrName tg attrs cur r
          else if c =? 62 then Some (rev tg, finish cur attrs, r)
          else startTag TagName (asciiLower c :: tg) attrs cur r
      | BeforeAttrName =>
          if isHtmlSpace c || (c =? 47) then startTag BeforeAttrName tg attrs cur r
          else if c =? 62 then Some (rev tg, finish cur attrs, r)
          else startTag AttrName tg (finish cur attrs) (Some ([asciiLower c], [])) r
      | AttrName =>
          if isHtmlSpace c || (c =? 47) then startTag AfterAttrName tg attrs cur r
          else if c =? 62 then Some (rev tg, finish cur attrs, r)
          else if c =? 61 then startTag BeforeAttrValue tg attrs cur r
          else
            match cur with
            | Some (nm, vl) =>
                startTag AttrName tg attrs (Some (asciiLower c :: nm, vl)) r
            | None => startTag AttrName tg (finish cur attrs) (Some ([asciiLower c], [])) r
            end
      | AfterAttrName =>
          if isHtmlSpace c then startTag AfterAttrName tg attrs cur r
          else if c =? 47 then startTag BeforeAttrName tg attrs cur r
          else if c =? 61 then startTag BeforeAttrValue tg attrs cur r
          else if c =? 62 then Some (rev tg, finish cur attrs, r)
          else startTag AttrName tg (finish cur attrs) (Some ([asciiLower c], [])) r
      | BeforeAttrValue =>
          if isHtmlSpace c then startTag BeforeAttrValue tg attrs cur r
          else if c =? 34 then startTag ValueDouble tg attrs cur r
          else if c =? 39 then startTag ValueSingle tg attrs cur r
          else if c =? 62 then Some (rev tg, finish cur attrs, r)
          else
            match cur with
            | Some (nm, vl) =>
                startTag ValueUnquoted tg attrs (Some (nm, c :: vl)) r
            | None => None
            end
      | ValueDouble =>
          if c =? 34 then startTag AfterValueQuoted tg attrs cur r
          else
            match cur with
            | Some (nm, vl) =>
                startTag ValueDouble tg attrs (Some (nm, c :: vl)) r
            | None => None
            end
      | ValueSingle =>
          if c =? 39 then startTag AfterValueQuoted tg attrs cur r
          else
            match cur with
            | Some (nm, vl) =>
                startTag ValueSingle tg attrs (Some (nm, c :: vl)) r
            | None => None
            end
      | ValueUnquoted =>
          if isHtmlSpace c then startTag BeforeAttrName tg attrs cur r
          else if c =? 62 then Some (rev tg, finish cur attrs, r)
          else
            match cur with
            | Some (nm, vl) =>
                startTag ValueUnquoted tg attrs (Some (nm, c :: vl)) r
            | None => None
            end
      | AfterValueQuoted =>
          if isHtmlSpace c || (c =? 47) then startTag BeforeAttrName tg attrs cur r
          else if c =? 62 then Some (rev tg, finish cur attrs, r)
          else startTag AttrName tg (finish cur attrs) (Some ([asciiLower c], [])) r
      end
  end.

Definition isAsciiAlpha (c : Z) : bool :=
  ((65 <=? c) && (c <=? 90)) || ((97 <=? c) && (c <=? 122)).

(** The start tag at the head of [s]. *)
Definition elementStart (s : jsstring)
    : option (jsstring * list attribute * jsstring) :=
  match s with
  | c0 :: c :: r =>
      if (c0 =? 60) && isAsciiAlpha c then startTag TagName [asciiLower c] [] None r
      else None
  | _ => None
  end.

End Html.

(** ** The document tree *)

Module Dom.

(** An element carries the [tagName] the DOM reports, its class list, its
    other attributes and its children. *)
Inductive node : Type :=
| Text (data : jsstring)
| Elem (tagName : jsstring) (classes : list jsstring)
       (attrs : list (jsstring * jsstring)) (children : list node).

Fixpoint textContent (n : node) : jsstring :=
  match n with
  | Text d => d
  | Elem _ _ _ ch => flat_map textContent ch
  end.

(** [node.textContent = s]: the children become one text node, or none
    when [s] is empty. *)
Definition textChildren (s : jsstring) : list node :=
  match s with [] => [] | _ => [Text s] end.

Definition hasClass (c : jsstring) (classes : list jsstring) : bool :=
  mem c classes.

(** [classList.add] *)
Definition addClass (c : jsstring) (classes : list jsstring) : list jsstring :=
  if hasClass c classes then classes else classes ++ [c].

(** [classList.toggle(c, force)] *)
Definition toggleClass (c : jsstring) (force : bool) (classes : list jsstring) :=
  if force then addClass c classes
  else filter (fun x => negb (JsString.eqb x c)) classes.

Fixpoint getAttr (name : jsstring) (attrs : list (jsstring * jsstring))
    : option jsstring :=
  match attrs with
  | [] => None
  | (n, v) :: rest => if JsString.eqb n name then Some v else getAttr name rest
  end.

Fixpoint setAttr (name value : jsstring) (attrs : list (jsstring * jsstring)) :=
  match attrs with
  | [] => [(name, value)]
  | (n, v) :: rest =>
      if JsString.eqb n name then (n, value) :: rest
      else (n, v) :: setAttr name value rest
  end.

End Dom.
Import Dom.

(** ** Enhancement pipeline: code and math stages *)

Module Pipeline.

Definition decodeDatasetValue (value : option jsstring) : jsstring :=
  match value with
  | None => []
  | Some [] => []
  | Some v =>
      match decodeURIComponent v with
      | Some d => d
      | None => v
      end
  end.

(** What [LANG_ALIAS[key]] evaluates to: a bundled language, or a value
    inherited from [Object.prototype]. *)
Inductive LangValue : Type :=
| Bundled (name : jsstring)
| Inherited (key : jsstring).

Definition LANG_ALIAS : list (jsstring * jsstring) :=
  [(str "js", str "javascript"); (str "javascript", str "javascript");
   (str "ts", str "typescript"); (str "typescript", str "typescript");
   (str "py", str "python"); (str "python", str "python");
   (str "json", str "json"); (str "bash", str "bash"); (str "sh", str "bash");
   (str "md", str "markdown"); (str "markdown", str "markdown")].

(** The languages and themes the highlighter is created with. *)
Definition BUNDLED_LANGS : list jsstring :=
  [str "javascript"; str "typescript"; str "python"; str "json"; str "bash";
   str "markdown"].

Definition BUNDLED_THEMES : list jsstring :=
  [str "github-light"; str "github-dark"; str "monokai"; str "vitesse-light";
   str "nord"].

(** The render id [enhanceMermaid] passes to [mermaid.render]:
    [mermaid-${slideId}-${index}-${Date.now()}]. *)
Definition renderId (slideId index now : Z) : jsstring :=
  str "mermaid-" ++ numberToString slideId ++ str "-" ++ numberToString index
  ++ str "-" ++ numberToString now.

Definition plainPre (code : jsstring) : node :=
  Elem (str "PRE") [str "deck-code"; str "deck-code-plain"] []
    [Elem (str "CODE") [] [] (textChildren code)].

(** [/\$\$([\s\S]+?)\$\$|\$([^$\n]+?)\$/g] *)
Definition mathPattern : pattern :=
  {| body := Alt (seq [lits (str "$$"); Grp 0 (lazy_plus Any); lits (str "$$")])
                 (seq [lits (str "$"); Grp 1 (lazy_plus (NoneOf [36; 10]));
                       lits (str "$")]);
     ngroups := 2; fl := fl_none |}.

Definition disallowedTags : list jsstring :=
  [str "PRE"; str "CODE"; str "SCRIPT"; str "STYLE"; str "TEXTAREA"; str "SVG"].

(** An element on the path from a text node up to the document: its
    [tagName] and its class list. *)
Definition ancestor : Type := (jsstring * list jsstring)%type.

(** [shouldSkipMathNode(textNode.parentElement)]; the argument lists the
    parent first, then its ancestors.  [closest] inspects all of them, the
    tag test only the parent. *)
Definition shouldSkipMathNode (path : list ancestor) : bool :=
  match path with
  | [] => true
  | parent :: _ =>
      if existsb (fun a => hasClass (str "katex") (snd a)) path then true
      else mem (fst parent) disallowedTags
  end.

Section Engines.
(** The engines are parameters; [None] stands for a thrown exception (for
    [parseFirstElement], for a body without element child). *)
Variable toLowerCase : jsstring -> jsstring.
(** [highlighter.codeToHtml(code, {lang, theme})] *)
Variable codeToHtml : jsstring -> LangValue -> jsstring -> option jsstring.
(** [new DOMParser().parseFromString(html, 'text/html').body.firstElementChild] *)
Variable parseFirstElement : jsstring -> option node.
(** The nodes [innerHTML = katex.renderToString(expression, ...)] creates. *)
Variable katexRender : jsstring -> bool -> option (list node).

Definition resolveLanguage (rawLang : jsstring) : option LangValue :=
  match rawLang with
  | [] => None
  | _ =>
      let normalized := toLowerCase (trim rawLang) in
      match getAttr normalized LANG_ALIAS with
      | Some l => Some (Bundled l)
      | None =>
          if mem normalized objectPrototypeKeys
          then Some (Inherited normalized) else None
      end
  end.

(** The [lines.forEach] of the code stage: every descendant of class
    [line], in document order, gets its number and its delay. *)
Fixpoint decorateLines (n : node) (i : nat) : node * nat :=
  match n with
  | Text d => (Text d, i)
  | Elem tag cls attrs ch =>
      let '(cls', attrs', i1) :=
        if hasClass (str "line") cls
        then (addClass (str "deck-code-line") cls,
              setAttr (str "style.animationDelay")
                (numberToString (Z.of_nat i * 70) ++ str "ms")
                (setAttr (str "data-line-number")
                   (numberToString (Z.of_nat i + 1)) attrs),
              S i)
        else (cls, attrs, i) in
      let '(ch', i2) :=
        (fix go (l : list node) (j : nat) : list node * nat :=
           match l with
           | [] => ([], j)
           | x :: t =>
               let '(x', j1) := decorateLines x j in
               let '(t', j2) := go t j1 in
               (x' :: t', j2)
           end) ch i1 in
      (Elem tag cls' attrs' ch', i2)
  end.

Definition decorateChildren (ch : list node) : list node :=
  fst (fold_left (fun acc x =>
                    let '(x', j) := decorateLines x (snd acc) in
                    (fst acc ++ [x'], j)) ch ([], O)).

Definition decorateHighlighted (showLineNumbers : bool) (n : node) : node :=
  match n with
  | Text d => Text d
  | Elem tag cls attrs ch =>
      Elem tag
        (toggleClass (str "deck-code-with-lines") showLineNumbers
           (addClass (str "deck-code") cls))
        attrs (decorateChildren ch)
  end.

(** One turn of the loop of [enhanceCodeBlocks]: what replaces the
    placeholder with these attributes; [None] when the turn ends with
    [continue] before any replacement. *)
Definition enhanceCodeBlock
    (highlighter : bool) (theme : jsstring) (showLineNumbers : bool)
    (attrs : list (jsstring * jsstring)) : option node :=
  let code := decodeDatasetValue (getAttr (str "data-code") attrs) in
  let rawLang := decodeDatasetValue (getAttr (str "data-lang") attrs) in
  match highlighter, resolveLanguage rawLang with
  | true, Some lang =>
      match codeToHtml code lang theme with
      | None => Some (plainPre code)
      | Some html =>
          match parseFirstElement html with
          | None => None
          | Some highlightedPre =>
              Some (decorateHighlighted showLineNumbers highlightedPre)
          end
      end
  | _, _ => Some (plainPre code)
  end.

(** [pre.md-code] *)
Definition isCodePlaceholder (tag : jsstring) (cls : list jsstring) : bool :=
  JsString.eqb tag (str "PRE") && hasClass (str "md-code") cls.

(** The code stage on the subtree below [n]: placeholders are visited in
    document order; the children of a replaced placeholder leave the
    tree with it. *)
Fixpoint enhanceCodeNode (highlighter : bool) (theme : jsstring)
    (showLineNumbers : bool) (n : node) : node :=
  match n with
  | Text d => Text d
  | Elem tag cls attrs ch =>
      let below :=
        Elem tag cls attrs
          (map (enhanceCodeNode highlighter theme showLineNumbers) ch) in
      if isCodePlaceholder tag cls then
        match enhanceCodeBlock highlighter theme showLineNumbers attrs with
        | Some replacement => replacement
        | None => below
        end
      else below
  end.

(** [enhanceCodeBlocks(root, ...)]: [querySelectorAll] finds descendants
    of [root] only. *)
Definition enhanceCodeBlocks (root : node) (highlighter : bool)
    (theme : jsstring) (showLineNumbers : bool) : node :=
  match root with
  | Text d => Text d
  | Elem tag cls attrs ch =>
      Elem tag cls attrs
        (map (enhanceCodeNode highlighter theme showLineNumbers) ch)
  end.

(** The node built for one match of [mathPattern]. *)
Definition mathNode (r : mres) : node :=
  let displayMode :=
    match nth_error (groups r) 0 with Some (Some _) => true | _ => false end in
  let expression :=
    trim (match nth_error (groups r) 0 with
          | Some (Some g) => g
          | _ => match nth_error (groups r) 1 with
                 | Some (Some g) => g
                 | _ => []
                 end
          end) in
  Elem (if displayMode then str "DIV" else str "SPAN")
    [if displayMode then str "math-display" else str "math-inline"] []
    (match katexRender expression displayMode with
     | Some rendered => rendered
     | None => textChildren (matched r)
     end).

(** The fragment that replaces a text node with at least one match. *)
Fixpoint mathFragment (originalText : jsstring) (results : list mres)
    (cursor : nat) : list node :=
  match results with
  | [] =>
      if (cursor <? length originalText)%nat
      then [Text (skipn cursor originalText)] else []
  | r :: rest =>
      (if (cursor <? index r)%nat
       then [Text (slice originalText cursor (index r))] else [])
      ++ mathNode r
      :: mathFragment originalText rest (index r + mlen r)%nat
  end.

(** The math stage below a node whose ancestors are [path]. *)
Fixpoint enhanceMathNode (path : list ancestor) (n : node) : list node :=
  match n with
  | Text d =>
      if existsb (Z.eqb 36) d && negb (shouldSkipMathNode path) then
        match matchAll mathPattern d with
        | [] => [Text d]
        | results => mathFragment d results 0
        end
      else [Text d]
  | Elem tag cls attrs ch =>
      [Elem tag cls attrs (flat_map (enhanceMathNode ((tag, cls) :: path)) ch)]
  end.

(** [enhanceMath(root)], for a root whose own ancestors are [outer]. *)
Definition enhanceMath (outer : list ancestor) (root : node) : node :=
  match enhanceMathNode outer root with
  | [r] => r
  | _ => root
  end.

End Engines.

End Pipeline.
Import Pipeline.

(** ** The slide view: one run of the effect of [SlideRenderer] *)

Module SlideView.

(** Writes into the subtree, by the stage that makes them. *)
Inductive write : Type :=
| SeedWrite                     (* root.innerHTML = slide.html *)
| CodeWrite                     (* the code stage *)
| MathWrite                     (* the math stage *)
| DiagramWrite (i : nat).       (* innerHTML of the i-th diagram placeholder *)

Inductive phase : Type :=
| Suspended                     (* run waits at [await enhanceCodeBlocks] *)
| Finished.

(** The variables of the effect closure, the browser's timer table, the
    pending [mermaid.render] promises and the writes made so far. *)
Record state := {
  active : bool;
  mermaidTimer : option nat;
  pendingTimers : list nat;
  nextTimer : nat;
  run : phase;
  rendering : list nat;
  writes : list write
}.

(** What the event loop can do next. *)
Inductive event : Type :=
| Resume                        (* the continuation of [run] after [await] *)
| TimerFires (id : nat)
| RenderSettles (i : nat)       (* [mermaid.render] resolves or rejects *)
| Dispose.                      (* the function the effect returned *)

Definition removeId (id : nat) (l : list nat) : list nat :=
  filter (fun x => negb (Nat.eqb x id)) l.

Definition isDiagramWrite (w : write) : bool :=
  match w with DiagramWrite _ => true | _ => false end.

Definition diagramWrites (s : state) : list write :=
  filter isDiagramWrite (writes s).

Section Run.
(** Number of elements [root.querySelectorAll('.md-mermaid')] finds. *)
Variable diagrams : nat.

(** The state when the effect body returns: [run] has seeded the
    subtree, gone through the code stage and stopped at its [await]. *)
Definition start : state :=
  {| active := true; mermaidTimer := None; pendingTimers := [];
     nextTimer := 1; run := Suspended; rendering := [];
     writes := [CodeWrite; SeedWrite] |}.

Definition step (s : state) (e : event) : state :=
  match e with
  | Resume =>
      match run s with
      | Finished => s
      | Suspended =>
          if active s then
            {| active := active s;
               mermaidTimer := Some (nextTimer s);
               pendingTimers := nextTimer s :: pendingTimers s;
               nextTimer := S (nextTimer s);
               run := Finished;
               rendering := rendering s;
               writes := MathWrite :: writes s |}
          else
            {| active := active s; mermaidTimer := mermaidTimer s;
               pendingTimers := pendingTimers s; nextTimer := nextTimer s;
               run := Finished; rendering := rendering s;
               writes := writes s |}
      end
  | TimerFires id =>
      if existsb (Nat.eqb id) (pendingTimers s) then
        {| active := active s; mermaidTimer := mermaidTimer s;
           pendingTimers := removeId id (pendingTimers s);
           nextTimer := nextTimer s; run := run s;
           rendering := if active s then List.seq 0 diagrams ++ rendering s
                        else rendering s;
           writes := writes s |}
      else s
  | RenderSettles i =>
      if existsb (Nat.eqb i) (rendering s) then
        {| active := active s; mermaidTimer := mermaidTimer s;
           pendingTimers := pendingTimers s; nextTimer := nextTimer s;
           run := run s;
           rendering := removeId i (rendering s);
           writes := DiagramWrite i :: writes s |}
      else s
  | Dispose =>
      {| active := false; mermaidTimer := mermaidTimer s;
         pendingTimers := match mermaidTimer s with
                          | Some id => removeId id (pendingTimers s)
                          | None => pendingTimers s
                          end;
         nextTimer := nextTimer s; run := run s;
         rendering := rendering s; writes := writes s |}
  end.

Definition exec (s : state) (tr : list event) : state := fold_left step tr s.

End Run.

Definition isTimerFires (e : event) : bool :=
  match e with TimerFires _ => true | _ => false end.

End SlideView.

(** ** Application state: navigation and synchronisation *)

Module App.
Import Number.

Record SharedState := {
  markdown : jsstring;
  currentSlide : number;
  themeId : jsstring
}.

Record SharedMessage := { sourceId : jsstring; state : option SharedState }.

Inductive direction : Type := forward | backward.

(** The state hooks of [App] the core reads and writes. *)
Record AppState := {
  app_markdown : jsstring;
  app_currentSlide : number;
  app_themeId : jsstring;
  slideTransitionDirection : direction
}.

Definition clamp (value min max : number) : number :=
  if ltb value min then min
  else if gtb value max then max
  else value.

Definition setCurrentSlide (next : number) (d : direction) (st : AppState)
    : AppState :=
  {| app_markdown := app_markdown st; app_currentSlide := next;
     app_themeId := app_themeId st; slideTransitionDirection := d |}.

Definition setMarkdown (md : jsstring) (st : AppState) : AppState :=
  {| app_markdown := md; app_currentSlide := app_currentSlide st;
     app_themeId := app_themeId st;
     slideTransitionDirection := slideTransitionDirection st |}.

Definition setThemeId (t : jsstring) (st : AppState) : AppState :=
  {| app_markdown := app_markdown st; app_currentSlide := app_currentSlide st;
     app_themeId := t;
     slideTransitionDirection := slideTransitionDirection st |}.

(** The three navigation callbacks; [maxSlideIndex] is the value their
    closure holds. *)
Definition goToSlide (maxSlideIndex : number) (index : number) (st : AppState)
    : AppState :=
  let previous := app_currentSlide st in
  let next := clamp index (Int 0) maxSlideIndex in
  setCurrentSlide next
    (if gtb next previous then forward
     else if ltb next previous then backward
     else slideTransitionDirection st) st.

Definition nextSlide (maxSlideIndex : number) (st : AppState) : AppState :=
  let index := app_currentSlide st in
  let next := clamp (add index (Int 1)) (Int 0) maxSlideIndex in
  setCurrentSlide next
    (if eqb next index then slideTransitionDirection st else forward) st.

Definition previousSlide (maxSlideIndex : number) (st : AppState) : AppState :=
  let index := app_currentSlide st in
  let next := clamp (sub index (Int 1)) (Int 0) maxSlideIndex in
  setCurrentSlide next
    (if eqb next index then slideTransitionDirection st else backward) st.

(** [channel.onmessage].  The message has the fields of [SharedMessage]
    with strings where the type says string; its slide index is any
    number. *)
Definition onmessage (clientId : jsstring) (maxSlideIndex : number)
    (payload : option SharedMessage) (st : AppState) : AppState :=
  match payload with
  | None => st
  | Some p =>
      if JsString.eqb (sourceId p) clientId then st
      else
        match state p with
        | None => st
        | Some s =>
            if negb (inThemeConfig (themeId s)) then st
            else goToSlide maxSlideIndex (currentSlide s)
                   (setThemeId (themeId s) (setMarkdown (markdown s) st))
        end
  end.


(** The [hashchange] listener. *)
Definition onHashChange (maxSlideIndex : number) (hash : jsstring)
    (st : AppState) : AppState :=
  let nextHashState := DeepLink.readHashState hash in
  goToSlide maxSlideIndex (DeepLink.slideIndex nextHashState)
    (setThemeId (DeepLink.themeId nextHashState) st).






(** A mounted [App] between two renders: its state hooks, and the
    [maxSlideIndex] the clamp effect last ran with, its dependency. *)
Record app := { hooks : AppState; clampDep : option number }.






Section Rendering.
Variable toLowerCase : jsstring -> jsstring.
Variable marked_parse :
  (CodeToken -> option jsstring) -> jsstring -> option jsstring.




End Rendering.

End App.

(** ** Presenter clock and stored settings *)

Module Presenter.

(** [s.padStart(2, '0')] *)
Definition padStart2 (s : jsstring) : jsstring :=
  repeat 48 (2 - length s) ++ s.

(** [formatElapsedTimer], for a whole number of seconds. *)
Definition formatElapsedTimer (totalSeconds : Z) : jsstring :=
  let safeSeconds := Z.max 0 totalSeconds in
  let hours := safeSeconds / 3600 in
  let minutes := (safeSeconds mod 3600) / 60 in
  let seconds := safeSeconds mod 60 in
  if hours >? 0 then
    padStart2 (numberToString hours) ++ str ":"
    ++ padStart2 (numberToString minutes) ++ str ":"
    ++ padStart2 (numberToString seconds)
  else
    padStart2 (numberToString minutes) ++ str ":"
    ++ padStart2 (numberToString seconds).

(** [readStoredBoolean], given what [localStorage.getItem] returned. *)
Definition readStoredBoolean (raw : option jsstring) (fallback : bool) : bool :=
  match raw with
  | None => fallback
  | Some r => JsString.eqb r (str "1")
  end.

End Presenter.

(** ** Predicates of the statements *)

(** Every element is a UTF-16 code unit. *)
Definition codeUnits (s : jsstring) : Prop := Forall (fun c => 0 <= c < 65536) s.

(** The lines of a text: its maximal runs without line terminator. *)
Fixpoint linesOf (cur : list Z) (s : jsstring) : list jsstring :=
  match s with
  | [] => [rev cur]
  | c :: s' =>
      if isLineTerminator c then rev cur :: linesOf [] s'
      else linesOf (c :: cur) s'
  end.

(** A line that holds three hyphens and, around them, only white space. *)
Definition isSeparatorLine (l : jsstring) : bool :=
  JsString.eqb (trim l) (str "---").

Definition hasSeparatorLine (s : jsstring) : bool :=
  existsb isSeparatorLine (linesOf [] s).

Definition nonEmptyStr (s : jsstring) : bool :=
  match s with [] => false | _ => true end.

(** The notes a pattern finds in a text, in the order of its matches:
    the trimmed first groups that are not empty. *)
Definition notesOf (p : pattern) (s : jsstring) : list jsstring :=
  filter nonEmptyStr (map (fun r => trim (group1 r)) (matchAll p s)).

(** [s.replace(p, '')] *)
Definition without (p : pattern) (s : jsstring) : jsstring :=
  fst (replace (fun _ (u : unit) => ([], u)) p s tt).

(** The body and the notes of a raw slide, without the [replace] callbacks. *)
Definition slideBody (rawSlide : jsstring) : jsstring :=
  orElse (trim (without lineNotePattern (without blockNotesPattern rawSlide)))
    emptySlide.

Definition slideNoteList (rawSlide : jsstring) : list jsstring :=
  notesOf blockNotesPattern rawSlide
  ++ notesOf lineNotePattern (without blockNotesPattern rawSlide).

(** The shape a received state is asked to have: a slide index that is a
    non-negative integer and a theme of the table.  That the text is a
    string holds by the type of the field. *)
Definition validShape (s : App.SharedState) : Prop :=
  (exists z, App.currentSlide s = Number.Int z /\ 0 <= z) /\
  knownTheme (App.themeId s) = true.

(** [lo <= x <= hi] on numbers; false when one of them is [NaN]. *)
Definition between (lo x hi : Number.number) : Prop :=
  Number.leb lo x = true /\ Number.leb x hi = true.

(** ** Engines to run the program on concrete inputs *)

Module Sample.

(** Lower-casing of ASCII text. *)
Definition toLowerCase (s : jsstring) : jsstring := map asciiLower s.

(** A Markdown engine that never throws: the text as one paragraph. *)
Definition marked_parse (code : CodeToken -> option jsstring) (s : jsstring)
    : option jsstring :=
  Some (str "<p>" ++ s ++ str "</p>").

(** A highlighting engine that always throws. *)
Definition codeToHtml (code : jsstring) (lang : LangValue) (theme : jsstring)
    : option jsstring := None.

Definition parseFirstElement (html : jsstring) : option node := None.

End Sample.

(** [String.prototype.isWellFormed]: no unpaired surrogate. *)
Fixpoint isWellFormed (s : jsstring) : bool :=
  match s with
  | [] => true
  | c :: s' =>
      if isLeadSurrogate c then
        match s' with
        | d :: s'' => isTrailSurrogate d && isWellFormed s''
        | [] => false
        end
      else if isTrailSurrogate c then false
      else isWellFormed s'
  end.

(** ** Keyboard *)

Module Keyboard.

(** What one [keydown] event does: whether [preventDefault] was called,
    whether [toggleFullscreen] and [openPresenterWindow] were called, and
    the state of [App] afterwards. *)
Record outcome := {
  defaultPrevented : bool;
  fullscreenToggled : bool;
  presenterOpened : bool;
  after : App.AppState
}.

Definition forwardKeys : list jsstring :=
  [str "ArrowRight"; str "ArrowDown"; str "PageDown"; str " "].
Definition backwardKeys : list jsstring :=
  [str "ArrowLeft"; str "ArrowUp"; str "PageUp"].

Section Handler.
Variable toLowerCase : jsstring -> jsstring.

(** [onKeyDown]; [inEditor] is [Boolean(target?.closest('.editor-pane'))]. *)
Definition onKeyDown (maxSlideIndex : Number.number) (isPresenterWindow : bool)
    (key : jsstring) (inEditor : bool) (st : App.AppState) : outcome :=
  if JsString.eqb key (str "F11") then
    {| defaultPrevented := true; fullscreenToggled := true;
       presenterOpened := false; after := st |}
  else if JsString.eqb (toLowerCase key) (str "p") then
    {| defaultPrevented := true; fullscreenToggled := false;
       presenterOpened := negb isPresenterWindow; after := st |}
  else if inEditor && negb isPresenterWindow then
    {| defaultPrevented := false; fullscreenToggled := false;
       presenterOpened := false; after := st |}
  else if mem key forwardKeys then
    {| defaultPrevented := true; fullscreenToggled := false;
       presenterOpened := false; after := App.nextSlide maxSlideIndex st |}
  else if mem key backwardKeys then
    {| defaultPrevented := true; fullscreenToggled := false;
       presenterOpened := false; after := App.previousSlide maxSlideIndex st |}
  else if JsString.eqb key (str "Home") then
    {| defaultPrevented := true; fullscreenToggled := false;
       presenterOpened := false; after := App.goToSlide maxSlideIndex (Number.Int 0) st |}
  else if JsString.eqb key (str "End") then
    {| defaultPrevented := true; fullscreenToggled := false;
       presenterOpened := false;
       after := App.goToSlide maxSlideIndex maxSlideIndex st |}
  else
    {| defaultPrevented := false; fullscreenToggled := false;
       presenterOpened := false; after := st |}.
End Handler.

End Keyboard.

(** ** Further predicates of the statements *)

(** The elements [querySelectorAll('pre.md-code')] finds at or below a
    node, and below a root. *)
Fixpoint placeholders (n : node) : nat :=
  match n with
  | Text _ => O
  | Elem tag cls _ ch =>
      ((if isCodePlaceholder tag cls then 1 else 0)
       + list_sum (map placeholders ch))%nat
  end.

Definition placeholdersBelow (root : node) : nat :=
  match root with
  | Text _ => O
  | Elem _ _ _ ch => list_sum (map placeholders ch)
  end.

(** No text node at or below the node holds a dollar sign. *)
Fixpoint dollarFree (n : node) : bool :=
  match n with
  | Text d => negb (existsb (Z.eqb 36) d)
  | Elem _ _ _ ch => forallb dollarFree ch
  end.

(** The text of a list of nodes. *)
Definition texts (l : list node) : jsstring := flat_map textContent l.

(** A typesetter that always throws. *)
Definition katexFails (expression : jsstring) (displayMode : bool)
    : option (list node) := None.

(** [x] is not below [y]: [y <= x] on numbers. *)
Definition notBelow (y x : Number.number) : Prop := Number.leb y x = true.

(** Two decimal digits. *)
Definition twoDigits (n : Z) : jsstring := [48 + n / 10; 48 + n mod 10].

(** * Properties *)

Module StringFacts.

Lemma eqb_eq (a b : jsstring) : eqb a b = true <-> a = b.
Proof.
  revert b; induction a as [|x a IH]; intros [|y b]; simpl; split;
    try congruence; try reflexivity.
  - intros H. apply andb_true_iff in H as [H1 H2].
    apply Z.eqb_eq in H1. apply IH in H2. congruence.
  - intros H. injection H as -> ->. rewrite Z.eqb_refl. simpl. now apply IH.
Qed.

Lemma eqb_refl (a : jsstring) : eqb a a = true.
Proof. now apply eqb_eq. Qed.

End StringFacts.

(** Case analysis on the boolean comparisons of a goal. *)
Ltac cmp :=
  repeat match goal with
  | |- context [?a <? ?b] => destruct (Z.ltb_spec a b)
  | |- context [?a <=? ?b] => destruct (Z.leb_spec a b)
  | |- context [?a =? ?b] => destruct (Z.eqb_spec a b)
  | H : context [?a <? ?b] |- _ => destruct (Z.ltb_spec a b)
  | H : context [?a <=? ?b] |- _ => destruct (Z.leb_spec a b)
  | H : context [?a =? ?b] |- _ => destruct (Z.eqb_spec a b)
  end.

Ltac divmod := Z.div_mod_to_equations; lia.

Module UriFacts.

Lemma hexVal_hexDigit (x : Z) : 0 <= x < 16 -> hexVal (hexDigit x) = Some x.
Proof.
  intros H. unfold hexVal, hexDigit. cmp; cbn [andb]; solve [f_equal; lia | exfalso; lia].
Qed.

Lemma tokens_pct (b : Z) (rest : jsstring) :
  0 <= b < 256 -> tokens (pct b ++ rest) = option_map (cons (Oct b)) (tokens rest).
Proof.
  intros H. unfold pct. cbn [app tokens]. rewrite Z.eqb_refl.
  rewrite !hexVal_hexDigit by divmod.
  replace (16 * (b / 16) + b mod 16) with b by divmod. reflexivity.
Qed.

Lemma tokens_pctAll (bs : list Z) (rest : jsstring) :
  Forall (fun b => 0 <= b < 256) bs ->
  tokens (pctAll bs ++ rest) = option_map (app (map Oct bs)) (tokens rest).
Proof.
  induction 1 as [|b bs Hb _ IH].
  - cbn. now destruct (tokens rest).
  - unfold pctAll in *. cbn [flat_map map].
    rewrite <- app_assoc, tokens_pct, IH by assumption.
    now destruct (tokens rest).
Qed.

Lemma utf8_bytes (cp : Z) :
  0 <= cp < 1114112 -> Forall (fun b => 0 <= b < 256) (utf8 cp).
Proof.
  intros H. unfold utf8. cmp; repeat constructor; divmod.
Qed.

(** A scalar value: a code point that is not a surrogate. *)
Definition scalar (cp : Z) : Prop :=
  0 <= cp < 1114112 /\ ~ (55296 <= cp <= 57343).

Lemma decodeTokens_utf8 (cp : Z) (ts : list tok) :
  scalar cp ->
  decodeTokens (map Oct (utf8 cp) ++ ts)
  = option_map (app (utf16 cp)) (decodeTokens ts).
Proof.
  intros [Hr Hs]. unfold utf8.
  destruct (Z.ltb_spec cp 128).
  { cbn [map app decodeTokens]. destruct (Z.ltb_spec cp 128); [|lia].
    unfold utf16. destruct (Z.ltb_spec cp 65536); [|lia].
    now destruct (decodeTokens ts). }
  destruct (Z.ltb_spec cp 2048).
  { cbn [map app decodeTokens].
    replace ((192 + cp / 64 - 192) * 64 + (128 + cp mod 64 - 128)) with cp by divmod.
    unfold isCont, validScalar.
    repeat match goal with
    | |- context [?a <? ?b] => destruct (Z.ltb_spec a b); try divmod
    | |- context [?a <=? ?b] => destruct (Z.leb_spec a b); try divmod
    end; reflexivity. }
  destruct (Z.ltb_spec cp 65536).
  { cbn [map app decodeTokens].
    replace ((224 + cp / 4096 - 224) * 4096 + (128 + (cp / 64) mod 64 - 128) * 64
             + (128 + cp mod 64 - 128)) with cp by divmod.
    unfold isCont, validScalar.
    repeat match goal with
    | |- context [?a <? ?b] => destruct (Z.ltb_spec a b); try divmod
    | |- context [?a <=? ?b] => destruct (Z.leb_spec a b); try divmod
    end; reflexivity. }
  cbn [map app decodeTokens].
  replace ((240 + cp / 262144 - 240) * 262144 + (128 + (cp / 4096) mod 64 - 128) * 4096
           + (128 + (cp / 64) mod 64 - 128) * 64 + (128 + cp mod 64 - 128))
    with cp by divmod.
  unfold isCont, validScalar.
  repeat match goal with
  | |- context [?a <? ?b] => destruct (Z.ltb_spec a b); try divmod
  | |- context [?a <=? ?b] => destruct (Z.leb_spec a b); try divmod
  end; reflexivity.
Qed.

Definition decodesTo (e s : jsstring) : Prop :=
  exists ts, tokens e = Some ts /\ decodeTokens ts = Some s.

Lemma decodesTo_decode (e s : jsstring) :
  decodesTo e s -> decodeURIComponent e = Some s.
Proof. intros (ts & H1 & H2). unfold decodeURIComponent. now rewrite H1. Qed.

Lemma decodesTo_raw (c : Z) (e s : jsstring) :
  c <> 37 -> decodesTo e s -> decodesTo (c :: e) (c :: s).
Proof.
  intros Hc (ts & H1 & H2). exists (Raw c :: ts). split.
  - cbn [tokens]. destruct (Z.eqb_spec c 37); [contradiction|]. now rewrite H1.
  - cbn [decodeTokens]. now rewrite H2.
Qed.

Lemma decodesTo_utf8 (cp : Z) (e s : jsstring) :
  scalar cp -> decodesTo e s -> decodesTo (pctAll (utf8 cp) ++ e) (utf16 cp ++ s).
Proof.
  intros Hcp (ts & H1 & H2). exists (map Oct (utf8 cp) ++ ts). split.
  - rewrite tokens_pctAll, H1; [reflexivity|]. apply utf8_bytes, Hcp.
  - now rewrite decodeTokens_utf8, H2.
Qed.

Lemma utf16_bmp (c : Z) : c < 65536 -> utf16 c = [c].
Proof. intros H. unfold utf16. now destruct (Z.ltb_spec c 65536); [|lia]. Qed.

Lemma bmp_scalar (c : Z) :
  0 <= c < 65536 -> isTrailSurrogate c = false -> isLeadSurrogate c = false ->
  scalar c.
Proof.
  unfold isTrailSurrogate, isLeadSurrogate, scalar. intros H Ht Hl.
  cmp; cbn [andb] in *; try discriminate; lia.
Qed.

Lemma pair_scalar (c d : Z) :
  isLeadSurrogate c = true -> isTrailSurrogate d = true ->
  scalar ((c - 55296) * 1024 + (d - 56320) + 65536)
  /\ utf16 ((c - 55296) * 1024 + (d - 56320) + 65536) = [c; d].
Proof.
  unfold isTrailSurrogate, isLeadSurrogate, scalar, utf16. intros Hl Ht.
  cmp; cbn [andb] in *; try discriminate; try lia.
  split; [lia|]. f_equal; [|f_equal]; divmod.
Qed.

Lemma encodeWith_cons (unescaped : Z -> bool) (c : Z) (s' : jsstring) :
  encodeWith unescaped (c :: s') =
  if unescaped c then option_map (cons c) (encodeWith unescaped s')
  else if isTrailSurrogate c then None
  else if isLeadSurrogate c then
    match s' with
    | d :: s'' =>
        if isTrailSurrogate d then
          option_map
            (app (pctAll (utf8 ((c - 55296) * 1024 + (d - 56320) + 65536))))
            (encodeWith unescaped s'')
        else None
    | [] => None
    end
  else option_map (app (pctAll (utf8 c))) (encodeWith unescaped s').
Proof. reflexivity. Qed.

Section Roundtrip.
Variable unescaped : Z -> bool.
Hypothesis percent_escaped : unescaped 37 = false.

Let P (s : jsstring) : Prop :=
  codeUnits s -> forall e, encodeWith unescaped s = Some e -> decodesTo e s.

Lemma encode_decodesTo_single (c : Z) (s : jsstring) :
  P s -> 0 <= c < 65536 -> codeUnits s ->
  isTrailSurrogate c = false -> isLeadSurrogate c = false ->
  forall e, option_map (app (pctAll (utf8 c))) (encodeWith unescaped s) = Some e ->
  decodesTo e (c :: s).
Proof.
  intros IH Hc Hs Ht Hl e He.
  destruct (encodeWith unescaped s) as [e'|] eqn:He'; cbn [option_map]; [|discriminate].
  injection He as <-. change (c :: s) with ([c] ++ s).
  rewrite <- (utf16_bmp c) by lia.
  apply decodesTo_utf8; [now apply bmp_scalar|]. now apply IH.
Qed.

Lemma encode_decodesTo_pair (s : jsstring) : P s /\ forall c, P (c :: s).
Proof.
  assert (P0 : P []).
  { intros _ e He. injection He as <-. now exists []. }
  induction s as [|d s [IH0 IH1]].
  - split; [exact P0|].
    intros c Hc e. rewrite encodeWith_cons.
    inversion_clear Hc as [|? ? Hc0 _].
    destruct (unescaped c) eqn:Hu.
    { intros He. injection He as <-. apply decodesTo_raw; [congruence|].
      now exists []. }
    destruct (isTrailSurrogate c) eqn:Ht; [discriminate|].
    destruct (isLeadSurrogate c) eqn:Hl; [discriminate|].
    apply (encode_decodesTo_single c []); auto. constructor.
  - split; [exact (IH1 d)|].
    intros c Hc e. rewrite encodeWith_cons.
    inversion Hc as [|? ? Hc0 Hc1]; subst.
    inversion Hc1 as [|? ? Hd0 Hs]; subst.
    destruct (unescaped c) eqn:Hu.
    { destruct (encodeWith unescaped (d :: s)) as [e'|] eqn:He'; cbn [option_map]; [|discriminate].
      intros He. injection He as <-. apply decodesTo_raw; [congruence|].
      now apply IH1. }
    destruct (isTrailSurrogate c) eqn:Ht; [discriminate|].
    destruct (isLeadSurrogate c) eqn:Hl.
    + destruct (isTrailSurrogate d) eqn:Htd; [|discriminate].
      destruct (encodeWith unescaped s) as [e'|] eqn:He'; cbn [option_map]; [|discriminate].
      intros He. injection He as <-.
      destruct (pair_scalar c d Hl Htd) as [Hsc Hu16].
      change (c :: d :: s) with ([c; d] ++ s). rewrite <- Hu16.
      apply decodesTo_utf8; [exact Hsc|]. now apply IH0.
    + apply (encode_decodesTo_single c (d :: s)); auto.
Qed.

(** Decoding undoes encoding, whenever encoding succeeds. *)
Lemma encode_decode (s e : jsstring) :
  codeUnits s -> encodeWith unescaped s = Some e ->
  decodeURIComponent e = Some s.
Proof.
  intros Hs He. apply decodesTo_decode.
  now apply (proj1 (encode_decodesTo_pair s)).
Qed.
End Roundtrip.

End UriFacts.

(** Evaluate the string literals of a goal. *)
Ltac eval_str :=
  repeat match goal with
  | |- context [str ?s] =>
      let v := eval vm_compute in (str s) in change (str s) with v
  end.

Module PlaceholderFacts.
Import UriFacts Html.

(** The code units [encodeURIComponent] can write. *)
Definition encodedUnit (c : Z) : Prop :=
  uriUnescaped c = true \/ c = 37 \/ 48 <= c <= 57 \/ 65 <= c <= 70.

Lemma pct_encodedUnits (b : Z) : 0 <= b < 256 -> Forall encodedUnit (pct b).
Proof.
  intros H. unfold pct.
  constructor; [right; now left|].
  constructor; [|constructor; [|constructor]];
    right; right; unfold hexDigit; cmp; divmod.
Qed.

Lemma pctAll_encodedUnits (bs : list Z) :
  Forall (fun b => 0 <= b < 256) bs -> Forall encodedUnit (pctAll bs).
Proof.
  induction 1 as [|b bs Hb _ IH]; [constructor|].
  unfold pctAll. cbn [flat_map].
  apply Forall_app. split; [now apply pct_encodedUnits|exact IH].
Qed.

Lemma encode_encodedUnits_pair (s : jsstring) :
  (codeUnits s -> forall e, encodeURIComponent s = Some e -> Forall encodedUnit e)
  /\ forall c, codeUnits (c :: s) -> forall e,
       encodeURIComponent (c :: s) = Some e -> Forall encodedUnit e.
Proof.
  unfold encodeURIComponent.
  induction s as [|d s [IH0 IH1]].
  - split.
    + intros _ e He. injection He as <-. constructor.
    + intros c Hc e. rewrite encodeWith_cons. inversion_clear Hc as [|? ? Hc0 _].
      destruct (uriUnescaped c) eqn:Hu.
      { intros He. injection He as <-. constructor; [now left|constructor]. }
      destruct (isTrailSurrogate c); [discriminate|].
      destruct (isLeadSurrogate c); [discriminate|].
      intros He. injection He as <-. rewrite app_nil_r.
      apply pctAll_encodedUnits, utf8_bytes. lia.
  - split; [exact (IH1 d)|].
    intros c Hc e. rewrite encodeWith_cons.
    inversion Hc as [|? ? Hc0 Hc1]; subst.
    inversion Hc1 as [|? ? Hd0 Hs]; subst.
    destruct (uriUnescaped c) eqn:Hu.
    { destruct (encodeWith uriUnescaped (d :: s)) as [e'|] eqn:He';
        cbn [option_map]; [|discriminate].
      intros He. injection He as <-. constructor; [now left|]. exact (IH1 d Hc1 e' He'). }
    destruct (isTrailSurrogate c) eqn:Ht; [discriminate|].
    destruct (isLeadSurrogate c) eqn:Hl.
    + destruct (isTrailSurrogate d) eqn:Htd; [|discriminate].
      destruct (encodeWith uriUnescaped s) as [e'|] eqn:He';
        cbn [option_map]; [|discriminate].
      intros He. injection He as <-. apply Forall_app. split.
      * apply pctAll_encodedUnits, utf8_bytes.
        apply (pair_scalar c d Hl Htd).
      * exact (IH0 Hs e' eq_refl).
    + destruct (encodeWith uriUnescaped (d :: s)) as [e'|] eqn:He';
        cbn [option_map]; [|discriminate].
      intros He. injection He as <-. apply Forall_app. split.
      * apply pctAll_encodedUnits, utf8_bytes. lia.
      * exact (IH1 d Hc1 e' He').
Qed.

Lemma encode_encodedUnits (s e : jsstring) :
  codeUnits s -> encodeURIComponent s = Some e -> Forall encodedUnit e.
Proof. intros Hs. now apply (proj1 (encode_encodedUnits_pair s)). Qed.

Lemma encodedUnit_neq (c : Z) : encodedUnit c -> c <> 34 /\ c <> 38.
Proof.
  unfold encodedUnit, uriUnescaped, isAlnum. intros [H|H]; [|lia].
  split; intros ->; vm_compute in H; discriminate.
Qed.

(** An encoded text is empty only for the empty text. *)
Lemma encode_nil (s : jsstring) : encodeURIComponent s = Some [] -> s = [].
Proof.
  unfold encodeURIComponent. destruct s as [|c s]; [reflexivity|].
  rewrite encodeWith_cons. unfold pctAll, utf8, pct.
  destruct (uriUnescaped c).
  { destruct (encodeWith uriUnescaped s); discriminate. }
  destruct (isTrailSurrogate c); [discriminate|].
  destruct (isLeadSurrogate c).
  - destruct s as [|d s]; [discriminate|].
    destruct (isTrailSurrogate d); [|discriminate].
    destruct (encodeWith uriUnescaped s); [|discriminate]. cbn [option_map].
    cmp; discriminate.
  - destruct (encodeWith uriUnescaped s); [|discriminate]. cbn [option_map].
    cmp; discriminate.
Qed.

(** The dataset value of an encoded text decodes to the text. *)
Lemma decodeDatasetValue_encode (s e : jsstring) :
  codeUnits s -> encodeURIComponent s = Some e ->
  decodeDatasetValue (Some e) = s.
Proof.
  intros Hs He. unfold decodeDatasetValue.
  destruct e as [|c e].
  - symmetry. now apply encode_nil.
  - rewrite (encode_decode uriUnescaped eq_refl s (c :: e) Hs He). reflexivity.
Qed.

Lemma decodeCharRefs_plain (s : jsstring) :
  Forall (fun c => c <> 38) s -> decodeCharRefs 0 s = s.
Proof.
  induction 1 as [|c s Hc _ IH]; [reflexivity|].
  cbn [decodeCharRefs]. destruct (Z.eqb_spec c 38); [contradiction|].
  now rewrite IH.
Qed.

Lemma startTag_value_double (v rest : jsstring) tg attrs nm vl :
  Forall (fun c => c <> 34) v ->
  startTag ValueDouble tg attrs (Some (nm, vl)) (v ++ 34 :: rest)
  = startTag AfterValueQuoted tg attrs (Some (nm, rev v ++ vl)) rest.
Proof.
  intros Hv. revert vl. induction Hv as [|c v Hc _ IH]; intros vl.
  - reflexivity.
  - cbn [app startTag rev]. destruct (Z.eqb_spec c 34); [contradiction|].
    rewrite IH, <- app_assoc. reflexivity.
Qed.

Lemma replaceAllChar_without (c x : Z) (by_ s : jsstring) :
  Forall (fun y => y <> x) by_ ->
  (c = x \/ Forall (fun y => y <> x) s) ->
  Forall (fun y => y <> x) (replaceAllChar c by_ s).
Proof.
  intros Hby Hs. unfold replaceAllChar.
  induction s as [|y s IH]; [constructor|].
  cbn [flat_map]. apply Forall_app. split.
  - destruct (Z.eqb_spec y c) as [->|Hyc]; [exact Hby|].
    constructor; [|constructor].
    destruct Hs as [->|Hs]; [congruence|]. now inversion Hs.
  - apply IH. destruct Hs as [->|Hs]; [now left|right]. now inversion Hs.
Qed.

Lemma escapeHtml_no_quote (s : jsstring) :
  Forall (fun y => y <> 34) (escapeHtml s).
Proof.
  unfold escapeHtml.
  apply replaceAllChar_without;
    [eval_str; repeat (constructor; [lia|]); constructor|right].
  apply replaceAllChar_without;
    [eval_str; repeat (constructor; [lia|]); constructor|now left].
Qed.

End PlaceholderFacts.

Import PlaceholderFacts UriFacts.

(** C8.  For every fence the renderer turns into a placeholder, the start
    tag it writes parses into an element whose data attribute
    ([data-mermaid] for a diagram, [data-code] otherwise) decodes to the
    text of the fence, code unit for code unit: the empty text and texts
    with quotes included. *)
Theorem placeholder_payload_roundtrip
    (toLowerCase : jsstring -> jsstring) (t : CodeToken) (html : jsstring) :
  codeUnits (text t) ->
  renderer_code toLowerCase t = Some html ->
  exists tag attrs rest,
    Html.elementStart html = Some (tag, attrs, rest) /\
    ((tag = str "div" /\
      decodeDatasetValue (Html.lookup (str "data-mermaid") attrs) = text t)
     \/
     (tag = str "pre" /\
      decodeDatasetValue (Html.lookup (str "data-code") attrs) = text t)).
Proof.
  intros Hwf. unfold renderer_code.
  destruct (encodeURIComponent (text t)) as [e|] eqn:He; [|discriminate].
  pose proof (encode_encodedUnits _ _ Hwf He) as Hunits.
  assert (Hq : Forall (fun c => c <> 34) e).
  { eapply Forall_impl; [|exact Hunits]. intros c Hc. now apply encodedUnit_neq. }
  assert (Ha : Forall (fun c => c <> 38) e).
  { eapply Forall_impl; [|exact Hunits]. intros c Hc. now apply encodedUnit_neq. }
  pose proof (decodeDatasetValue_encode _ _ Hwf He) as Hdec.
  set (cleanLang := toLowerCase _).
  destruct (JsString.eqb cleanLang (str "mermaid")); intros Hh; injection Hh as <-.
  - unfold dquote. eval_str. cbn [app].
    unfold Html.elementStart.
    cbn -[Html.lookup decodeDatasetValue Html.finish].
    rewrite startTag_value_double by exact Hq.
    cbn -[Html.lookup decodeDatasetValue Html.finish Html.decodeCharRefs rev].
    do 3 eexists. split; [reflexivity|]. left. split; [reflexivity|].
    cbn -[decodeDatasetValue Html.decodeCharRefs].
    rewrite app_nil_r, rev_involutive, (decodeCharRefs_plain e Ha). exact Hdec.
  - unfold dquote. eval_str. cbn [app].
    unfold Html.elementStart.
    cbn -[Html.lookup decodeDatasetValue Html.finish escapeHtml].
    rewrite startTag_value_double by apply escapeHtml_no_quote.
    cbn -[Html.lookup decodeDatasetValue Html.finish Html.decodeCharRefs rev
          escapeHtml].
    rewrite startTag_value_double by exact Hq.
    cbn -[Html.lookup decodeDatasetValue Html.finish Html.decodeCharRefs rev
          escapeHtml].
    do 3 eexists. split; [reflexivity|]. right. split; [reflexivity|].
    cbn -[decodeDatasetValue Html.decodeCharRefs escapeHtml].
    rewrite app_nil_r, rev_involutive, (decodeCharRefs_plain e Ha). exact Hdec.
Qed.

(** ** The slide view *)

Module SlideViewFacts.
Import SlideView.

Section Run.
Variable diagrams : nat.

(** Before the timer has fired: no render is pending and no diagram has
    been written. *)
Definition quiet (s : state) : Prop :=
  rendering s = [] /\ diagramWrites s = [].

(** After the disposer: the flag is down, the timer table is empty. *)
Definition disposed (s : state) : Prop :=
  active s = false /\ quiet s.

Lemma step_quiet (s : state) (e : event) :
  isTimerFires e = false -> quiet s -> quiet (step diagrams s e).
Proof.
  intros He [Hr Hw]. unfold quiet, diagramWrites in *.
  destruct e as [|t|i|]; try discriminate; cbn [step].
  - destruct (run s); [|now split].
    destruct (active s); cbn; now split.
  - rewrite Hr. cbn. now split.
  - cbn. now split.
Qed.

Lemma exec_quiet (tr : list event) (s : state) :
  forallb (fun e => negb (isTimerFires e)) tr = true ->
  quiet s -> quiet (exec diagrams s tr).
Proof.
  revert s. induction tr as [|e tr IH]; intros s Htr Hs; [exact Hs|].
  cbn in Htr. apply andb_true_iff in Htr as [He Htr].
  apply negb_true_iff in He. cbn [exec fold_left].
  apply IH; [exact Htr|]. now apply step_quiet.
Qed.

Lemma step_disposed (s : state) (e : event) :
  disposed s -> disposed (step diagrams s e).
Proof.
  intros (Ha & Hr & Hw). unfold disposed, quiet, diagramWrites in *.
  destruct e as [|t|i|]; cbn [step].
  - destruct (run s); [|now repeat split].
    rewrite Ha. cbn. now repeat split.
  - destruct (existsb (Nat.eqb t) (pendingTimers s)); [|now repeat split].
    rewrite Ha. cbn. now repeat split.
  - rewrite Hr. cbn. now repeat split.
  - cbn. now repeat split.
Qed.

Lemma exec_disposed (tr : list event) (s : state) :
  disposed s -> disposed (exec diagrams s tr).
Proof.
  revert s. induction tr as [|e tr IH]; intros s Hs; [exact Hs|].
  cbn [exec fold_left]. apply IH. now apply step_disposed.
Qed.

(** The timers of the table are the one the closure remembers. *)
Definition tracked (s : state) : Prop :=
  forall t, In t (pendingTimers s) -> mermaidTimer s = Some t.

Lemma removeId_In (t x : nat) (l : list nat) :
  In x (removeId t l) -> In x l /\ x <> t.
Proof.
  unfold removeId. intros H. apply filter_In in H as [H1 H2]. split; [exact H1|].
  apply negb_true_iff, Nat.eqb_neq in H2. exact H2.
Qed.

Lemma step_tracked (s : state) (e : event) :
  tracked s -> (run s = Suspended -> pendingTimers s = []) ->
  tracked (step diagrams s e)
  /\ (run (step diagrams s e) = Suspended -> pendingTimers (step diagrams s e) = []).
Proof.
  intros Ht Hp. unfold tracked in *. destruct e as [|t|i|]; cbn [step].
  - destruct (run s) eqn:Hrun; [|split; [exact Ht|intros H; congruence]].
    destruct (active s); cbn; (split; [|discriminate]).
    + intros x [<-|Hin]; [reflexivity|]. rewrite Hp in Hin by reflexivity.
      contradiction.
    + exact Ht.
  - destruct (existsb (Nat.eqb t) (pendingTimers s)); [|now split]. cbn. split.
    + intros x Hx. apply removeId_In in Hx as [Hx _]. now apply Ht.
    + intros Hrun. rewrite (Hp Hrun). reflexivity.
  - destruct (existsb (Nat.eqb i) (rendering s)); now split.
  - cbn. split.
    + intros x Hx. destruct (mermaidTimer s) as [t|] eqn:Hm.
      * apply removeId_In in Hx as [Hx Hne]. apply Ht in Hx. congruence.
      * now apply Ht.
    + intros Hrun. rewrite (Hp Hrun). now destruct (mermaidTimer s).
Qed.

Lemma exec_tracked (tr : list event) (s : state) :
  tracked s -> (run s = Suspended -> pendingTimers s = []) ->
  tracked (exec diagrams s tr).
Proof.
  revert s. induction tr as [|e tr IH]; intros s Ht Hp; [exact Ht|].
  cbn [exec fold_left].
  destruct (step_tracked s e Ht Hp) as [Ht' Hp']. now apply IH.
Qed.

Lemma dispose_clears (s : state) :
  tracked s -> pendingTimers (step diagrams s Dispose) = [].
Proof.
  intros Ht. cbn. destruct (mermaidTimer s) as [t|] eqn:Hm.
  - destruct (removeId t (pendingTimers s)) as [|x l] eqn:Hl; [reflexivity|].
    assert (Hx : In x (removeId t (pendingTimers s))) by (rewrite Hl; now left).
    apply removeId_In in Hx as [Hx Hne]. apply Ht in Hx. congruence.
  - destruct (pendingTimers s) as [|x l] eqn:Hl; [reflexivity|].
    specialize (Ht x). rewrite Hl in Ht. specialize (Ht (or_introl eq_refl)).
    congruence.
Qed.

End Run.

End SlideViewFacts.

(** C1.  In every run of the effect of [SlideRenderer]: when the disposer
    runs before the diagram timer has fired, the timer table is empty right
    after it, and whatever the event loop does afterwards, the diagram
    stage writes nothing into the subtree. *)
Theorem no_stale_diagram_render
    (diagrams : nat) (before after : list SlideView.event) :
  forallb (fun e => negb (SlideView.isTimerFires e)) before = true ->
  let disposed :=
    SlideView.step diagrams
      (SlideView.exec diagrams SlideView.start before) SlideView.Dispose in
  SlideView.pendingTimers disposed = [] /\
  SlideView.active disposed = false /\
  SlideView.diagramWrites (SlideView.exec diagrams disposed after) = [] /\
  SlideView.rendering (SlideView.exec diagrams disposed after) = [].
Proof.
  intros Hb disposed.
  assert (Hq : SlideViewFacts.quiet (SlideView.exec diagrams SlideView.start before)).
  { apply SlideViewFacts.exec_quiet; [exact Hb|]. now split. }
  assert (Ht : SlideViewFacts.tracked (SlideView.exec diagrams SlideView.start before)).
  { apply SlideViewFacts.exec_tracked; [intros t []|reflexivity]. }
  split; [now apply SlideViewFacts.dispose_clears|].
  split; [reflexivity|].
  assert (Hd : SlideViewFacts.disposed disposed).
  { split; [reflexivity|]. now apply SlideViewFacts.step_quiet. }
  destruct (SlideViewFacts.exec_disposed diagrams after disposed Hd) as (_ & Hr & Hw).
  now split.
Qed.

Lemma no_stale_diagram_render_witness :
  forallb (fun e => negb (SlideView.isTimerFires e)) [SlideView.Resume] = true /\
  SlideView.diagramWrites
    (SlideView.exec 2
       (SlideView.step 2 (SlideView.exec 2 SlideView.start [SlideView.Resume])
          SlideView.Dispose)
       [SlideView.TimerFires 1; SlideView.RenderSettles 0]) = [].
Proof.
  split; [reflexivity|].
  apply (no_stale_diagram_render 2 [SlideView.Resume]
           [SlideView.TimerFires 1; SlideView.RenderSettles 0]).
  reflexivity.
Defined.

(** ** Splitting and compiling *)

Module CompilerFacts.



Section Renderer.
Variable toLowerCase : jsstring -> jsstring.
Variable marked_parse :
  (CodeToken -> option jsstring) -> jsstring -> option jsstring.


End Renderer.

End CompilerFacts.

(** ** Numbers *)

Module NumberFacts.
Import Number.

Lemma roundHalfEven_one (p : Z) : roundHalfEven p 1 = p.
Proof. unfold roundHalfEven. now rewrite Z.div_1_r, Z.mod_1_r. Qed.

Lemma reduce_pow2 (j : nat) :
  forall fuel a, (j < fuel)%nat ->
    reduce fuel (a * 2 ^ Z.of_nat j) (Z.of_nat j) = Int a.
Proof.
  induction j as [|j IH]; intros [|f] a H; try lia.
  - cbn [reduce]. change (Z.of_nat 0 <=? 0) with true. cbv iota.
    change (2 ^ Z.of_nat 0) with 1. now rewrite Z.mul_1_r.
  - cbn [reduce]. destruct (Z.leb_spec (Z.of_nat (S j)) 0); [lia|].
    rewrite Nat2Z.inj_succ, Z.pow_succ_r by lia.
    replace (a * (2 * 2 ^ Z.of_nat j)) with (a * 2 ^ Z.of_nat j * 2) by ring.
    rewrite Z.even_mul. change (Z.even 2) with true. rewrite orb_true_r.
    rewrite Z.div_mul by lia.
    replace (Z.succ (Z.of_nat j) - 1) with (Z.of_nat j) by lia.
    apply IH. lia.
Qed.

(** An integer below [2^53] is a double. *)
Lemma roundPositive_small (a : Z) : 0 < a < 2 ^ 53 -> roundPositive a 1 = Int a.
Proof.
  intros H. unfold roundPositive, floorLog2. rewrite Z.log2_1, Z.sub_0_r.
  pose proof (Z.log2_nonneg a) as Hl0.
  destruct (Z.log2_spec a) as [Hlo Hhi]; [lia|].
  assert (Hl : Z.log2 a < 53) by (apply Z.log2_lt_pow2; lia).
  set (la := Z.log2 a) in *.
  assert (Ha : atLeastPow2 a 1 la = true).
  { unfold atLeastPow2. destruct (Z.leb_spec 0 la); [|lia].
    apply Z.leb_le. lia. }
  rewrite Ha. cbv zeta.
  rewrite (Z.max_l (la - 52) (-1074)) by lia.
  destruct (Z.leb_spec 1024 la); [lia|]. destruct (Z.eqb_spec la 1023); [lia|].
  cbn [orb andb].
  destruct (Z.leb_spec 0 (la - 52)).
  - replace (la - 52) with 0 by lia. change (2 ^ 0) with 1.
    rewrite Z.mul_1_l, roundHalfEven_one. unfold dyadic.
    change (0 <=? 0) with true. cbv iota. change (2 ^ 0) with 1.
    now rewrite Z.mul_1_r.
  - rewrite roundHalfEven_one. unfold dyadic.
    destruct (Z.leb_spec 0 (la - 52)); [lia|].
    rewrite <- (Z2Nat.id (- (la - 52))) at 2 3 by lia.
    apply reduce_pow2. lia.
Qed.

Lemma roundPositive_int (a : Z) : 0 < a <= 2 ^ 53 -> roundPositive a 1 = Int a.
Proof.
  intros H. destruct (Z.eq_dec a (2 ^ 53)) as [->|Hne].
  - vm_compute. reflexivity.
  - apply roundPositive_small. lia.
Qed.

(** The integers up to [2^53] in magnitude are doubles. *)
Lemma round_int (z : Z) : Z.abs z <= 2 ^ 53 -> round z 1 = Int z.
Proof.
  intros H. unfold round. destruct (Z.eqb_spec z 0) as [->|Hz]; [reflexivity|].
  destruct (Z.ltb_spec 0 z).
  - apply roundPositive_int. lia.
  - rewrite roundPositive_int by lia. cbn [neg]. f_equal. lia.
Qed.

Lemma add_int (a b : Z) :
  Z.abs (a + b) <= 2 ^ 53 -> add (Int a) (Int b) = Int (a + b).
Proof.
  intros H. unfold add. cbn [num den]. rewrite !Z.mul_1_r. now apply round_int.
Qed.

Lemma sub_int (a b : Z) :
  Z.abs (a - b) <= 2 ^ 53 -> sub (Int a) (Int b) = Int (a - b).
Proof.
  intros H. unfold sub. cbn [neg]. rewrite add_int; [reflexivity|].
  now replace (a + - b) with (a - b) by lia.
Qed.

Lemma ltb_int (a b : Z) : ltb (Int a) (Int b) = (a <? b).
Proof. unfold ltb. cbn [num den]. now rewrite !Z.mul_1_r. Qed.


Lemma max_int (a b : Z) : max (Int a) (Int b) = Int (Z.max a b).
Proof.
  unfold max. cbn [isNaN orb]. rewrite ltb_int.
  destruct (Z.ltb_spec a b); f_equal; lia.
Qed.

Lemma toString_int (z : Z) :
  Z.abs z <= 2 ^ 53 -> toString (Int z) = numberToString z.
Proof.
  intros H. unfold toString. now destruct (Z.leb_spec (Z.abs z) (2 ^ 53)); [|lia].
Qed.

(** On these integers the search of the specification writes all the
    digits, as [toString] does for every integer up to [2^53]. *)
Lemma generalToString_sample :
  forallb (fun z => JsString.eqb (generalToString (Int z)) (numberToString z))
    (map Z.of_nat (List.seq 0 200)
     ++ [2 ^ 53; 2 ^ 53 - 1; - 2 ^ 53; 4503599627370497; 1000000;
         123456789012; -42; 9007199254740000; 999999999999999])
  = true.
Proof. vm_compute. reflexivity. Qed.

(** Values of the arithmetic and of [String] on numbers beyond the
    integers up to [2^53]. *)
Lemma number_vectors :
  add (Int (2 ^ 53)) (Int 1) = Int (2 ^ 53) /\
  add (Int (2 ^ 53 + 2)) (Int 1) = Int (2 ^ 53 + 4) /\
  sub (Int (2 ^ 53 + 2)) (Int 1) = Int (2 ^ 53) /\
  ofInteger (2 ^ 1024) = PosInf /\
  toString (add (round 1 10) (round 2 10)) = str "0.30000000000000004" /\
  toString (add (Frac 3 1) (Int 1)) = str "2.5" /\
  toString (ofInteger (2 ^ 60)) = str "1152921504606847000" /\
  toString (ofInteger (10 ^ 21)) = str "1e+21" /\
  toString (ofInteger (2 ^ 70)) = str "1.1805916207174113e+21" /\
  toString (round 1 10000000) = str "1e-7" /\
  toString (round (-5) 4) = str "-1.25" /\
  toString (Frac 1 1074) = str "5e-324" /\
  toString (round (2 ^ 1024 - 2 ^ 971) 1) = str "1.7976931348623157e+308".
Proof. vm_compute. repeat split. Qed.

(** Values of [Number.parseInt]. *)
Lemma parseInt_vectors :
  DeepLink.parseInt10 (str "9007199254740993") = Int (2 ^ 53) /\
  DeepLink.parseInt10 (str "  -12px") = Int (-12) /\
  DeepLink.parseInt10 (str "+7.9") = Int 7 /\
  DeepLink.parseInt10 (str "px") = NaN /\
  DeepLink.parseInt10 (str "") = NaN /\
  DeepLink.parseInt10 (repeat 57 400) = PosInf.
Proof. vm_compute. repeat split. Qed.


Lemma reduce_not_nan (fuel : nat) :
  forall m k, reduce fuel m k <> NaN.
Proof.
  induction fuel as [|f IH]; intros m k; cbn [reduce]; [discriminate|].
  destruct (k <=? 0); [discriminate|]. destruct (Z.even m); [apply IH|discriminate].
Qed.

Lemma round_not_nan (a b : Z) : round a b <> NaN.
Proof.
  assert (P : forall a b, roundPositive a b <> NaN).
  { intros p q. unfold roundPositive. cbv zeta.
    match goal with |- (if ?c then _ else _) <> _ => destruct c end;
      [discriminate|].
    unfold dyadic. match goal with |- (if ?c then _ else _) <> _ => destruct c end;
      [discriminate|apply reduce_not_nan]. }
  unfold round. destruct (a =? 0); [discriminate|]. destruct (0 <? a); [apply P|].
  specialize (P (- a) b). now destruct (roundPositive (- a) b).
Qed.

Lemma add_not_nan (x : number) (z : Z) : x <> NaN -> add x (Int z) <> NaN.
Proof.
  intros H. destruct x; try contradiction; cbn [add]; try discriminate;
    apply round_not_nan.
Qed.

End NumberFacts.

(** ** Navigation and synchronisation *)

Module AppFacts.
Import Number App CompilerFacts.


Lemma clamp_fixed (z m : Z) :
  0 <= z <= m -> clamp (Int z) (Int 0) (Int m) = Int z.
Proof.
  intros H. unfold clamp, gtb. rewrite !NumberFacts.ltb_int.
  destruct (Z.ltb_spec z 0); [lia|]. now destruct (Z.ltb_spec m z); [lia|].
Qed.


Lemma onmessage_cases (clientId : jsstring) (m : number)
    (payload : option SharedMessage) (st : AppState) :
  onmessage clientId m payload st = st \/
  exists p s,
    payload = Some p /\ sourceId p <> clientId /\ state p = Some s /\
    inThemeConfig (themeId s) = true /\
    onmessage clientId m payload st
    = goToSlide m (currentSlide s)
        (setThemeId (themeId s) (setMarkdown (markdown s) st)).
Proof.
  unfold onmessage. destruct payload as [p|]; [|now left].
  destruct (JsString.eqb (sourceId p) clientId) eqn:Hsrc; [now left|].
  destruct (state p) as [s|] eqn:Hs; [|now left].
  destruct (inThemeConfig (themeId s)) eqn:Ht; [|now left].
  right. exists p, s. repeat split; try reflexivity; try assumption.
  intros Heq. apply StringFacts.eqb_eq in Heq. congruence.
Qed.





Section Rendering.
Variable toLowerCase : jsstring -> jsstring.
Variable marked_parse :
  (CodeToken -> option jsstring) -> jsstring -> option jsstring.


End Rendering.

End AppFacts.




(** C3 fails on the code: [channel.onmessage] applies states whose shape
    is not valid.  A state whose theme is a property every object
    inherits, whose slide index is not a number, or whose slide index is
    negative replaces the local text and theme. *)
Theorem remote_state_applied_without_validation
    (maxSlideIndex : Number.number) (st : App.AppState) (text : jsstring) :
  let receive := fun s =>
    App.onmessage (str "local") maxSlideIndex
      (Some {| App.sourceId := str "peer"; App.state := Some s |}) st in
  let inherited := {| App.markdown := text; App.currentSlide := Number.Int 0;
                      App.themeId := str "constructor" |} in
  let notANumber := {| App.markdown := text; App.currentSlide := Number.NaN;
                       App.themeId := str "hacker" |} in
  let negative := {| App.markdown := text; App.currentSlide := Number.Int (-1);
                     App.themeId := str "hacker" |} in
  (~ validShape inherited /\
   App.app_markdown (receive inherited) = text /\
   App.app_themeId (receive inherited) = str "constructor") /\
  (~ validShape notANumber /\
   App.app_markdown (receive notANumber) = text /\
   App.app_themeId (receive notANumber) = str "hacker" /\
   App.app_currentSlide (receive notANumber) = Number.NaN) /\
  (~ validShape negative /\
   App.app_markdown (receive negative) = text /\
   App.app_themeId (receive negative) = str "hacker").
Proof.
  cbv zeta. unfold App.onmessage.
  cbn [App.sourceId App.state App.themeId App.markdown App.currentSlide].
  assert (E0 : JsString.eqb (str "peer") (str "local") = false)
    by (vm_compute; reflexivity).
  assert (E1 : inThemeConfig (str "constructor") = true)
    by (vm_compute; reflexivity).
  assert (E2 : inThemeConfig (str "hacker") = true) by (vm_compute; reflexivity).
  rewrite E0, E1, E2. cbn [negb]. split; [|split].
  - split; [|split; reflexivity].
    intros [_ H]. vm_compute in H. discriminate H.
  - split; [|split; [reflexivity|split; [reflexivity|]]].
    + intros [(z & H & _) _]. discriminate H.
    + cbn. unfold App.clamp, Number.gtb. cbn [Number.ltb].
      now destruct maxSlideIndex.
  - split; [|split; reflexivity].
    intros [(z & H & Hz) _]. cbn in H. injection H as <-. lia.
Qed.

(** ** Code and math stages *)

Module PipelineFacts.


Lemma getAttr_lookup (name : jsstring) (attrs : list (jsstring * jsstring)) :
  getAttr name attrs = Html.lookup name attrs.
Proof. induction attrs as [|[n v] attrs IH]; cbn; [reflexivity|now rewrite IH]. Qed.

End PipelineFacts.


(** C4 fails on the code: a text node below [pre > code > span], the shape
    of highlighted code, is rewritten by the math stage, whatever the math
    engine answers. *)
Theorem math_stage_rewrites_text_inside_code
    (katexRender : jsstring -> bool -> option (list node)) :
  let line := Elem (str "SPAN") [str "line"] [] [Text (str "echo $HOME and $PATH")] in
  let block := fun l => Elem (str "PRE") [str "shiki"] [] [Elem (str "CODE") [] [] [l]] in
  enhanceMath katexRender [] (Elem (str "DIV") [str "slide-markdown"] [] [block line])
  = Elem (str "DIV") [str "slide-markdown"] []
      [block
         (Elem (str "SPAN") [str "line"] []
            [Text (str "echo ");
             Elem (str "SPAN") [str "math-inline"] []
               (match katexRender (str "HOME and") false with
                | Some rendered => rendered
                | None => [Text (str "$HOME and $")]
                end);
             Text (str "PATH")])].
Proof. vm_compute. reflexivity. Qed.

Module SeparatorFacts.

Definition allSpace (w : list Z) : Prop := Forall (fun c => isWhiteSpace c = true) w.
Definition noTerminator (w : list Z) : Prop :=
  Forall (fun c => isLineTerminator c = false) w.
Definition startsLine (b : list Z) : Prop :=
  b = [] \/ exists t r, b = t :: r /\ isLineTerminator t = true.

Lemma rep_cases {A} (ok : Z -> bool) (k : list Z -> list Z -> option A)
    (g : bool) (lo : nat) (hi : option nat) (pr po : list Z) (r : A) :
  rep ok k g lo hi pr po = Some r ->
  (lo = O /\ k pr po = Some r) \/
  (exists c po', po = c :: po' /\ ok c = true /\
     rep ok k g (Nat.pred lo) (decr hi) (c :: pr) po' = Some r).
Proof.
  destruct po as [|c po]; cbn [rep]; intros H.
  - left. destruct g, (exhausted hi), lo; try discriminate;
      destruct (k pr []); try discriminate; now split.
  - destruct g.
    + destruct (exhausted hi).
      { left. destruct lo; [now split|discriminate]. }
      destruct (ok c) eqn:Hc.
      * destruct (rep ok k true (Nat.pred lo) (decr hi) (c :: pr) po) as [x|] eqn:Hx.
        -- right. exists c, po. injection H as <-. now repeat split.
        -- left. destruct lo; [now split|discriminate].
      * left. destruct lo; [now split|discriminate].
    + destruct lo.
      * destruct (k pr (c :: po)) as [x|] eqn:Hx.
        -- left. now split.
        -- destruct (exhausted hi); [discriminate|].
           destruct (ok c) eqn:Hc; [|discriminate].
           right. exists c, po. now repeat split.
      * destruct (exhausted hi); [discriminate|].
        destruct (ok c) eqn:Hc; [|discriminate].
        right. exists c, po. now repeat split.
Qed.

Lemma rep_sound {A} (ok : Z -> bool) (k : list Z -> list Z -> option A)
    (g : bool) (po : list Z) :
  forall lo hi pr r,
    rep ok k g lo hi pr po = Some r ->
    exists taken rest,
      po = taken ++ rest /\ Forall (fun c => ok c = true) taken /\
      k (rev taken ++ pr) rest = Some r.
Proof.
  induction po as [|c po IH]; intros lo hi pr r H;
    apply rep_cases in H as [[_ H]|(c' & po' & Heq & Hc & H)].
  - exists [], []. now repeat split.
  - discriminate.
  - exists [], (c :: po). now repeat split.
  - injection Heq as <- <-.
    apply IH in H as (taken & rest & -> & Hall & Hk).
    exists (c :: taken), rest. split; [reflexivity|].
    split; [now constructor|]. cbn [rev]. now rewrite <- app_assoc.
Qed.

(** What a match of the separator pattern looks like. *)
Lemma separator_match (pr po : list Z) (r : mres) :
  match_at separatorPattern pr po = Some r ->
  exists w1 w2 rest,
    po = w1 ++ str "---" ++ w2 ++ rest /\ allSpace w1 /\ allSpace w2 /\
    startsLine pr /\ startsLine rest.
Proof.
  unfold match_at. 
  destruct (m (fl separatorPattern) (body separatorPattern) Some
              {| pre := pr; post := po; caps := repeat None (ngroups separatorPattern) |})
    as [st|] eqn:Hm; [|discriminate].
  intros _. cbn -[Z.eqb at_bol at_eol atom_ok] in Hm.
  destruct (at_bol fl_m _) eqn:Hbol; [|discriminate].
  apply rep_sound in Hm as (w1 & po1 & -> & Hw1 & Hm).
  assert (Hlit : forall c, atom_ok fl_m (Lit 45) c = true -> c = 45).
  { intros c Hc. cbn -[Z.eqb] in Hc. apply Z.eqb_eq in Hc. congruence. }
  destruct po1 as [|c1 po1]; [discriminate|].
  destruct (atom_ok fl_m (Lit 45) c1) eqn:H1; [|discriminate].
  destruct po1 as [|c2 po1]; [discriminate|].
  destruct (atom_ok fl_m (Lit 45) c2) eqn:H2; [|discriminate].
  destruct po1 as [|c3 po2]; [discriminate|].
  destruct (atom_ok fl_m (Lit 45) c3) eqn:H3; [|discriminate].
  apply Hlit in H1, H2, H3. subst c1 c2 c3.
  apply rep_sound in Hm as (w2 & rest & -> & Hw2 & Hm).
  destruct (at_eol fl_m _) eqn:Heol; [|discriminate].
  exists w1, w2, rest. split; [reflexivity|]. split; [exact Hw1|].
  split; [exact Hw2|]. split.
  - unfold at_bol in Hbol. cbn in Hbol. destruct pr as [|t pr']; [now left|].
    right. now exists t, pr'.
  - unfold at_eol in Heol. cbn in Heol. destruct rest as [|t rest']; [now left|].
    right. now exists t, rest'.
Qed.

Definition endsLine (a : list Z) : Prop :=
  a = [] \/ exists a' t, a = a' ++ [t] /\ isLineTerminator t = true.

Lemma prefix_split (ws : list Z) :
  exists w w', ws = w ++ w' /\ noTerminator w /\ startsLine w'.
Proof.
  induction ws as [|c ws (w & w' & -> & Hw & Hw')].
  - exists [], []. repeat split; [constructor|now left].
  - destruct (isLineTerminator c) eqn:Hc.
    + exists [], (c :: w ++ w'). repeat split; [constructor|].
      right. now exists c, (w ++ w').
    + exists (c :: w), w'. repeat split; [now constructor|exact Hw'].
Qed.

Lemma startsLine_rev (pr : list Z) : startsLine pr -> endsLine (rev pr).
Proof.
  intros [->|(t & r & -> & Ht)]; [now left|].
  right. exists (rev r), t. now split.
Qed.

Lemma suffix_split (ws : list Z) :
  exists w w', ws = w ++ w' /\ endsLine w /\ noTerminator w'.
Proof.
  destruct (prefix_split (rev ws)) as (u & u' & Heq & Hu & Hu').
  exists (rev u'), (rev u). repeat split.
  - rewrite <- rev_app_distr, <- Heq. now rewrite rev_involutive.
  - now apply startsLine_rev.
  - now apply Forall_rev.
Qed.

Lemma linesOf_line (mid : list Z) :
  forall cur b, noTerminator mid -> startsLine b ->
    exists rest, linesOf cur (mid ++ b) = (rev cur ++ mid) :: rest.
Proof.
  induction mid as [|c mid IH]; intros cur b Hmid Hb.
  - rewrite app_nil_r. cbn [app].
    destruct Hb as [->|(t & r & -> & Ht)].
    + now exists [].
    + cbn [linesOf]. rewrite Ht. now eexists.
  - inversion_clear Hmid as [|? ? Hc Hm]. cbn [app linesOf]. rewrite Hc.
    destruct (IH (c :: cur) b Hm Hb) as (rest & ->). exists rest.
    cbn [rev]. now rewrite <- app_assoc.
Qed.

Lemma linesOf_after (a : list Z) (t : Z) (s : list Z) :
  isLineTerminator t = true ->
  forall cur, exists ls, linesOf cur (a ++ t :: s) = ls ++ linesOf [] s.
Proof.
  intros Ht. induction a as [|c a IH]; intros cur.
  - cbn [app linesOf]. rewrite Ht. now exists [rev cur].
  - cbn [app linesOf]. destruct (isLineTerminator c).
    + destruct (IH []) as (ls & ->). now exists (rev cur :: ls).
    + apply IH.
Qed.

Lemma linesOf_In (a mid b : list Z) :
  endsLine a -> noTerminator mid -> startsLine b ->
  In mid (linesOf [] (a ++ mid ++ b)).
Proof.
  intros Ha Hmid Hb.
  destruct (linesOf_line mid [] b Hmid Hb) as (rest & Hl).
  destruct Ha as [->|(a' & t & -> & Ht)].
  - cbn [app]. rewrite Hl. now left.
  - rewrite <- app_assoc. cbn [app].
    destruct (linesOf_after a' t (mid ++ b) Ht []) as (ls & ->).
    apply in_or_app. right. rewrite Hl. now left.
Qed.

Lemma trimStart_space (w s : list Z) : allSpace w -> trimStart (w ++ s) = trimStart s.
Proof. induction 1 as [|c w Hc _ IH]; [reflexivity|]. cbn. now rewrite Hc. Qed.

Lemma trim_separator (w1 w2 : list Z) :
  allSpace w1 -> allSpace w2 -> trim (w1 ++ str "---" ++ w2) = str "---".
Proof.
  intros H1 H2. unfold trim, trimEnd. rewrite trimStart_space by exact H1.
  change (trimStart (str "---" ++ w2)) with (str "---" ++ w2).
  rewrite rev_app_distr, trimStart_space by now apply Forall_rev.
  reflexivity.
Qed.

(** Where the separator pattern matches, the text has a separator line. *)
Lemma separator_match_line (pr po : list Z) (r : mres) :
  match_at separatorPattern pr po = Some r ->
  hasSeparatorLine (rev pr ++ po) = true.
Proof.
  intros H.
  apply separator_match in H as (w1 & w2 & rest & -> & H1 & H2 & Hpr & Hrest).
  destruct (suffix_split w1) as (u & u' & -> & Hu & Hu').
  destruct (prefix_split w2) as (v & v' & -> & Hv & Hv').
  apply Forall_app in H1 as [H1 H1'], H2 as [H2 H2'].
  unfold hasSeparatorLine. apply existsb_exists.
  exists (u' ++ str "---" ++ v). split.
  - replace (rev pr ++ (u ++ u') ++ str "---" ++ (v ++ v') ++ rest)
      with ((rev pr ++ u) ++ (u' ++ str "---" ++ v) ++ (v' ++ rest))
      by (rewrite <- !app_assoc; reflexivity).
    apply linesOf_In.
    + destruct Hu as [->|(a' & t & -> & Ht)].
      * rewrite app_nil_r. now apply startsLine_rev.
      * right. exists (rev pr ++ a'), t. split; [now rewrite app_assoc|exact Ht].
    + apply Forall_app. split; [exact Hu'|].
      apply Forall_app. split; [|exact Hv].
      repeat constructor.
    + destruct Hv' as [->|(t & r' & -> & Ht)].
      * exact Hrest.
      * right. now exists t, (r' ++ rest).
  - unfold isSeparatorLine. rewrite trim_separator by assumption.
    reflexivity.
Qed.

Lemma split_loop_nomatch (p : pattern) (po : list Z) :
  forall pending pr,
    (forall a b, po = a ++ b -> match_at p (rev a ++ pr) b = None) ->
    split_loop p 0 pending pr po = [rev pending ++ po].
Proof.
  induction po as [|c po IH]; intros pending pr H; cbn [split_loop].
  - now rewrite app_nil_r.
  - pose proof (H [] (c :: po) eq_refl) as H0. cbn [rev app] in H0.
    rewrite H0, IH.
    + cbn [rev]. now rewrite <- app_assoc.
    + intros a b ->. specialize (H (c :: a) b eq_refl).
      cbn [rev] in H. now rewrite <- app_assoc in H.
Qed.

(** A text without separator line is one segment. *)
Lemma split_no_separator (s : jsstring) :
  hasSeparatorLine s = false -> split separatorPattern s = [s].
Proof.
  intros H. destruct s as [|c s]; [reflexivity|].
  unfold split. apply (split_loop_nomatch separatorPattern (c :: s) [] []).
  intros a b Heq.
  destruct (match_at separatorPattern (rev a ++ []) b) as [r|] eqn:Hm;
    [|reflexivity].
  apply separator_match_line in Hm.
  rewrite app_nil_r, rev_involutive, <- Heq in Hm. congruence.
Qed.

End SeparatorFacts.

Module NotesFacts.

Lemma replace_go_collectNote (s : jsstring) (results : list mres) :
  forall next acc st,
    replace_go collectNote s results next acc st
    = (fst (replace_go (fun _ (u : unit) => ([], u)) s results next acc tt),
       st ++ filter nonEmptyStr (map (fun r => trim (group1 r)) results)).
Proof.
  induction results as [|r results IH]; intros next acc st; cbn [replace_go].
  - cbn. now rewrite app_nil_r.
  - unfold collectNote at 1. cbn [map filter].
    destruct (trim (group1 r)) as [|c t] eqn:Ht; cbn [nonEmptyStr];
      destruct (next <=? index r)%nat; rewrite IH; try reflexivity;
      now rewrite <- app_assoc.
Qed.

Lemma replace_collectNote (p : pattern) (s : jsstring) (st : list jsstring) :
  replace collectNote p s st = (without p s, st ++ notesOf p s).
Proof. unfold replace, without, notesOf. apply replace_go_collectNote. Qed.

Definition firstOk (s : jsstring) : Prop :=
  match s with [] => True | c :: _ => isWhiteSpace c = false end.
Definition lastOk (s : jsstring) : Prop := firstOk (rev s).

Lemma trimStart_firstOk (s : jsstring) : firstOk (trimStart s).
Proof.
  induction s as [|c s IH]; cbn; [exact I|].
  destruct (isWhiteSpace c) eqn:Hc; [exact IH|exact Hc].
Qed.

Lemma trimStart_id (s : jsstring) : firstOk s -> trimStart s = s.
Proof. destruct s as [|c s]; cbn; [reflexivity|]. now intros ->. Qed.

Lemma trimStart_suffix (s : jsstring) : exists w, s = w ++ trimStart s.
Proof.
  induction s as [|c s (w & IH)]; [now exists []|]. cbn.
  destruct (isWhiteSpace c); [|now exists []].
  exists (c :: w). cbn. now rewrite <- IH.
Qed.

Lemma firstOk_app_l (x y : jsstring) : x <> [] -> firstOk (x ++ y) -> firstOk x.
Proof. destruct x; [contradiction|]. now cbn. Qed.

Lemma firstOk_app_r (x y : jsstring) : x <> [] -> firstOk x -> firstOk (x ++ y).
Proof. destruct x; [contradiction|]. now cbn. Qed.

Lemma trim_firstOk (s : jsstring) : firstOk (trim s).
Proof.
  unfold trim, trimEnd.
  destruct (trimStart_suffix (rev (trimStart s))) as (w & Hw).
  destruct (trimStart (rev (trimStart s))) as [|c u] eqn:Hu; [exact I|].
  apply (firstOk_app_l _ (rev w)).
  - cbn. now destruct (rev u).
  - rewrite <- rev_app_distr, <- Hw, rev_involutive. apply trimStart_firstOk.
Qed.

Lemma trim_lastOk (s : jsstring) : lastOk (trim s).
Proof.
  unfold lastOk, trim, trimEnd. rewrite rev_involutive. apply trimStart_firstOk.
Qed.

Lemma trim_id (s : jsstring) : firstOk s -> lastOk s -> trim s = s.
Proof.
  intros Hf Hl. unfold trim, trimEnd. rewrite (trimStart_id s Hf).
  rewrite (trimStart_id (rev s) Hl). apply rev_involutive.
Qed.

(** A piece as [collectNote] pushes it. *)
Definition piece (s : jsstring) : Prop := s <> [] /\ firstOk s /\ lastOk s.

Lemma notesOf_pieces (p : pattern) (s : jsstring) : Forall piece (notesOf p s).
Proof.
  unfold notesOf. apply Forall_forall. intros x Hx.
  apply filter_In in Hx as [Hin Hne]. apply in_map_iff in Hin as (r & <- & _).
  split; [|split; [apply trim_firstOk|apply trim_lastOk]].
  now destruct (trim (group1 r)).
Qed.

Lemma join_piece (sep : jsstring) (ps : list jsstring) :
  Forall piece ps -> ps <> [] -> piece (join sep ps).
Proof.
  induction 1 as [|x ps Hx Hps IH]; [contradiction|]. intros _.
  destruct ps as [|y ps]; [exact Hx|].
  change (join sep (x :: y :: ps)) with (x ++ sep ++ join sep (y :: ps)).
  destruct Hx as (Hne & Hf & Hl).
  destruct IH as (Hne' & Hf' & Hl'); [discriminate|].
  split; [now destruct x|]. split; [now apply firstOk_app_r|].
  unfold lastOk in *. rewrite !rev_app_distr, <- app_assoc.
  apply firstOk_app_r; [|exact Hl'].
  intros H. apply (f_equal (@rev Z)) in H. rewrite rev_involutive in H.
  contradiction.
Qed.

(** Joining pushed notes and trimming the result changes nothing. *)
Lemma trim_join (sep : jsstring) (ps : list jsstring) :
  Forall piece ps -> trim (join sep ps) = join sep ps.
Proof.
  intros H. destruct ps as [|x ps]; [reflexivity|].
  destruct (join_piece sep (x :: ps) H) as (_ & Hf & Hl); [discriminate|].
  now apply trim_id.
Qed.

Section Renderer.
Variable toLowerCase : jsstring -> jsstring.
Variable marked_parse :
  (CodeToken -> option jsstring) -> jsstring -> option jsstring.

(** [compileSlide] without its callbacks. *)
Lemma compileSlide_eq (rawSlide : jsstring) (i : nat) :
  compileSlide toLowerCase marked_parse rawSlide i
  = match marked_parse (renderer_code toLowerCase) (slideBody rawSlide) with
    | None => None
    | Some h =>
        Some {| id := Z.of_nat i;
                title := extractTitle (slideBody rawSlide) (Z.of_nat i);
                markdown := slideBody rawSlide;
                html := h;
                notes := orElse (join (str "\n\n") (slideNoteList rawSlide))
                           noNotes |}
    end.
Proof.
  unfold compileSlide, markdownToHtml. rewrite replace_collectNote.
  cbn [app]. rewrite replace_collectNote.
  fold (slideNoteList rawSlide). fold (slideBody rawSlide).
  rewrite trim_join; [reflexivity|].
  apply Forall_app. split; apply notesOf_pieces.
Qed.
End Renderer.

End NotesFacts.

(** C5, as stated, fails: a [Note:] line that precedes a notes block in
    the source comes after it in the notes. *)
Lemma notes_not_in_source_order :
  option_map (map notes)
    (parseSlides Sample.toLowerCase Sample.marked_parse
       (str "Note: first\n::: notes\nsecond\n:::"))
  = Some [str "second\n\nfirst"]
  /\ str "second\n\nfirst" <> str "first\n\nsecond".
Proof. split; [vm_compute; reflexivity|vm_compute; discriminate]. Qed.

(** C5, amended.  The notes of a slide are the notes of the block syntax,
    in source order, followed by the notes of the line syntax found in the
    text left after the blocks are removed, in source order, joined by one
    blank line; without any note they are the placeholder.  They are never
    empty. *)
Theorem notes_blocks_then_lines
    (toLowerCase : jsstring -> jsstring)
    (marked_parse : (CodeToken -> option jsstring) -> jsstring -> option jsstring)
    (rawSlide : jsstring) (index : nat) (slide : Slide) :
  compileSlide toLowerCase marked_parse rawSlide index = Some slide ->
  notes slide
  = match notesOf blockNotesPattern rawSlide
          ++ notesOf lineNotePattern (without blockNotesPattern rawSlide) with
    | [] => noNotes
    | all => join (str "\n\n") all
    end
  /\ notes slide <> [].
Proof.
  rewrite NotesFacts.compileSlide_eq.
  destruct (marked_parse _ _) as [h|]; [|discriminate].
  intros H. injection H as <-. cbn [notes]. unfold slideNoteList.
  pose proof (NotesFacts.notesOf_pieces blockNotesPattern rawSlide) as Hb.
  pose proof (NotesFacts.notesOf_pieces lineNotePattern
                (without blockNotesPattern rawSlide)) as Hl.
  pose proof (proj2 (Forall_app _ _ _) (conj Hb Hl)) as Hall.
  destruct (notesOf blockNotesPattern rawSlide
            ++ notesOf lineNotePattern (without blockNotesPattern rawSlide))
    as [|x ps] eqn:Hps.
  - split; [reflexivity|]. vm_compute. discriminate.
  - destruct (NotesFacts.join_piece (str "\n\n") (x :: ps) Hall) as (Hne & _);
      [discriminate|].
    unfold orElse. destruct (join (str "\n\n") (x :: ps)); [contradiction|].
    split; [reflexivity|discriminate].
Qed.

Lemma notes_blocks_then_lines_witness :
  match compileSlide Sample.toLowerCase Sample.marked_parse
          (str "Note: first\n::: notes\nsecond\n:::") 0 with
  | Some slide => notes slide <> []
  | None => False
  end.
Proof.
  destruct (compileSlide Sample.toLowerCase Sample.marked_parse
              (str "Note: first\n::: notes\nsecond\n:::") 0) as [slide|] eqn:H.
  - exact (proj2 (notes_blocks_then_lines _ _ _ _ _ H)).
  - vm_compute in H. discriminate H.
Defined.

(** C7.  A text without separator line compiles to the one slide made of
    the whole text; and the text [# A / --- / # B / --- / # C] compiles to
    three slides with titles A, B, C and ids 0, 1, 2. *)
Theorem separators_decide_slide_count
    (toLowerCase : jsstring -> jsstring)
    (marked_parse : (CodeToken -> option jsstring) -> jsstring -> option jsstring) :
  (forall document,
     hasSeparatorLine document = false ->
     parseSlides toLowerCase marked_parse document
     = option_map (fun slide => [slide])
         (compileSlide toLowerCase marked_parse document 0))
  /\
  (forall hA hB hC,
     marked_parse (renderer_code toLowerCase) (str "# A") = Some hA ->
     marked_parse (renderer_code toLowerCase) (str "# B") = Some hB ->
     marked_parse (renderer_code toLowerCase) (str "# C") = Some hC ->
     parseSlides toLowerCase marked_parse (str "# A\n---\n# B\n---\n# C")
     = Some [ {| id := 0; title := str "A"; markdown := str "# A";
                 html := hA; notes := noNotes |};
              {| id := 1; title := str "B"; markdown := str "# B";
                 html := hB; notes := noNotes |};
              {| id := 2; title := str "C"; markdown := str "# C";
                 html := hC; notes := noNotes |} ]).
Proof.
  split.
  - intros document H. unfold parseSlides.
    rewrite (SeparatorFacts.split_no_separator document H). cbn [compileFrom].
    now destruct (compileSlide toLowerCase marked_parse document 0).
  - intros hA hB hC HA HB HC. unfold parseSlides.
    replace (split separatorPattern (str "# A\n---\n# B\n---\n# C"))
      with [str "# A\n"; str "\n# B\n"; str "\n# C"] by (vm_compute; reflexivity).
    cbn [compileFrom]. rewrite !NotesFacts.compileSlide_eq.
    replace (slideBody (str "# A\n")) with (str "# A") by (vm_compute; reflexivity).
    replace (slideBody (str "\n# B\n")) with (str "# B") by (vm_compute; reflexivity).
    replace (slideBody (str "\n# C")) with (str "# C") by (vm_compute; reflexivity).
    rewrite HA, HB, HC. vm_compute. reflexivity.
Qed.

Lemma separators_decide_slide_count_witness :
  hasSeparatorLine (str "# Only\n- - -\ntext") = false /\
  parseSlides Sample.toLowerCase Sample.marked_parse (str "# Only\n- - -\ntext")
  = option_map (fun slide => [slide])
      (compileSlide Sample.toLowerCase Sample.marked_parse
         (str "# Only\n- - -\ntext") 0).
Proof.
  assert (H : hasSeparatorLine (str "# Only\n- - -\ntext") = false)
    by (vm_compute; reflexivity).
  split; [exact H|].
  exact (proj1 (separators_decide_slide_count Sample.toLowerCase
                  Sample.marked_parse) _ H).
Defined.

(** ** The deep-link codec *)

Module DeepLinkFacts.
Import DeepLink UriFacts.

Definition bytes (bs : list Z) : Prop := Forall (fun b => 0 <= b < 256) bs.
Definition ascii (s : jsstring) : Prop := Forall (fun c => 0 <= c < 128) s.

Lemma utf8Encode_cons (c : Z) (s' : jsstring) :
  utf8Encode (c :: s') =
  if isLeadSurrogate c then
    match s' with
    | d :: s'' =>
        if isTrailSurrogate d
        then utf8 ((c - 55296) * 1024 + (d - 56320) + 65536) ++ utf8Encode s''
        else utf8 replacement ++ utf8Encode s'
    | [] => utf8 replacement
    end
  else if isTrailSurrogate c then utf8 replacement ++ utf8Encode s'
  else utf8 c ++ utf8Encode s'.
Proof. reflexivity. Qed.

Lemma utf8_replacement_bytes : bytes (utf8 replacement).
Proof. apply utf8_bytes. unfold replacement. lia. Qed.

Lemma utf8Encode_bytes_pair (s : jsstring) :
  (codeUnits s -> bytes (utf8Encode s))
  /\ forall c, codeUnits (c :: s) -> bytes (utf8Encode (c :: s)).
Proof.
  induction s as [|d s [IH0 IH1]].
  - split; [constructor|]. intros c Hc. inversion_clear Hc as [|? ? Hc0 _].
    rewrite utf8Encode_cons.
    destruct (isLeadSurrogate c); [apply utf8_replacement_bytes|].
    destruct (isTrailSurrogate c); rewrite app_nil_r;
      [apply utf8_replacement_bytes|apply utf8_bytes; lia].
  - split; [exact (IH1 d)|]. intros c Hc.
    inversion Hc as [|? ? Hc0 Hc1]; subst.
    inversion Hc1 as [|? ? Hd0 Hs]; subst.
    rewrite utf8Encode_cons.
    destruct (isLeadSurrogate c) eqn:Hl.
    + destruct (isTrailSurrogate d) eqn:Ht; apply Forall_app; split.
      * apply utf8_bytes, (pair_scalar c d Hl Ht).
      * now apply IH0.
      * apply utf8_replacement_bytes.
      * now apply IH1.
    + destruct (isTrailSurrogate c); apply Forall_app; split;
        try apply utf8_replacement_bytes; try (now apply IH1).
      apply utf8_bytes. lia.
Qed.

Lemma utf8Encode_bytes (s : jsstring) : codeUnits s -> bytes (utf8Encode s).
Proof. apply utf8Encode_bytes_pair. Qed.

Lemma utf8Encode_ascii_cons (c : Z) (s : jsstring) :
  0 <= c < 128 -> utf8Encode (c :: s) = c :: utf8Encode s.
Proof.
  intros H. rewrite utf8Encode_cons. unfold isLeadSurrogate, isTrailSurrogate, utf8.
  cmp; cbn [andb]; try lia; reflexivity.
Qed.

Lemma utf8Encode_ascii (s : jsstring) : ascii s -> utf8Encode s = s.
Proof.
  induction 1 as [|c s Hc _ IH]; [reflexivity|].
  now rewrite utf8Encode_ascii_cons, IH.
Qed.

Lemma utf8_head_high (cp : Z) :
  128 <= cp < 1114112 -> exists b bs, utf8 cp = b :: bs /\ 128 <= b.
Proof.
  intros H. unfold utf8. cmp; try lia; eexists; eexists; (split; [reflexivity|]);
    divmod.
Qed.

Lemma utf8Encode_head_high (c : Z) (s : jsstring) :
  128 <= c < 65536 -> exists b bs, utf8Encode (c :: s) = b :: bs /\ 128 <= b.
Proof.
  intros H. rewrite utf8Encode_cons.
  assert (Hr : exists b bs, utf8 replacement = b :: bs /\ 128 <= b)
    by (apply utf8_head_high; unfold replacement; lia).
  assert (Hadd : forall cp rest, (exists b bs, utf8 cp = b :: bs /\ 128 <= b) ->
                 exists b bs, utf8 cp ++ rest = b :: bs /\ 128 <= b).
  { intros cp rest (b & bs & -> & Hb). now exists b, (bs ++ rest). }
  destruct (isLeadSurrogate c) eqn:Hl.
  - destruct s as [|d s]; [exact Hr|].
    destruct (isTrailSurrogate d) eqn:Ht; apply Hadd; [|exact Hr].
    apply utf8_head_high. destruct (pair_scalar c d Hl Ht) as [[Hs _] _].
    unfold isLeadSurrogate, isTrailSurrogate in *. cmp; cbn [andb] in *;
      try discriminate; lia.
  - destruct (isTrailSurrogate c); apply Hadd; [exact Hr|].
    apply utf8_head_high. lia.
Qed.

Lemma utf16_codeUnits (cp : Z) : 0 <= cp < 1114112 -> codeUnits (utf16 cp).
Proof.
  intros H. unfold utf16. cmp; repeat constructor; try lia; divmod.
Qed.

Lemma utf16_head_high (cp : Z) :
  128 <= cp < 1114112 -> exists u us, utf16 cp = u :: us /\ 128 <= u.
Proof.
  intros H. unfold utf16. cmp; eexists; eexists; (split; [reflexivity|]); divmod.
Qed.

(** One step of the decoder: the code units it writes and where it goes on. *)
Definition decodeStep (b : Z) (r0 units suffix : list Z) : Prop :=
  (exists pre, r0 = pre ++ suffix) /\
  utf8Decode (b :: r0) = units ++ utf8Decode suffix /\
  (0 <= b -> codeUnits units) /\
  (128 <= b -> exists u us, units = u :: us /\ 128 <= u) /\
  (b < 128 -> units = [b] /\ suffix = r0).

Lemma decodeStep_replacement (b : Z) (r0 suffix : list Z) :
  128 <= b -> (exists pre, r0 = pre ++ suffix) ->
  utf8Decode (b :: r0) = replacement :: utf8Decode suffix ->
  decodeStep b r0 [replacement] suffix.
Proof.
  intros Hb Hpre Heq. split; [exact Hpre|]. split; [exact Heq|].
  split; [intros _; repeat constructor; unfold replacement; lia|].
  split; [intros _; exists replacement, []; split; [reflexivity|unfold replacement; lia]|].
  lia.
Qed.

Lemma decodeStep_scalar (b cp : Z) (r0 suffix : list Z) :
  128 <= b -> 128 <= cp < 1114112 -> (exists pre, r0 = pre ++ suffix) ->
  utf8Decode (b :: r0) = utf16 cp ++ utf8Decode suffix ->
  decodeStep b r0 (utf16 cp) suffix.
Proof.
  intros Hb Hcp Hpre Heq. split; [exact Hpre|]. split; [exact Heq|].
  split; [intros _; apply utf16_codeUnits; lia|].
  split; [intros _; now apply utf16_head_high|]. lia.
Qed.

Lemma between_spec (lo hi b : Z) : between lo hi b = true <-> lo <= b <= hi.
Proof. unfold between. rewrite andb_true_iff, Z.leb_le, Z.leb_le. tauto. Qed.

Lemma isCont_spec (b : Z) : isCont b = true <-> 128 <= b <= 191.
Proof. unfold isCont. rewrite andb_true_iff, Z.leb_le, Z.leb_le. tauto. Qed.

Lemma utf8Decode_step (b : Z) (r0 : list Z) :
  exists units suffix, decodeStep b r0 units suffix.
Proof.
  destruct (Z.ltb_spec b 128) as [Hlow|Hhigh].
  { exists [b], r0. split; [now exists []|].
    split; [cbn [utf8Decode]; destruct (Z.ltb_spec b 128); [reflexivity|lia]|].
    split; [intros H; repeat constructor; lia|]. split; [lia|now split]. }
  assert (Hunfold : forall x, (if b <? 128 then b :: utf8Decode r0 else x) = x)
    by (intros x; destruct (Z.ltb_spec b 128); [lia|reflexivity]).
  destruct (between 194 223 b) eqn:H2.
  { apply between_spec in H2.
    destruct r0 as [|b1 r1].
    - exists [replacement], []. apply decodeStep_replacement; [lia|now exists []|].
      cbn [utf8Decode]. rewrite Hunfold.
      now rewrite (proj2 (between_spec 194 223 b) H2).
    - destruct (isCont b1) eqn:Hc1.
      + apply isCont_spec in Hc1.
        exists (utf16 ((b - 192) * 64 + (b1 - 128))), r1.
        apply decodeStep_scalar; [lia|lia|now exists [b1]|].
        cbn [utf8Decode]. rewrite Hunfold.
        rewrite (proj2 (between_spec 194 223 b) H2).
        now rewrite (proj2 (isCont_spec b1) Hc1).
      + exists [replacement], (b1 :: r1).
        apply decodeStep_replacement; [lia|now exists []|].
        cbn [utf8Decode]. rewrite Hunfold.
        rewrite (proj2 (between_spec 194 223 b) H2). now rewrite Hc1. }
  destruct (between 224 239 b) eqn:H3.
  { apply between_spec in H3.
    assert (Hhead : utf8Decode (b :: r0) = 
       (match r0 with
        | b1 :: r1 =>
            if between (if b =? 224 then 160 else 128)
                       (if b =? 237 then 159 else 191) b1
            then
              match r1 with
              | b2 :: r2 =>
                  if isCont b2
                  then utf16 ((b - 224) * 4096 + (b1 - 128) * 64 + (b2 - 128))
                         ++ utf8Decode r2
                  else replacement :: utf8Decode r1
              | [] => [replacement]
              end
            else replacement :: utf8Decode r0
        | [] => [replacement]
        end)).
    { cbn [utf8Decode]. rewrite Hunfold, H2.
      now rewrite (proj2 (between_spec 224 239 b) H3). }
    destruct r0 as [|b1 r1].
    - exists [replacement], []. apply decodeStep_replacement; [lia|now exists []|].
      exact Hhead.
    - destruct (between (if b =? 224 then 160 else 128)
                        (if b =? 237 then 159 else 191) b1) eqn:Hb1.
      + apply between_spec in Hb1.
        destruct r1 as [|b2 r2].
        * exists [replacement], [].
          apply decodeStep_replacement; [lia|now exists [b1]|]. exact Hhead.
        * destruct (isCont b2) eqn:Hc2.
          -- apply isCont_spec in Hc2.
             exists (utf16 ((b - 224) * 4096 + (b1 - 128) * 64 + (b2 - 128))), r2.
             apply decodeStep_scalar; [lia| |now exists [b1; b2]|exact Hhead].
             destruct (Z.eqb_spec b 224), (Z.eqb_spec b 237); lia.
          -- exists [replacement], (b2 :: r2).
             apply decodeStep_replacement; [lia|now exists [b1]|]. exact Hhead.
      + exists [replacement], (b1 :: r1).
        apply decodeStep_replacement; [lia|now exists []|]. exact Hhead. }
  destruct (between 240 244 b) eqn:H4.
  { apply between_spec in H4.
    assert (Hhead : utf8Decode (b :: r0) = 
       (match r0 with
        | b1 :: r1 =>
            if between (if b =? 240 then 144 else 128)
                       (if b =? 244 then 143 else 191) b1
            then
              match r1 with
              | b2 :: r2 =>
                  if isCont b2 then
                    match r2 with
                    | b3 :: r3 =>
                        if isCont b3
                        then utf16 ((b - 240) * 262144 + (b1 - 128) * 4096
                                    + (b2 - 128) * 64 + (b3 - 128))
                               ++ utf8Decode r3
                        else replacement :: utf8Decode r2
                    | [] => [replacement]
                    end
                  else replacement :: utf8Decode r1
              | [] => [replacement]
              end
            else replacement :: utf8Decode r0
        | [] => [replacement]
        end)).
    { cbn [utf8Decode]. rewrite Hunfold, H2, H3.
      now rewrite (proj2 (between_spec 240 244 b) H4). }
    destruct r0 as [|b1 r1].
    - exists [replacement], []. apply decodeStep_replacement; [lia|now exists []|].
      exact Hhead.
    - destruct (between (if b =? 240 then 144 else 128)
                        (if b =? 244 then 143 else 191) b1) eqn:Hb1.
      + apply between_spec in Hb1.
        destruct r1 as [|b2 r2].
        * exists [replacement], [].
          apply decodeStep_replacement; [lia|now exists [b1]|]. exact Hhead.
        * destruct (isCont b2) eqn:Hc2.
          -- apply isCont_spec in Hc2.
             destruct r2 as [|b3 r3].
             ++ exists [replacement], [].
                apply decodeStep_replacement; [lia|now exists [b1; b2]|]. exact Hhead.
             ++ destruct (isCont b3) eqn:Hc3.
                ** apply isCont_spec in Hc3.
                   exists (utf16 ((b - 240) * 262144 + (b1 - 128) * 4096
                                  + (b2 - 128) * 64 + (b3 - 128))), r3.
                   apply decodeStep_scalar;
                     [lia| |now exists [b1; b2; b3]|exact Hhead].
                   destruct (Z.eqb_spec b 240), (Z.eqb_spec b 244); lia.
                ** exists [replacement], (b3 :: r3).
                   apply decodeStep_replacement; [lia|now exists [b1; b2]|].
                   exact Hhead.
          -- exists [replacement], (b2 :: r2).
             apply decodeStep_replacement; [lia|now exists [b1]|]. exact Hhead.
      + exists [replacement], (b1 :: r1).
        apply decodeStep_replacement; [lia|now exists []|]. exact Hhead. }
  exists [replacement], r0. apply decodeStep_replacement; [lia|now exists []|].
  cbn [utf8Decode]. now rewrite Hunfold, H2, H3, H4.
Qed.

Lemma utf8Decode_codeUnits (bs : list Z) : bytes bs -> codeUnits (utf8Decode bs).
Proof.
  remember (length bs) as n eqn:Hn. revert bs Hn.
  induction n as [n IH] using lt_wf_ind. intros bs Hn Hb.
  destruct bs as [|b r0]; [constructor|].
  inversion_clear Hb as [|? ? Hb0 Hr0].
  destruct (utf8Decode_step b r0) as (units & suffix & (pre & Hpre) & -> & Hu & _).
  apply Forall_app. split; [apply Hu; lia|].
  apply (IH (length suffix)); [|reflexivity|].
  - subst. cbn [length]. rewrite length_app. lia.
  - subst r0. now apply Forall_app in Hr0.
Qed.

Lemma utf8Decode_ascii_cons (b : Z) (r : list Z) :
  b < 128 -> utf8Decode (b :: r) = b :: utf8Decode r.
Proof. intros H. cbn [utf8Decode]. destruct (Z.ltb_spec b 128); [reflexivity|lia]. Qed.

Lemma utf8Decode_ascii (s : list Z) : ascii s -> utf8Decode s = s.
Proof.
  induction 1 as [|c s Hc _ IH]; [reflexivity|].
  rewrite utf8Decode_ascii_cons, IH by lia. reflexivity.
Qed.

Lemma utf8Decode_head_high (b : Z) (r : list Z) :
  128 <= b -> exists u us, utf8Decode (b :: r) = u :: us /\ 128 <= u.
Proof.
  intros H.
  destruct (utf8Decode_step b r) as (units & suffix & _ & -> & _ & Hh & _).
  destruct (Hh H) as (u & us & -> & Hu). now exists u, (us ++ utf8Decode suffix).
Qed.

(** Encoding a string to UTF-8 and decoding it back. *)
Definition recode (s : jsstring) : jsstring := utf8Decode (utf8Encode s).

Lemma recode_ascii (s : jsstring) : ascii s -> recode s = s.
Proof.
  intros H. unfold recode. rewrite (utf8Encode_ascii s H). now apply utf8Decode_ascii.
Qed.

Lemma recode_codeUnits (s : jsstring) : codeUnits s -> codeUnits (recode s).
Proof. intros H. now apply utf8Decode_codeUnits, utf8Encode_bytes. Qed.

(** Only an ASCII string recodes to an ASCII string, and then to itself. *)
Lemma recode_eq_ascii (n : jsstring) :
  codeUnits n -> forall k, ascii k -> recode n = k -> n = k.
Proof.
  unfold recode. induction 1 as [|c n Hc _ IH]; intros k Hk Heq.
  - now cbn in Heq.
  - destruct (Z.ltb_spec c 128) as [Hlow|Hhigh].
    + rewrite utf8Encode_ascii_cons, utf8Decode_ascii_cons in Heq by lia.
      destruct k as [|c' k]; [discriminate|]. injection Heq as <- Heq.
      inversion_clear Hk. f_equal. now apply IH.
    + destruct (utf8Encode_head_high c n) as (b & bs & Hbs & Hb); [lia|].
      rewrite Hbs in Heq.
      destruct (utf8Decode_head_high b bs Hb) as (u & us & Hus & Hu).
      rewrite Hus in Heq. subst k. inversion_clear Hk. lia.
Qed.

(** *** Form serialization *)

(** The code units the serializer writes for a name or a value. *)
Definition formUnit (c : Z) : Prop := formSafe c = true \/ c = 43 \/ c = 37.

Lemma formSafe_range (c : Z) : formSafe c = true -> 42 <= c <= 122.
Proof.
  unfold formSafe, isAlnum. intros H.
  repeat match type of H with
  | (_ || _) = true => apply orb_true_iff in H as [H|H]
  | (_ && _) = true => apply andb_true_iff in H as [H ?]
  end; cmp; try discriminate; lia.
Qed.

Lemma formSafe_hexDigit (x : Z) : 0 <= x < 16 -> formSafe (hexDigit x) = true.
Proof.
  intros H. assert (Hx : x = 0 \/ x = 1 \/ x = 2 \/ x = 3 \/ x = 4 \/ x = 5 \/
    x = 6 \/ x = 7 \/ x = 8 \/ x = 9 \/ x = 10 \/ x = 11 \/ x = 12 \/ x = 13 \/
    x = 14 \/ x = 15) by lia.
  repeat destruct Hx as [->|Hx]; try subst x; reflexivity.
Qed.

Lemma serializeByte_units (b : Z) : 0 <= b < 256 -> Forall formUnit (serializeByte b).
Proof.
  intros H. unfold serializeByte.
  destruct (Z.eqb_spec b 32); [constructor; [right; now left|constructor]|].
  destruct (formSafe b) eqn:Hs; [constructor; [now left|constructor]|].
  unfold pct. constructor; [right; now right|].
  constructor; [|constructor; [|constructor]];
    left; apply formSafe_hexDigit; divmod.
Qed.

Lemma serializeBytes_units (bs : list Z) : bytes bs -> Forall formUnit (serializeBytes bs).
Proof.
  induction 1 as [|b bs Hb _ IH]; [constructor|].
  unfold serializeBytes. cbn [flat_map]. apply Forall_app.
  split; [now apply serializeByte_units|exact IH].
Qed.

Lemma formUnit_range (c : Z) : formUnit c -> 37 <= c <= 122.
Proof. intros [H|[->| ->]]; [apply formSafe_range in H|..]; lia. Qed.

Lemma formUnit_neq (c : Z) : formUnit c -> c <> 38 /\ c <> 61 /\ c <> 63.
Proof.
  intros [H|[->| ->]]; [|lia..].
  repeat split; intros ->; vm_compute in H; discriminate.
Qed.

Lemma percentDecode_plain (c : Z) (s : list Z) :
  c <> 37 -> percentDecode (c :: s) = c :: percentDecode s.
Proof. intros H. cbn [percentDecode]. now destruct (Z.eqb_spec c 37). Qed.

Lemma decode_serializeByte (b : Z) (rest : list Z) :
  0 <= b < 256 ->
  percentDecode (plusToSpace (serializeByte b ++ rest))
  = b :: percentDecode (plusToSpace rest).
Proof.
  intros H. unfold serializeByte, plusToSpace.
  destruct (Z.eqb_spec b 32) as [->|Hb].
  { reflexivity. }
  destruct (formSafe b) eqn:Hs.
  - cbn [app map]. apply formSafe_range in Hs as Hr.
    destruct (Z.eqb_spec b 43) as [->|_]; [discriminate Hs|].
    apply percentDecode_plain.
    intros ->. discriminate Hs.
  - unfold pct. cbn [app map].
    pose proof (formSafe_hexDigit (b / 16) ltac:(divmod)) as H1.
    pose proof (formSafe_hexDigit (b mod 16) ltac:(divmod)) as H2.
    destruct (Z.eqb_spec (hexDigit (b / 16)) 43) as [E|_];
      [rewrite E in H1; discriminate H1|].
    destruct (Z.eqb_spec (hexDigit (b mod 16)) 43) as [E|_];
      [rewrite E in H2; discriminate H2|].
    cbn [percentDecode Z.eqb Pos.eqb].
    rewrite !hexVal_hexDigit by divmod.
    f_equal. divmod.
Qed.

Lemma decode_serializeBytes (bs : list Z) :
  bytes bs -> percentDecode (plusToSpace (serializeBytes bs)) = bs.
Proof.
  induction 1 as [|b bs Hb _ IH]; [reflexivity|].
  unfold serializeBytes. cbn [flat_map].
  rewrite decode_serializeByte by exact Hb. f_equal. exact IH.
Qed.

End DeepLinkFacts.

Module FormFacts.
Import DeepLink UriFacts DeepLinkFacts.

Definition wfPair (nv : jsstring * jsstring) : Prop :=
  codeUnits (fst nv) /\ codeUnits (snd nv).
Definition wfParams (l : list (jsstring * jsstring)) : Prop := Forall wfPair l.

Definition recodePair (nv : jsstring * jsstring) : jsstring * jsstring :=
  (recode (fst nv), recode (snd nv)).

(** The code units of a serialized parameter list. *)
Definition urlUnit (c : Z) : Prop := formUnit c \/ c = 61 \/ c = 38.

Lemma cutAtEq_app (x v : list Z) :
  Forall (fun c => c <> 61) x ->
  forall cur, cutAtEq cur (x ++ 61 :: v) = (rev cur ++ x, v).
Proof.
  induction 1 as [|c x Hc _ IH]; intros cur; cbn [app cutAtEq].
  - now rewrite app_nil_r.
  - destruct (Z.eqb_spec c 61); [contradiction|]. rewrite IH. cbn [rev].
    now rewrite <- app_assoc.
Qed.

Lemma serialized_no_eq (bs : list Z) :
  bytes bs -> Forall (fun c => c <> 61) (serializeBytes bs).
Proof.
  intros H. eapply Forall_impl; [|apply serializeBytes_units, H].
  intros c Hc. apply formUnit_neq in Hc. tauto.
Qed.

Lemma parsePair_serializePair (nv : jsstring * jsstring) :
  wfPair nv -> parsePair (serializePair nv) = recodePair nv.
Proof.
  intros [Hn Hv]. unfold parsePair, serializePair. cbn [app].
  rewrite (cutAtEq_app _ _ (serialized_no_eq _ (utf8Encode_bytes _ Hn)) []).
  cbn [rev app].
  rewrite !decode_serializeBytes by now apply utf8Encode_bytes.
  reflexivity.
Qed.

Lemma serializePair_units (nv : jsstring * jsstring) :
  wfPair nv ->
  Forall (fun c => formUnit c \/ c = 61) (serializePair nv)
  /\ Forall (fun c => c <> 38) (serializePair nv)
  /\ nonEmpty (serializePair nv) = true.
Proof.
  intros [Hn Hv]. unfold serializePair.
  pose proof (serializeBytes_units _ (utf8Encode_bytes _ Hn)) as Un.
  pose proof (serializeBytes_units _ (utf8Encode_bytes _ Hv)) as Uv.
  assert (H : Forall (fun c => formUnit c \/ c = 61)
                (serializeBytes (utf8Encode (fst nv)) ++ [61]
                 ++ serializeBytes (utf8Encode (snd nv)))).
  { apply Forall_app. split; [eapply Forall_impl; [|exact Un]; now left|].
    constructor; [now right|]. eapply Forall_impl; [|exact Uv]. now left. }
  split; [exact H|]. split.
  - eapply Forall_impl; [|exact H]. intros c [Hc| ->]; [|lia].
    apply formUnit_neq in Hc. tauto.
  - now destruct (serializeBytes (utf8Encode (fst nv))).
Qed.

Lemma splitOn_app (sep : Z) (x rest : list Z) :
  Forall (fun c => c <> sep) x ->
  forall cur, splitOn sep cur (x ++ rest) = splitOn sep (rev x ++ cur) rest.
Proof.
  induction 1 as [|c x Hc _ IH]; intros cur; [reflexivity|].
  cbn [app splitOn]. destruct (Z.eqb_spec c sep); [contradiction|].
  rewrite IH. cbn [rev]. now rewrite <- app_assoc.
Qed.

Lemma splitOn_join (p : list Z) (ps : list (list Z)) :
  Forall (Forall (fun c => c <> 38)) (p :: ps) ->
  splitOn 38 [] (join [38] (p :: ps)) = p :: ps.
Proof.
  revert p. induction ps as [|q qs IH]; intros p H.
  - inversion_clear H as [|? ? Hp _]. cbn [join].
    rewrite <- (app_nil_r p) at 1. rewrite splitOn_app by exact Hp.
    cbn [splitOn]. now rewrite app_nil_r, rev_involutive.
  - inversion_clear H as [|? ? Hp Hq].
    change (join [38] (p :: q :: qs)) with (p ++ [38] ++ join [38] (q :: qs)).
    rewrite splitOn_app by exact Hp. cbn [app splitOn Z.eqb Pos.eqb].
    rewrite app_nil_r, rev_involutive. f_equal. now apply IH.
Qed.

Lemma toString_units (l : list (jsstring * jsstring)) :
  wfParams l -> Forall urlUnit (toString l).
Proof.
  unfold toString. intros Hwf. unfold wfParams in Hwf.
  induction Hwf as [|nv l Hnv Hl IH]; [constructor|].
  assert (Hp : Forall urlUnit (serializePair nv)).
  { eapply Forall_impl; [|exact (proj1 (serializePair_units nv Hnv))].
    intros c [Hc| ->]; [now left|right; now left]. }
  destruct l as [|nv' l']; [exact Hp|].
  change (join [38] (map serializePair (nv :: nv' :: l')))
    with (serializePair nv ++ [38] ++ join [38] (map serializePair (nv' :: l'))).
  apply Forall_app. split; [exact Hp|]. constructor; [right; now right|exact IH].
Qed.

Lemma urlUnit_range (c : Z) : urlUnit c -> 37 <= c <= 122.
Proof. intros [H|[->| ->]]; [now apply formUnit_range|lia..]. Qed.

Lemma urlUnit_ascii (s : jsstring) : Forall urlUnit s -> ascii s.
Proof.
  intros H. eapply Forall_impl; [|exact H]. intros c Hc.
  apply urlUnit_range in Hc. lia.
Qed.

Lemma filter_all {A} (f : A -> bool) (l : list A) :
  Forall (fun x => f x = true) l -> filter f l = l.
Proof. induction 1 as [|x l Hx _ IH]; cbn; [reflexivity|]. now rewrite Hx, IH. Qed.

(** Parsing a serialized list gives the list back, up to recoding. *)
Lemma parse_toString (l : list (jsstring * jsstring)) :
  wfParams l -> parseUrlencoded (toString l) = map recodePair l.
Proof.
  intros Hl. unfold parseUrlencoded.
  rewrite (utf8Encode_ascii _ (urlUnit_ascii _ (toString_units l Hl))).
  destruct l as [|nv l]; [reflexivity|]. unfold toString.
  assert (H38 : Forall (Forall (fun c => c <> 38)) (map serializePair (nv :: l))).
  { apply Forall_map. eapply Forall_impl; [|exact Hl].
    intros x Hx. exact (proj1 (proj2 (serializePair_units x Hx))). }
  assert (Hne : Forall (fun x => nonEmpty x = true) (map serializePair (nv :: l))).
  { apply Forall_map. eapply Forall_impl; [|exact Hl].
    intros x Hx. exact (proj2 (proj2 (serializePair_units x Hx))). }
  cbn [map] in H38 |- *. unfold jsstring in *. rewrite (splitOn_join _ _ H38).
  cbn [map] in Hne. rewrite (filter_all _ _ Hne).
  change (map parsePair (map serializePair (nv :: l)) = map recodePair (nv :: l)).
  rewrite map_map. apply map_ext_in. intros x Hx.
  apply parsePair_serializePair. exact (proj1 (Forall_forall _ _) Hl x Hx).
Qed.

Lemma URLSearchParams_toString (l : list (jsstring * jsstring)) :
  wfParams l -> URLSearchParams (toString l) = map recodePair l.
Proof.
  intros Hl. rewrite <- (parse_toString l Hl). unfold URLSearchParams.
  pose proof (toString_units l Hl) as Hu.
  destruct (toString l) as [|c s]; [reflexivity|].
  inversion_clear Hu as [|? ? Hc _].
  destruct (Z.eqb_spec c 63) as [->|_]; [|reflexivity].
  destruct Hc as [Hc|[Hc|Hc]]; [|lia..].
  apply formUnit_neq in Hc. lia.
Qed.

(** *** The fragment *)

Lemma dropTrailingC0_id (s : jsstring) :
  Forall (fun c => isC0OrSpace c = false) s -> dropTrailingC0 s = s.
Proof.
  induction 1 as [|c s Hc _ IH]; [reflexivity|].
  cbn [dropTrailingC0]. rewrite IH, Hc. now destruct s.
Qed.

Lemma flat_map_id (f : Z -> list Z) (s : list Z) :
  Forall (fun c => f c = [c]) s -> flat_map f s = s.
Proof. induction 1 as [|c s Hc _ IH]; cbn; [reflexivity|]. now rewrite Hc, IH. Qed.

Lemma urlUnit_plain (c : Z) :
  urlUnit c ->
  isC0OrSpace c = false /\ isTabOrNewline c = false /\ fragmentEscaped c = false.
Proof.
  intros H. pose proof (urlUnit_range c H) as Hr.
  assert (Hne : c <> 60 /\ c <> 62 /\ c <> 96).
  { destruct H as [[H|[->| ->]]|[->| ->]]; try lia.
    repeat split; intros ->; vm_compute in H; discriminate. }
  unfold isC0OrSpace, isTabOrNewline, fragmentEscaped.
  repeat split; cmp; cbn [andb orb]; try reflexivity; lia.
Qed.

Lemma urlFragment_id (s : jsstring) : Forall urlUnit s -> urlFragment s = s.
Proof.
  intros H. unfold urlFragment.
  rewrite dropTrailingC0_id
    by (eapply Forall_impl; [|exact H]; intros c Hc; apply (urlUnit_plain c Hc)).
  rewrite filter_all
    by (eapply Forall_impl; [|exact H]; intros c Hc;
        now rewrite (proj1 (proj2 (urlUnit_plain c Hc)))).
  rewrite (utf8Encode_ascii _ (urlUnit_ascii _ H)).
  apply flat_map_id. eapply Forall_impl; [|exact H]. intros c Hc.
  now rewrite (proj2 (proj2 (urlUnit_plain c Hc))).
Qed.

(** *** Lookup *)

Lemma eqb_neq (a b : jsstring) : JsString.eqb a b = false <-> a <> b.
Proof.
  split.
  - intros H E. apply StringFacts.eqb_eq in E. congruence.
  - intros H. destruct (JsString.eqb a b) eqn:E; [|reflexivity].
    apply StringFacts.eqb_eq in E. contradiction.
Qed.

Lemma get_recode (k : jsstring) (l : list (jsstring * jsstring)) :
  wfParams l -> ascii k ->
  get k (map recodePair l) = option_map recode (get k l).
Proof.
  intros Hl Hk. unfold wfParams in Hl.
  induction Hl as [|[n v] l [Hn Hv] _ IH]; [reflexivity|].
  cbn [map get recodePair fst snd]. cbn [fst] in Hn.
  destruct (JsString.eqb n k) eqn:E.
  - apply StringFacts.eqb_eq in E. subst n.
    rewrite (recode_ascii k Hk), StringFacts.eqb_refl. reflexivity.
  - destruct (JsString.eqb (recode n) k) eqn:E'; [|exact IH].
    apply StringFacts.eqb_eq in E'. apply (recode_eq_ascii n Hn k Hk) in E'.
    apply eqb_neq in E. contradiction.
Qed.

Lemma get_set_same (k v : jsstring) (l : list (jsstring * jsstring)) :
  get k (set k v l) = Some v.
Proof.
  induction l as [|[n w] l IH]; cbn [set get].
  - now rewrite StringFacts.eqb_refl.
  - destruct (JsString.eqb n k) eqn:E; cbn [get]; rewrite E; [reflexivity|exact IH].
Qed.

Lemma get_delete_other (k k' : jsstring) (l : list (jsstring * jsstring)) :
  k <> k' -> get k (delete k' l) = get k l.
Proof.
  intros H. induction l as [|[n w] l IH]; [reflexivity|].
  unfold delete in *. cbn [filter fst get].
  destruct (JsString.eqb n k') eqn:E; cbn [negb get].
  - apply StringFacts.eqb_eq in E. subst n.
    apply not_eq_sym, eqb_neq in H. now rewrite H.
  - now rewrite IH.
Qed.


Lemma get_set_other (k k' v : jsstring) (l : list (jsstring * jsstring)) :
  k <> k' -> get k (set k' v l) = get k l.
Proof.
  intros H. induction l as [|[n w] l IH]; cbn [set get].
  - apply not_eq_sym, eqb_neq in H. now rewrite H.
  - destruct (JsString.eqb n k') eqn:E; cbn [get].
    + apply StringFacts.eqb_eq in E. subst n.
      pose proof (proj2 (eqb_neq k' k) (not_eq_sym H)) as H'. rewrite H'.
      now apply get_delete_other.
    + now rewrite IH.
Qed.

Lemma delete_wf (k : jsstring) (l : list (jsstring * jsstring)) :
  wfParams l -> wfParams (delete k l).
Proof.
  intros H. apply Forall_forall. intros x Hx. apply filter_In in Hx as [Hx _].
  exact (proj1 (Forall_forall _ _) H x Hx).
Qed.

Lemma set_wf (k v : jsstring) (l : list (jsstring * jsstring)) :
  codeUnits k -> codeUnits v -> wfParams l -> wfParams (set k v l).
Proof.
  intros Hk Hv Hwf. unfold wfParams in *.
  induction Hwf as [|[n w] l [Hn Hw] Hl IH]; cbn [set].
  - repeat constructor; assumption.
  - cbn [fst snd] in Hn, Hw. destruct (JsString.eqb n k).
    + constructor; [now split|now apply delete_wf].
    + constructor; [now split|exact IH].
Qed.

Lemma set_nonempty (k v : jsstring) (l : list (jsstring * jsstring)) :
  set k v l <> [].
Proof. destruct l as [|[n w] l]; cbn; [|destruct (JsString.eqb n k)]; discriminate. Qed.

End FormFacts.

Module CodecFacts.
Import DeepLink UriFacts DeepLinkFacts FormFacts.

(** *** What parsing returns *)

Lemma splitOn_bytes (sep : Z) (s : list Z) :
  bytes s -> forall cur, bytes cur -> Forall bytes (splitOn sep cur s).
Proof.
  induction 1 as [|c s Hc _ IH]; intros cur Hcur; cbn [splitOn].
  - constructor; [now apply Forall_rev|constructor].
  - destruct (c =? sep).
    + constructor; [now apply Forall_rev|]. apply IH. constructor.
    + apply IH. now constructor.
Qed.

Lemma cutAtEq_bytes (s : list Z) :
  bytes s -> forall cur, bytes cur ->
  bytes (fst (cutAtEq cur s)) /\ bytes (snd (cutAtEq cur s)).
Proof.
  induction 1 as [|c s Hc Hs IH]; intros cur Hcur; cbn [cutAtEq].
  - split; [now apply Forall_rev|constructor].
  - destruct (c =? 61).
    + split; [now apply Forall_rev|exact Hs].
    + apply IH. now constructor.
Qed.

Lemma plusToSpace_bytes (s : list Z) : bytes s -> bytes (plusToSpace s).
Proof.
  intros H. apply Forall_map. eapply Forall_impl; [|exact H].
  intros c Hc. cbv beta in *. destruct (c =? 43); lia.
Qed.

Lemma hexVal_range (c x : Z) : hexVal c = Some x -> 0 <= x < 16.
Proof.
  unfold hexVal. intros E. cmp; cbn [andb] in E; try discriminate;
    injection E as <-; lia.
Qed.

Lemma percentDecode_bytes (s : list Z) : bytes s -> bytes (percentDecode s).
Proof.
  remember (length s) as n eqn:Hn. revert s Hn.
  induction n as [n IH] using lt_wf_ind. intros s Hn Hs.
  destruct s as [|c s]; [constructor|].
  inversion_clear Hs as [|? ? Hc Hs'].
  assert (Hrest : bytes (c :: percentDecode s)).
  { constructor; [exact Hc|]. apply (IH (length s)); subst; cbn; auto; lia. }
  cbn [percentDecode]. destruct (c =? 37); [|exact Hrest].
  destruct s as [|h [|l s'']]; try exact Hrest.
  destruct (hexVal h) as [x|] eqn:Hx; [|exact Hrest].
  destruct (hexVal l) as [y|] eqn:Hy; [|exact Hrest].
  apply hexVal_range in Hx, Hy. constructor; [lia|].
  apply (IH (length s'')); [subst; cbn; lia|reflexivity|].
  inversion_clear Hs' as [|? ? _ Hs2]. now inversion_clear Hs2.
Qed.

Lemma parsePair_wf (piece : list Z) : bytes piece -> wfPair (parsePair piece).
Proof.
  intros H. unfold parsePair.
  destruct (cutAtEq_bytes piece H [] (Forall_nil _)) as [Hn Hv].
  destruct (cutAtEq [] piece) as [n v]. cbn [fst snd] in *.
  split; cbn [fst snd];
    apply utf8Decode_codeUnits, percentDecode_bytes, plusToSpace_bytes; assumption.
Qed.

Lemma parseUrlencoded_wf (s : jsstring) : codeUnits s -> wfParams (parseUrlencoded s).
Proof.
  intros H. unfold parseUrlencoded, wfParams. apply Forall_map.
  pose proof (splitOn_bytes 38 _ (utf8Encode_bytes s H) [] (Forall_nil _)) as Hp.
  apply Forall_forall. intros x Hx. apply filter_In in Hx as [Hx _].
  apply parsePair_wf. exact (proj1 (Forall_forall _ _) Hp x Hx).
Qed.

Lemma URLSearchParams_wf (s : jsstring) : codeUnits s -> wfParams (URLSearchParams s).
Proof.
  intros H. unfold URLSearchParams. destruct s as [|c s].
  - now apply parseUrlencoded_wf.
  - destruct (c =? 63); apply parseUrlencoded_wf; [now inversion_clear H|exact H].
Qed.

Lemma stripHash_codeUnits (s : jsstring) : codeUnits s -> codeUnits (stripHash s).
Proof.
  intros H. unfold stripHash. destruct s as [|c s]; [constructor|].
  destruct (c =? 35); [now inversion_clear H|exact H].
Qed.

(** *** Numbers *)

Fixpoint horner (a : Z) (ds : list Z) : Z :=
  match ds with
  | [] => a
  | d :: ds' => horner (10 * a + (d - 48)) ds'
  end.

Definition digits (ds : list Z) : Prop := Forall (fun d => 48 <= d <= 57) ds.

Lemma horner_app (ds es : list Z) (a : Z) :
  horner a (ds ++ es) = horner (horner a ds) es.
Proof. revert a. induction ds as [|d ds IH]; intros a; cbn; [reflexivity|apply IH]. Qed.

Lemma digitsOf_spec (fuel : nat) :
  forall n acc, 0 <= n < 2 ^ Z.of_nat (S fuel) ->
    exists ds, digitsOf (S fuel) n acc = ds ++ acc /\ ds <> [] /\ digits ds /\
               forall a, horner a ds = a * 10 ^ Z.of_nat (length ds) + n.
Proof.
  induction fuel as [|f IH]; intros n acc Hn;
    rewrite Nat2Z.inj_succ, Z.pow_succ_r in Hn by lia;
    cbn [digitsOf]; destruct (Z.ltb_spec n 10) as [Hsmall|Hbig].
  - exists [48 + n mod 10]. split; [reflexivity|]. split; [discriminate|].
    split; [constructor; [divmod|constructor]|]. intros a. cbn [horner length].
    change (Z.of_nat 1) with 1. rewrite Z.pow_1_r. divmod.
  - change (Z.of_nat 0) with 0 in Hn. rewrite Z.pow_0_r in Hn. lia.
  - exists [48 + n mod 10]. split; [reflexivity|]. split; [discriminate|].
    split; [constructor; [divmod|constructor]|]. intros a. cbn [horner length].
    change (Z.of_nat 1) with 1. rewrite Z.pow_1_r. divmod.
  - assert (Hq : 0 <= n / 10 < 2 ^ Z.of_nat (S f)) by divmod.
    destruct (IH (n / 10) ((48 + n mod 10) :: acc) Hq) as (ds & Hds & Hne & Hd & Hh).
    cbn [digitsOf] in Hds. rewrite Hds.
    exists (ds ++ [48 + n mod 10]). split; [now rewrite <- app_assoc|].
    split; [now destruct ds|]. split.
    + apply Forall_app. split; [exact Hd|]. constructor; [divmod|constructor].
    + intros a. rewrite horner_app, Hh, length_app. cbn [horner length].
      rewrite Nat2Z.inj_add, Z.pow_add_r by lia.
      change (Z.of_nat 1) with 1. rewrite Z.pow_1_r. divmod.
Qed.

Lemma digitsValue_digits (ds : list Z) :
  digits ds -> forall a seen,
  digitsValue a seen ds
  = match ds with [] => if seen then Some a else None | _ => Some (horner a ds) end.
Proof.
  induction 1 as [|d ds Hd Hds IH]; intros a seen; [reflexivity|].
  cbn [digitsValue horner]. unfold isDigit.
  destruct (Z.leb_spec 48 d); [|lia]. destruct (Z.leb_spec d 57); [|lia].
  cbn [andb]. rewrite IH. now destruct ds.
Qed.

(** The decimal rendering of a positive integer reads back as it. *)
Lemma parseIntMath_numberToString (n : Z) :
  0 < n ->
  parseIntMath (numberToString n) = Some n
  /\ digits (numberToString n) /\ numberToString n <> [].
Proof.
  intros Hn. unfold numberToString. destruct (Z.ltb_spec n 0); [lia|].
  destruct (digitsOf_spec (Z.to_nat (Z.log2 n)) n []) as (ds & Hds & Hne & Hd & Hh).
  { pose proof (Z.log2_spec n Hn) as Hl. pose proof (Z.log2_nonneg n).
    rewrite Nat2Z.inj_succ, Z2Nat.id by lia. lia. }
  rewrite Hds, app_nil_r. split; [|now split].
  unfold parseIntMath. destruct ds as [|d ds]; [contradiction|].
  inversion Hd as [|? ? Hd0 Hd']; subst.
  assert (Hws : isWhiteSpace d = false).
  { assert (E : d = 48 \/ d = 49 \/ d = 50 \/ d = 51 \/ d = 52 \/ d = 53 \/
                 d = 54 \/ d = 55 \/ d = 56 \/ d = 57) by lia.
    repeat destruct E as [->|E]; try subst d; reflexivity. }
  cbn [trimStart]. rewrite Hws.
  destruct (Z.eqb_spec d 45); [lia|]. destruct (Z.eqb_spec d 43); [lia|].
  rewrite (digitsValue_digits (d :: ds) Hd). f_equal. rewrite Hh. lia.
Qed.

Lemma digits_ascii (ds : list Z) : digits ds -> ascii ds.
Proof. intros H. eapply Forall_impl; [|exact H]. intros c Hc. cbv beta in *. lia. Qed.

Lemma ascii_codeUnits (s : jsstring) : ascii s -> codeUnits s.
Proof. intros H. eapply Forall_impl; [|exact H]. intros c Hc. cbv beta in *. lia. Qed.

(** *** Themes *)

Lemma knownTheme_cases (t : jsstring) :
  knownTheme t = true -> In t THEME_IDS.
Proof.
  unfold knownTheme, mem. intros H. apply existsb_exists in H as (x & Hx & E).
  apply StringFacts.eqb_eq in E. now subst.
Qed.

Lemma knownTheme_facts (t : jsstring) :
  knownTheme t = true ->
  ascii t /\ nonEmpty t = true /\ inThemeConfig t = true.
Proof.
  intros H. apply knownTheme_cases in H.
  repeat destruct H as [<-|H]; try contradiction;
    (split; [|split; vm_compute; reflexivity]);
    apply Forall_forall; intros c Hc; vm_compute in Hc;
    repeat destruct Hc as [<-|Hc]; try contradiction; lia.
Qed.

End CodecFacts.

Module RoundTripFacts.
Import DeepLink UriFacts DeepLinkFacts FormFacts CodecFacts.

Lemma toString_nonempty (l : list (jsstring * jsstring)) :
  wfParams l -> l <> [] -> toString l <> [].
Proof.
  intros Hl Hne. destruct l as [|nv l]; [contradiction|].
  inversion_clear Hl as [|? ? Hnv _].
  pose proof (proj2 (proj2 (serializePair_units nv Hnv))) as Hp.
  unfold toString. cbn [map]. destruct (serializePair nv) as [|c p]; [discriminate|].
  destruct (map serializePair l); discriminate.
Qed.

(** Reading the hash the effect wrote finds, under an ASCII name, the
    value the parameter list holds, recoded. *)
Lemma read_written (l : list (jsstring * jsstring)) (k : jsstring) :
  wfParams l -> l <> [] -> ascii k ->
  get k (URLSearchParams (stripHash (locationHash (urlFragment (toString l)))))
  = option_map recode (get k l).
Proof.
  intros Hl Hne Hk.
  rewrite (urlFragment_id _ (toString_units l Hl)).
  pose proof (toString_nonempty l Hl Hne) as Hs.
  assert (E : stripHash (locationHash (toString l)) = toString l).
  { destruct (toString l) as [|c s]; [contradiction|]. reflexivity. }
  rewrite E, (URLSearchParams_toString l Hl). now apply get_recode.
Qed.

Lemma str_ascii_slide : ascii (str "slide").
Proof. apply Forall_forall. intros c Hc. vm_compute in Hc.
  repeat destruct Hc as [<-|Hc]; try contradiction; lia. Qed.
Lemma str_ascii_theme : ascii (str "theme").
Proof. apply Forall_forall. intros c Hc. vm_compute in Hc.
  repeat destruct Hc as [<-|Hc]; try contradiction; lia. Qed.
Lemma str_ascii_presenter : ascii (str "presenter").
Proof. apply Forall_forall. intros c Hc. vm_compute in Hc.
  repeat destruct Hc as [<-|Hc]; try contradiction; lia. Qed.
Lemma str_ascii_one : ascii (str "1").
Proof. apply Forall_forall. intros c Hc. vm_compute in Hc.
  repeat destruct Hc as [<-|Hc]; try contradiction; lia. Qed.

End RoundTripFacts.




Lemma placeholder_payload_roundtrip_witness :
  match renderer_code Sample.toLowerCase
          {| text := [34; 97; 39; 32; 233; 10; 60]; lang := Some (str "TS") |} with
  | Some html =>
      exists tag attrs rest,
        Html.elementStart html = Some (tag, attrs, rest) /\
        ((tag = str "div" /\
          decodeDatasetValue (Html.lookup (str "data-mermaid") attrs)
          = [34; 97; 39; 32; 233; 10; 60])
         \/
         (tag = str "pre" /\
          decodeDatasetValue (Html.lookup (str "data-code") attrs)
          = [34; 97; 39; 32; 233; 10; 60]))
  | None => False
  end.
Proof.
  destruct (renderer_code Sample.toLowerCase
              {| text := [34; 97; 39; 32; 233; 10; 60]; lang := Some (str "TS") |})
    as [html|] eqn:H.
  - apply (placeholder_payload_roundtrip Sample.toLowerCase
             {| text := [34; 97; 39; 32; 233; 10; 60]; lang := Some (str "TS") |}
             html); [|exact H].
    apply Forall_forall. intros c Hc. cbn in Hc.
    repeat destruct Hc as [<-|Hc]; try contradiction; lia.
  - vm_compute in H. discriminate H.
Defined.


(** * Further properties of the code *)

(** ** Order on numbers *)

Module OrderFacts.
Import Number.

Ltac order_cases x y :=
  destruct x as [| | |?a|?m ?k], y as [| | |?b|?n ?l];
  cbn [ltb leb num den isNaN]; intros;
  try congruence; try reflexivity; try discriminate.

Lemma ltb_irrefl (x : number) : ltb x x = false.
Proof. destruct x; cbn [ltb num den]; try reflexivity; apply Z.ltb_irrefl. Qed.

Lemma leb_refl (x : number) : x <> NaN -> leb x x = true.
Proof.
  destruct x; cbn [leb num den]; intros H; try reflexivity; try congruence;
    apply Z.leb_refl.
Qed.

Lemma leb_not_nan (x y : number) : leb x y = true -> x <> NaN /\ y <> NaN.
Proof. order_cases x y; split; discriminate. Qed.

Lemma ltb_false_leb (x y : number) :
  x <> NaN -> y <> NaN -> ltb x y = false -> leb y x = true.
Proof.
  order_cases x y;
    match goal with H : (_ <? _) = false |- _ => apply Z.ltb_ge in H end;
    apply Z.leb_le; lia.
Qed.

Lemma leb_ltb_false (x y : number) : leb x y = true -> ltb y x = false.
Proof.
  order_cases x y;
    match goal with H : (_ <=? _) = true |- _ => apply Z.leb_le in H end;
    apply Z.ltb_ge; lia.
Qed.

Lemma ltb_leb (x y : number) : ltb x y = true -> leb x y = true.
Proof.
  order_cases x y;
    match goal with H : (_ <? _) = true |- _ => apply Z.ltb_lt in H end;
    apply Z.leb_le; lia.
Qed.

Lemma clamp_nan (lo hi : number) : App.clamp NaN lo hi = NaN.
Proof. unfold App.clamp, gtb. now destruct lo, hi. Qed.

Lemma clamp_id (x lo hi : number) :
  between lo x hi -> App.clamp x lo hi = x.
Proof.
  intros [H1 H2]. unfold App.clamp, gtb.
  now rewrite (leb_ltb_false _ _ H1), (leb_ltb_false _ _ H2).
Qed.

End OrderFacts.

(** ** Clamping and navigation *)

(** X1.  For bounds in order, [clamp] returns a number between the bounds
    for every value that is a number, leaves a value that is already
    between them unchanged, and clamping twice is clamping once; for
    [NaN] it returns [NaN]. *)
Theorem clamp_within_bounds (value min max : Number.number) :
  Number.leb min max = true ->
  (value <> Number.NaN -> between min (App.clamp value min max) max) /\
  (between min value max -> App.clamp value min max = value) /\
  App.clamp (App.clamp value min max) min max = App.clamp value min max /\
  App.clamp Number.NaN min max = Number.NaN.
Proof.
  intros H. destruct (OrderFacts.leb_not_nan _ _ H) as [Hlo Hhi].
  assert (B : value <> Number.NaN -> between min (App.clamp value min max) max).
  { intros Hv. unfold App.clamp, Number.gtb.
    destruct (Number.ltb value min) eqn:E1.
    - split; [now apply OrderFacts.leb_refl|exact H].
    - destruct (Number.ltb max value) eqn:E2.
      + split; [exact H|now apply OrderFacts.leb_refl].
      + split; now apply OrderFacts.ltb_false_leb. }
  split; [exact B|]. split; [apply OrderFacts.clamp_id|].
  split; [|apply OrderFacts.clamp_nan].
  destruct value as [| | |z|m k];
    [now rewrite !OrderFacts.clamp_nan|apply OrderFacts.clamp_id, B; discriminate..].
Qed.

Lemma clamp_within_bounds_witness :
  Number.leb (Number.Int 28) (Number.Int 72) = true /\
  Number.Frac 191 1 <> Number.NaN /\
  between (Number.Int 28)
    (App.clamp (Number.Frac 191 1) (Number.Int 28) (Number.Int 72))
    (Number.Int 72).
Proof.
  assert (H : Number.leb (Number.Int 28) (Number.Int 72) = true) by reflexivity.
  assert (Hv : Number.Frac 191 1 <> Number.NaN) by discriminate.
  split; [exact H|]. split; [exact Hv|].
  exact (proj1 (clamp_within_bounds (Number.Frac 191 1) (Number.Int 28)
                  (Number.Int 72) H) Hv).
Defined.

(** X2.  At the last slide [nextSlide] changes nothing, at the first slide
    [previousSlide] changes nothing: neither the index nor the transition
    direction. *)
Theorem navigation_stops_at_ends (m : Z) (st : App.AppState) :
  0 <= m < 2 ^ 53 ->
  (App.app_currentSlide st = Number.Int m ->
   App.nextSlide (Number.Int m) st = st) /\
  (App.app_currentSlide st = Number.Int 0 ->
   App.previousSlide (Number.Int m) st = st).
Proof.
  intros Hm. destruct st as [md cur th dir].
  cbn [App.app_currentSlide]. split; intros ->.
  - unfold App.nextSlide, App.setCurrentSlide.
    cbn [App.app_currentSlide App.app_markdown App.app_themeId
         App.slideTransitionDirection].
    rewrite NumberFacts.add_int by lia.
    unfold App.clamp, Number.gtb. rewrite !NumberFacts.ltb_int.
    destruct (Z.ltb_spec (m + 1) 0); [lia|].
    destruct (Z.ltb_spec m (m + 1)); [|lia].
    cbn [Number.eqb]. now rewrite Z.eqb_refl.
  - unfold App.previousSlide, App.setCurrentSlide.
    cbn [App.app_currentSlide App.app_markdown App.app_themeId
         App.slideTransitionDirection].
    rewrite NumberFacts.sub_int by lia.
    unfold App.clamp, Number.gtb. rewrite !NumberFacts.ltb_int.
    destruct (Z.ltb_spec (0 - 1) 0); [|lia]. reflexivity.
Qed.

Lemma navigation_stops_at_ends_witness :
  let st := {| App.app_markdown := str "# A"; App.app_currentSlide := Number.Int 3;
               App.app_themeId := str "hacker";
               App.slideTransitionDirection := App.backward |} in
  0 <= 3 < 2 ^ 53 /\ App.nextSlide (Number.Int 3) st = st.
Proof.
  intros st.
  assert (H : 0 <= 3 < 2 ^ 53) by (split; [lia|reflexivity]).
  split; [exact H|].
  exact (proj1 (navigation_stops_at_ends 3 st H) eq_refl).
Defined.

(** X3.  Away from the last slide, [nextSlide] followed by
    [previousSlide] comes back to the same slide with the transition
    direction backward, and the text and the theme are untouched. *)
Theorem next_then_previous_returns (m c : Z) (st : App.AppState) :
  0 <= c < m -> m < 2 ^ 53 ->
  App.app_currentSlide st = Number.Int c ->
  let maxSlideIndex := Number.Int m in
  let st' := App.previousSlide maxSlideIndex (App.nextSlide maxSlideIndex st) in
  App.app_currentSlide (App.nextSlide maxSlideIndex st) = Number.Int (c + 1) /\
  App.slideTransitionDirection (App.nextSlide maxSlideIndex st) = App.forward /\
  App.app_currentSlide st' = Number.Int c /\
  App.slideTransitionDirection st' = App.backward /\
  App.app_markdown st' = App.app_markdown st /\
  App.app_themeId st' = App.app_themeId st.
Proof.
  intros H Hm Hc. destruct st as [md cur th dir].
  cbn [App.app_currentSlide] in Hc. subst cur. cbv zeta.
  unfold App.nextSlide, App.previousSlide, App.setCurrentSlide.
  cbn [App.app_currentSlide App.app_markdown App.app_themeId
       App.slideTransitionDirection].
  rewrite NumberFacts.add_int by lia.
  rewrite (AppFacts.clamp_fixed (c + 1) m) by lia.
  rewrite NumberFacts.sub_int by lia.
  replace (c + 1 - 1) with c by lia.
  rewrite (AppFacts.clamp_fixed c m) by lia.
  cbn [Number.eqb].
  destruct (Z.eqb_spec (c + 1) c); [lia|].
  destruct (Z.eqb_spec c (c + 1)); [lia|].
  repeat split.
Qed.

Lemma next_then_previous_returns_witness :
  let st := {| App.app_markdown := str "# A"; App.app_currentSlide := Number.Int 1;
               App.app_themeId := str "hacker";
               App.slideTransitionDirection := App.forward |} in
  0 <= 1 < 4 /\
  App.app_currentSlide
    (App.previousSlide (Number.Int 4) (App.nextSlide (Number.Int 4) st))
  = Number.Int 1.
Proof.
  intros st.
  assert (H : 0 <= 1 < 4) by lia.
  assert (Hm : 4 < 2 ^ 53) by reflexivity.
  split; [exact H|].
  exact (proj1 (proj2 (proj2 (next_then_previous_returns 4 1 st H Hm eq_refl)))).
Defined.

(** ** Reading the hash *)

(** X4.  Whatever the hash holds, [readHashState] returns a slide index
    that is a number and not below 0, and a theme that passes the
    membership test on the theme table. *)
Theorem readHashState_tolerant (hash : jsstring) :
  notBelow (Number.Int 0) (DeepLink.slideIndex (DeepLink.readHashState hash)) /\
  inThemeConfig (DeepLink.themeId (DeepLink.readHashState hash)) = true.
Proof.
  unfold DeepLink.readHashState, notBelow.
  cbn [DeepLink.slideIndex DeepLink.themeId]. split.
  - destruct (Number.isFinite (DeepLink.parseInt10 _)) eqn:Hf; [|reflexivity].
    set (r := DeepLink.parseInt10 _) in *.
    assert (Hr : r <> Number.NaN) by (intros E; rewrite E in Hf; discriminate).
    assert (Hy : Number.sub r (Number.Int 1) <> Number.NaN)
      by (unfold Number.sub; cbn [Number.neg]; now apply NumberFacts.add_not_nan).
    unfold Number.max. cbn [Number.isNaN orb].
    destruct (Number.sub r (Number.Int 1)) as [| | |z|n k] eqn:E;
      try contradiction; cbn [Number.isNaN]; try reflexivity.
    + destruct (Number.ltb (Number.Int 0) (Number.Int z)) eqn:El;
        [now apply OrderFacts.ltb_leb|reflexivity].
    + destruct (Number.ltb (Number.Int 0) (Number.Frac n k)) eqn:El;
        [now apply OrderFacts.ltb_leb|reflexivity].
  - destruct (DeepLink.get (str "theme") _) as [t|]; [|reflexivity].
    destruct (DeepLink.nonEmpty t && inThemeConfig t) eqn:E; [|reflexivity].
    now apply andb_true_iff in E.
Qed.

(** ** Tables of the highlighter *)

Lemma getAttr_In (k v : jsstring) (l : list (jsstring * jsstring)) :
  getAttr k l = Some v -> In v (map snd l).
Proof.
  induction l as [|[n w] l IH]; cbn [getAttr map snd]; [discriminate|].
  destruct (JsString.eqb n k).
  - intros H. injection H as <-. now left.
  - intros H. right. now apply IH.
Qed.

Lemma mem_In (k : jsstring) (ks : list jsstring) : mem k ks = true <-> In k ks.
Proof.
  unfold mem. rewrite existsb_exists. split.
  - intros (x & Hx & E). apply StringFacts.eqb_eq in E. now subst.
  - intros H. exists k. split; [exact H|apply StringFacts.eqb_refl].
Qed.

(** X5.  Every language [resolveLanguage] returns from the alias table is
    one the highlighter is created with, and so is the highlighting theme
    of every theme of the theme table, whose keys are the known theme
    identifiers. *)
Theorem highlighter_tables_consistent :
  (forall toLowerCase rawLang l,
     resolveLanguage toLowerCase rawLang = Some (Bundled l) ->
     In l BUNDLED_LANGS) /\
  (forall themeId cfg,
     In (themeId, cfg) THEME_CONFIG ->
     In (shikiTheme cfg) BUNDLED_THEMES /\ knownTheme themeId = true) /\
  map fst THEME_CONFIG = THEME_IDS.
Proof.
  split; [|split; [|vm_compute; reflexivity]].
  - intros toLowerCase rawLang l. unfold resolveLanguage.
    destruct rawLang as [|c r]; [discriminate|].
    destruct (getAttr (toLowerCase (trim (c :: r))) LANG_ALIAS) as [x|] eqn:E.
    + intros H. injection H as <-. apply getAttr_In in E.
      assert (A : forallb (fun v => mem v BUNDLED_LANGS) (map snd LANG_ALIAS) = true)
        by (vm_compute; reflexivity).
      apply mem_In. exact (proj1 (forallb_forall _ _) A x E).
    + destruct (mem _ objectPrototypeKeys); discriminate.
  - intros themeId cfg H.
    assert (A : forallb (fun p => mem (shikiTheme (snd p)) BUNDLED_THEMES
                                  && knownTheme (fst p)) THEME_CONFIG = true)
      by (vm_compute; reflexivity).
    pose proof (proj1 (forallb_forall _ _) A _ H) as B. cbn [fst snd] in B.
    apply andb_true_iff in B as [B1 B2]. split; [now apply mem_In|exact B2].
Qed.

Lemma highlighter_tables_consistent_witness :
  resolveLanguage Sample.toLowerCase (str " TS ") = Some (Bundled (str "typescript"))
  /\ In (str "typescript") BUNDLED_LANGS.
Proof.
  assert (H : resolveLanguage Sample.toLowerCase (str " TS ")
              = Some (Bundled (str "typescript"))) by (vm_compute; reflexivity).
  split; [exact H|].
  exact (proj1 highlighter_tables_consistent _ _ _ H).
Defined.

(** ** The slide view *)

(** X6.  [enhanceMermaid] has no guard of its own: once the timer has
    fired and a render is pending, running the disposer does not keep the
    render from writing into the subtree when it settles. *)
Theorem late_dispose_does_not_stop_render
    (diagrams : nat) (s : SlideView.state) (i : nat) :
  In i (SlideView.rendering s) ->
  let s' := SlideView.step diagrams (SlideView.step diagrams s SlideView.Dispose)
              (SlideView.RenderSettles i) in
  SlideView.active s' = false /\
  In (SlideView.DiagramWrite i) (SlideView.writes s').
Proof.
  intros H. cbn [SlideView.step SlideView.rendering].
  assert (E : existsb (Nat.eqb i) (SlideView.rendering s) = true).
  { apply existsb_exists. exists i. split; [exact H|apply Nat.eqb_refl]. }
  rewrite E. cbn. split; [reflexivity|now left].
Qed.

Lemma late_dispose_does_not_stop_render_witness :
  let s := SlideView.exec 1 SlideView.start
             [SlideView.Resume; SlideView.TimerFires 1] in
  In 0%nat (SlideView.rendering s) /\
  In (SlideView.DiagramWrite 0)
    (SlideView.writes
       (SlideView.step 1 (SlideView.step 1 s SlideView.Dispose)
          (SlideView.RenderSettles 0))).
Proof.
  intros s.
  assert (H : In 0%nat (SlideView.rendering s)) by (now left).
  split; [exact H|]. exact (proj2 (late_dispose_does_not_stop_render 1 s 0 H)).
Defined.

Module StageOrder.
Import SlideView.

(** The writes so far, most recent first: diagram writes, then perhaps the
    math stage, then the code stage and the seed.  Without the math stage
    nothing is scheduled. *)
Definition ordered (s : state) : Prop :=
  exists ds m,
    writes s = ds ++ m ++ [CodeWrite; SeedWrite] /\
    forallb isDiagramWrite ds = true /\
    ((m = [] /\ ds = [] /\ pendingTimers s = [] /\ rendering s = [])
     \/ (m = [MathWrite] /\ run s = Finished)).

Lemma step_ordered (diagrams : nat) (s : state) (e : event) :
  ordered s -> ordered (step diagrams s e).
Proof.
  intros (ds & m & Hw & Hd & Hc). destruct e as [|t|i|]; cbn [step].
  - destruct (run s) eqn:Hr.
    2: { exists ds, m. rewrite Hr. tauto. }
    destruct Hc as [(-> & -> & Hp & Hrn)|(_ & Hf)]; [|congruence].
    destruct (active s).
    + exists [], [MathWrite]. cbn. rewrite Hw. repeat split. now right.
    + exists [], []. cbn. rewrite Hw. repeat split. left. now repeat split.
  - destruct (existsb (Nat.eqb t) (pendingTimers s)) eqn:E; [|now exists ds, m].
    destruct Hc as [(-> & -> & Hp & Hrn)|(-> & Hf)].
    + rewrite Hp in E. discriminate.
    + exists ds, [MathWrite]. cbn. repeat split; try assumption. now right.
  - destruct (existsb (Nat.eqb i) (rendering s)) eqn:E; [|now exists ds, m].
    destruct Hc as [(-> & -> & Hp & Hrn)|(-> & Hf)].
    + rewrite Hrn in E. discriminate.
    + exists (DiagramWrite i :: ds), [MathWrite]. cbn. rewrite Hw.
      repeat split; try assumption. now right.
  - exists ds, m. cbn. repeat split; try assumption.
    destruct Hc as [(-> & -> & Hp & Hrn)|(-> & Hf)]; [left|now right].
    repeat split; try assumption. rewrite Hp. now destruct (mermaidTimer s).
Qed.

Lemma exec_ordered (diagrams : nat) (tr : list event) :
  forall s, ordered s -> ordered (exec diagrams s tr).
Proof.
  induction tr as [|e tr IH]; intros s H; [exact H|].
  cbn [exec fold_left]. apply IH. now apply step_ordered.
Qed.

End StageOrder.

(** X7.  In every run of the effect the writes come in stage order: the
    seed, the code stage, at most one math stage, and diagram writes only
    after the math stage. *)
Theorem stages_write_in_order (diagrams : nat) (tr : list SlideView.event) :
  exists ds m,
    SlideView.writes (SlideView.exec diagrams SlideView.start tr)
    = ds ++ m ++ [SlideView.CodeWrite; SlideView.SeedWrite] /\
    forallb SlideView.isDiagramWrite ds = true /\
    (m = [] \/ m = [SlideView.MathWrite]) /\
    (ds <> [] -> m = [SlideView.MathWrite]).
Proof.
  destruct (StageOrder.exec_ordered diagrams tr SlideView.start)
    as (ds & m & Hw & Hd & Hc).
  { exists [], []. repeat split. left. now repeat split. }
  exists ds, m. split; [exact Hw|]. split; [exact Hd|].
  destruct Hc as [(-> & -> & _)|(-> & _)].
  - split; [now left|]. intros H. contradiction.
  - split; [now right|]. reflexivity.
Qed.

(** ** Escaping *)

Module EscapeFacts.

(** What [escapeHtml] writes for one code unit. *)
Definition escapeUnit (c : Z) : jsstring :=
  if c =? 38 then str "&amp;"
  else if c =? 60 then str "&lt;"
  else if c =? 62 then str "&gt;"
  else if c =? 34 then str "&quot;"
  else if c =? 39 then str "&#39;"
  else [c].

Lemma replaceAllChar_app (c : Z) (by_ x y : jsstring) :
  replaceAllChar c by_ (x ++ y) = replaceAllChar c by_ x ++ replaceAllChar c by_ y.
Proof. unfold replaceAllChar. apply flat_map_app. Qed.

Lemma escapeHtml_app (x y : jsstring) :
  escapeHtml (x ++ y) = escapeHtml x ++ escapeHtml y.
Proof. unfold escapeHtml. now rewrite !replaceAllChar_app. Qed.

Lemma escapeHtml_unit (c : Z) : escapeHtml [c] = escapeUnit c.
Proof.
  unfold escapeUnit.
  destruct (Z.eqb_spec c 38) as [->|H1]; [reflexivity|].
  destruct (Z.eqb_spec c 60) as [->|H2]; [reflexivity|].
  destruct (Z.eqb_spec c 62) as [->|H3]; [reflexivity|].
  destruct (Z.eqb_spec c 34) as [->|H4]; [reflexivity|].
  destruct (Z.eqb_spec c 39) as [->|H5]; [reflexivity|].
  unfold escapeHtml, replaceAllChar. cbn [flat_map app].
  destruct (Z.eqb_spec c 38); [contradiction|]. cbn [flat_map app].
  destruct (Z.eqb_spec c 60); [contradiction|]. cbn [flat_map app].
  destruct (Z.eqb_spec c 62); [contradiction|]. cbn [flat_map app].
  destruct (Z.eqb_spec c 34); [contradiction|]. cbn [flat_map app].
  destruct (Z.eqb_spec c 39); [contradiction|]. reflexivity.
Qed.

Lemma escapeHtml_cons (c : Z) (s : jsstring) :
  escapeHtml (c :: s) = escapeUnit c ++ escapeHtml s.
Proof.
  change (c :: s) with ([c] ++ s). now rewrite escapeHtml_app, escapeHtml_unit.
Qed.

Lemma decode_escapeUnit (c : Z) (rest : jsstring) :
  Html.decodeCharRefs 0 (escapeUnit c ++ rest) = c :: Html.decodeCharRefs 0 rest.
Proof.
  unfold escapeUnit.
  destruct (Z.eqb_spec c 38) as [->|H1]; [reflexivity|].
  destruct (Z.eqb_spec c 60) as [->|H2]; [reflexivity|].
  destruct (Z.eqb_spec c 62) as [->|H3]; [reflexivity|].
  destruct (Z.eqb_spec c 34) as [->|H4]; [reflexivity|].
  destruct (Z.eqb_spec c 39) as [->|H5]; [reflexivity|].
  cbn [app Html.decodeCharRefs]. now destruct (Z.eqb_spec c 38).
Qed.

Definition harmless (c : Z) : Prop := c <> 60 /\ c <> 62 /\ c <> 34 /\ c <> 39.

Lemma escapeUnit_harmless (c : Z) : Forall harmless (escapeUnit c).
Proof.
  unfold escapeUnit, harmless.
  destruct (Z.eqb_spec c 38); [eval_str; repeat (constructor; [lia|]); constructor|].
  destruct (Z.eqb_spec c 60); [eval_str; repeat (constructor; [lia|]); constructor|].
  destruct (Z.eqb_spec c 62); [eval_str; repeat (constructor; [lia|]); constructor|].
  destruct (Z.eqb_spec c 34); [eval_str; repeat (constructor; [lia|]); constructor|].
  destruct (Z.eqb_spec c 39); [eval_str; repeat (constructor; [lia|]); constructor|].
  constructor; [lia|constructor].
Qed.

End EscapeFacts.

(** X8.  The text [escapeHtml] returns holds no [<], [>], double quote or
    apostrophe, and an HTML parser that resolves its character references
    reads the original text back. *)
Theorem escapeHtml_round_trip (content : jsstring) :
  Html.decodeCharRefs 0 (escapeHtml content) = content /\
  Forall (fun c => c <> 60 /\ c <> 62 /\ c <> 34 /\ c <> 39) (escapeHtml content).
Proof.
  induction content as [|c s [IH1 IH2]]; [split; [reflexivity|constructor]|].
  rewrite EscapeFacts.escapeHtml_cons. split.
  - now rewrite EscapeFacts.decode_escapeUnit, IH1.
  - apply Forall_app. split; [apply EscapeFacts.escapeUnit_harmless|exact IH2].
Qed.

(** ** Dataset values *)

Module DatasetFacts.

Lemma tokens_plain (v : jsstring) :
  Forall (fun c => c <> 37) v -> tokens v = Some (map Raw v).
Proof.
  induction 1 as [|c v Hc _ IH]; [reflexivity|].
  cbn [tokens map]. destruct (Z.eqb_spec c 37); [contradiction|]. now rewrite IH.
Qed.

Lemma decodeTokens_raw (v : jsstring) : decodeTokens (map Raw v) = Some v.
Proof. induction v as [|c v IH]; [reflexivity|]. cbn. now rewrite IH. Qed.

Lemma uriUnescaped_low (c : Z) : 128 <= c -> uriUnescaped c = false.
Proof.
  intros H. unfold uriUnescaped, isAlnum. eval_str. cbn [existsb].
  rewrite (proj2 (Z.leb_gt c 57)), (proj2 (Z.leb_gt c 90)),
    (proj2 (Z.leb_gt c 122)) by lia.
  rewrite !andb_false_r. cbn [orb].
  repeat match goal with
  | |- context [c =? ?k] => rewrite (proj2 (Z.eqb_neq c k)) by lia
  end. reflexivity.
Qed.

Lemma surrogate_high (c : Z) :
  isLeadSurrogate c = true \/ isTrailSurrogate c = true -> 128 <= c.
Proof.
  unfold isLeadSurrogate, isTrailSurrogate.
  intros [H|H]; apply andb_true_iff in H as [H _]; apply Z.leb_le in H; lia.
Qed.

(** Encoding throws exactly on the strings that are not well formed. *)
Lemma encode_none_pair (s : jsstring) :
  (encodeURIComponent s = None <-> isWellFormed s = false)
  /\ forall c, encodeURIComponent (c :: s) = None <-> isWellFormed (c :: s) = false.
Proof.
  unfold encodeURIComponent.
  assert (Hopt : forall (f : jsstring -> jsstring) o b,
            (o = None <-> b = false) -> (option_map f o = None <-> b = false)).
  { intros f [x|] b H; cbn; split; intros E; try discriminate;
      try (now apply H); try (apply H in E; discriminate). }
  induction s as [|d s [IH0 IH1]].
  - split; [split; discriminate|]. intros c.
    rewrite UriFacts.encodeWith_cons. cbn [isWellFormed encodeWith].
    destruct (uriUnescaped c) eqn:Hu.
    + destruct (isLeadSurrogate c) eqn:Hl.
      { pose proof (surrogate_high c (or_introl Hl)) as Hh.
        rewrite (uriUnescaped_low c Hh) in Hu. discriminate. }
      destruct (isTrailSurrogate c) eqn:Ht.
      { pose proof (surrogate_high c (or_intror Ht)) as Hh.
        rewrite (uriUnescaped_low c Hh) in Hu. discriminate. }
      cbn. split; discriminate.
    + destruct (isTrailSurrogate c) eqn:Ht.
      * destruct (isLeadSurrogate c); now split.
      * destruct (isLeadSurrogate c); [now split|]. cbn. split; discriminate.
  - split; [exact (IH1 d)|]. intros c.
    rewrite UriFacts.encodeWith_cons.
    change (isWellFormed (c :: d :: s))
      with (if isLeadSurrogate c then isTrailSurrogate d && isWellFormed s
            else if isTrailSurrogate c then false else isWellFormed (d :: s)).
    destruct (uriUnescaped c) eqn:Hu.
    + destruct (isLeadSurrogate c) eqn:Hl.
      { pose proof (surrogate_high c (or_introl Hl)) as Hh.
        rewrite (uriUnescaped_low c Hh) in Hu. discriminate. }
      destruct (isTrailSurrogate c) eqn:Ht.
      { pose proof (surrogate_high c (or_intror Ht)) as Hh.
        rewrite (uriUnescaped_low c Hh) in Hu. discriminate. }
      apply Hopt, IH1.
    + destruct (isTrailSurrogate c) eqn:Ht.
      * destruct (isLeadSurrogate c) eqn:Hl; [|now split].
        unfold isLeadSurrogate, isTrailSurrogate in Hl, Ht.
        apply andb_true_iff in Hl as [_ Hl], Ht as [Ht _].
        apply Z.leb_le in Hl, Ht. lia.
      * destruct (isLeadSurrogate c).
        -- destruct (isTrailSurrogate d); cbn [andb]; [apply Hopt, IH0|now split].
        -- apply Hopt, IH1.
Qed.

End DatasetFacts.

(** X9.  A dataset value without percent sign is returned as it is by
    [decodeDatasetValue]; a missing value gives the empty string. *)
Theorem decodeDatasetValue_plain (value : jsstring) :
  Forall (fun c => c <> 37) value ->
  decodeDatasetValue (Some value) = value /\ decodeDatasetValue None = [].
Proof.
  intros H. split; [|reflexivity]. unfold decodeDatasetValue, decodeURIComponent.
  destruct value as [|c v]; [reflexivity|].
  now rewrite (DatasetFacts.tokens_plain _ H), DatasetFacts.decodeTokens_raw.
Qed.

Lemma decodeDatasetValue_plain_witness :
  Forall (fun c => c <> 37) (str "typescript") /\
  decodeDatasetValue (Some (str "typescript")) = str "typescript".
Proof.
  assert (H : Forall (fun c => c <> 37) (str "typescript")).
  { apply Forall_forall. intros c Hc. vm_compute in Hc.
    repeat destruct Hc as [<-|Hc]; try contradiction; lia. }
  split; [exact H|]. exact (proj1 (decodeDatasetValue_plain _ H)).
Defined.

(** X10.  The [code] renderer throws exactly when the text of the fence
    holds an unpaired surrogate; for every other text it returns a
    placeholder. *)
Theorem renderer_code_throws_iff_ill_formed
    (toLowerCase : jsstring -> jsstring) (t : CodeToken) :
  renderer_code toLowerCase t = None <-> isWellFormed (text t) = false.
Proof.
  unfold renderer_code.
  destruct (encodeURIComponent (text t)) as [e|] eqn:E.
  - split.
    + destruct (JsString.eqb _ _); discriminate.
    + intros H. apply (proj1 (DatasetFacts.encode_none_pair (text t))) in H.
      congruence.
  - split; [intros _|reflexivity].
    now apply (proj1 (DatasetFacts.encode_none_pair (text t))).
Qed.

(** ** The matcher *)

Module EngineFacts.

(** A successful match at a position consumed a prefix of the input after
    it and handed the rest to the continuation. *)
Lemma m_sound (fl : flags) (r : regex) :
  forall k st res,
    m fl r k st = Some res ->
    exists w st1,
      pre st1 = rev w ++ pre st /\ post st = w ++ post st1 /\ k st1 = Some res.
Proof.
  induction r as [|a| | |r1 IH1 r2 IH2|r1 IH1 r2 IH2|g lo hi a|n r IH];
    intros k st res H; cbn [m] in H.
  - exists [], st. auto.
  - destruct (post st) as [|c po] eqn:Hp; [discriminate|].
    destruct (atom_ok fl a c); [|discriminate].
    exists [c]. eexists. split; [|split; [|exact H]]; reflexivity.
  - destruct (at_bol fl st); [|discriminate]. exists [], st. auto.
  - destruct (at_eol fl st); [|discriminate]. exists [], st. auto.
  - apply IH1 in H as (w1 & st1 & Hpre1 & Hpost1 & H).
    apply IH2 in H as (w2 & st2 & Hpre2 & Hpost2 & H).
    exists (w1 ++ w2), st2.
    rewrite Hpre2, Hpre1, Hpost1, Hpost2, rev_app_distr, <- !app_assoc. auto.
  - destruct (m fl r1 k st) as [x|] eqn:E.
    + apply IH1. now rewrite E.
    + now apply IH2.
  - apply SeparatorFacts.rep_sound in H as (taken & rest & Hpo & _ & H).
    exists taken. eexists. split; [|split; [|exact H]]; [reflexivity|exact Hpo].
  - apply IH in H as (w & st1 & Hpre & Hpost & H).
    exists w. eexists. split; [|split; [|exact H]]; assumption.
Qed.

(** A match starts where the attempt was made and is a prefix of the input
    from there. *)
Lemma match_at_sound (p : pattern) (pr po : list Z) (r : mres) :
  match_at p pr po = Some r ->
  index r = length pr /\ exists rest, po = matched r ++ rest.
Proof.
  unfold match_at.
  destruct (m (fl p) (body p) Some
              {| pre := pr; post := po; caps := repeat None (ngroups p) |})
    as [st|] eqn:E; [|discriminate].
  intros H. injection H as <-. cbn [index matched]. split; [reflexivity|].
  apply m_sound in E as (w & st1 & Hpre & Hpost & Hk). injection Hk as ->.
  cbn [pre post] in Hpre, Hpost. exists (post st). unfold captured. cbn [pre].
  rewrite Hpre, length_app, length_rev, Nat.add_sub.
  rewrite <- (length_rev w), firstn_app, Nat.sub_diag, firstn_all, firstn_O,
    app_nil_r, rev_involutive.
  exact Hpost.
Qed.

Lemma search_none (p : pattern) (po : list Z) :
  forall pr,
    (forall a b, po = a ++ b -> match_at p (rev a ++ pr) b = None) ->
    search p pr po = None.
Proof.
  induction po as [|c po IH]; intros pr H.
  - pose proof (H [] [] eq_refl) as H0. cbn [rev app] in H0.
    cbn [search]. now rewrite H0.
  - pose proof (H [] (c :: po) eq_refl) as H0. cbn [rev app] in H0.
    cbn [search]. rewrite H0. apply IH.
    intros a b ->. specialize (H (c :: a) b eq_refl).
    cbn [rev] in H. now rewrite <- app_assoc in H.
Qed.

(** A heading match holds a number sign. *)
Lemma heading_match_hash (pr po : list Z) (r : mres) :
  match_at headingPattern pr po = Some r -> In 35 po.
Proof.
  unfold match_at.
  destruct (m (fl headingPattern) (body headingPattern) Some
              {| pre := pr; post := po;
                 caps := repeat None (ngroups headingPattern) |})
    as [st|] eqn:E; [|discriminate].
  intros _.
  change (body headingPattern)
    with (Cat Bol (Cat (Rep true 0 (Some 3%nat) Space)
            (Cat (Rep true 1 (Some 2%nat) (Lit 35))
               (seq [plus Space; Grp 0 (plus Dot); Eol])))) in E.
  cbn [m pre post] in E.
  destruct (at_bol _ _); [|discriminate].
  apply SeparatorFacts.rep_sound in E as (taken & rest & -> & _ & E).
  cbn [pre post caps] in E.
  apply SeparatorFacts.rep_cases in E as [(E0 & _)|(c & po' & -> & Hc & _)];
    [discriminate|].
  apply in_or_app. right. left.
  change (atom_ok (fl headingPattern) (Lit 35) c) with (35 =? c) in Hc.
  now apply Z.eqb_eq in Hc.
Qed.

End EngineFacts.

(** ** Titles *)

(** X11.  For a slide body without number sign [extractTitle] returns
    the word Slide and the position of the slide counted from one. *)
Theorem extractTitle_fallback (markdown : jsstring) (fallbackIndex : Z) :
  Forall (fun c => c <> 35) markdown ->
  extractTitle markdown fallbackIndex
  = str "Slide " ++ numberToString (fallbackIndex + 1).
Proof.
  intros H. unfold extractTitle, match_.
  rewrite EngineFacts.search_none; [reflexivity|].
  intros a b ->. rewrite app_nil_r.
  destruct (match_at headingPattern (rev a) b) as [r|] eqn:E; [|reflexivity].
  apply EngineFacts.heading_match_hash in E.
  apply Forall_app in H as [_ H].
  exfalso. exact (proj1 (Forall_forall _ _) H 35 E eq_refl).
Qed.

Lemma extractTitle_fallback_witness :
  Forall (fun c => c <> 35) (str "plain text") /\
  extractTitle (str "plain text") 2 = str "Slide 3".
Proof.
  assert (H : Forall (fun c => c <> 35) (str "plain text")).
  { apply Forall_forall. intros c Hc. vm_compute in Hc.
    repeat destruct Hc as [<-|Hc]; try contradiction; lia. }
  split; [exact H|]. exact (extractTitle_fallback _ 2 H).
Defined.

(** ** The slide list *)

Module SlideListFacts.

Section Renderer.
Variable toLowerCase : jsstring -> jsstring.
Variable marked_parse :
  (CodeToken -> option jsstring) -> jsstring -> option jsstring.

Lemma compileFrom_nth (raws : list jsstring) :
  forall k slides,
    compileFrom toLowerCase marked_parse k raws = Some slides ->
    forall i s, nth_error slides i = Some s ->
      exists raw, nth_error raws i = Some raw /\
        compileSlide toLowerCase marked_parse raw (k + i) = Some s.
Proof.
  induction raws as [|raw raws IH]; intros k slides H i s Hn;
    cbn [compileFrom] in H.
  - injection H as <-. destruct i; discriminate.
  - destruct (compileSlide toLowerCase marked_parse raw k) as [s0|] eqn:E;
      [|discriminate].
    destruct (compileFrom toLowerCase marked_parse (S k) raws) as [l|] eqn:E2;
      cbn [option_map] in H; [|discriminate].
    injection H as <-. destruct i as [|i]; cbn [nth_error] in Hn |- *.
    + injection Hn as <-. exists raw. now rewrite Nat.add_0_r.
    + destruct (IH (S k) l E2 i s Hn) as (raw' & Hr & Hc).
      exists raw'. split; [exact Hr|]. now rewrite Nat.add_succ_r.
Qed.

Lemma compileFrom_none (raws : list jsstring) :
  forall k,
    compileFrom toLowerCase marked_parse k raws = None <->
    Exists (fun raw => markdownToHtml toLowerCase marked_parse (slideBody raw)
                       = None) raws.
Proof.
  induction raws as [|raw raws IH]; intros k; cbn [compileFrom].
  - split; [discriminate|]. intros H. inversion H.
  - rewrite NotesFacts.compileSlide_eq. unfold markdownToHtml.
    destruct (marked_parse (renderer_code toLowerCase) (slideBody raw))
      as [h|] eqn:E.
    + split.
      * intros H. apply Exists_cons_tl. apply (IH (S k)).
        destruct (compileFrom toLowerCase marked_parse (S k) raws);
          [discriminate|reflexivity].
      * intros H. inversion H as [? ? H0|? ? H0]; subst.
        -- unfold markdownToHtml in H0. congruence.
        -- apply (IH (S k)) in H0. now rewrite H0.
    + split; [|reflexivity]. intros _. now apply Exists_cons_hd.
Qed.
End Renderer.

Lemma slideBody_shape (raw : jsstring) :
  slideBody raw <> [] /\ trim (slideBody raw) = slideBody raw.
Proof.
  unfold slideBody.
  destruct (trim (without lineNotePattern (without blockNotesPattern raw)))
    as [|c t] eqn:E; cbn [orElse].
  - split; [vm_compute; discriminate|vm_compute; reflexivity].
  - split; [discriminate|]. rewrite <- E.
    apply NotesFacts.trim_id; [apply NotesFacts.trim_firstOk|apply NotesFacts.trim_lastOk].
Qed.

End SlideListFacts.

(** X12.  In the list [parseSlides] returns, the slide at position [i] has
    id [i]; its text is not empty and has no white space at its ends; its
    html is the rendering of that text and its title is extracted from
    it. *)
Theorem slides_numbered_trimmed_rendered
    (toLowerCase : jsstring -> jsstring)
    (marked_parse : (CodeToken -> option jsstring) -> jsstring -> option jsstring)
    (source : jsstring) (slides : list Slide) (i : nat) (s : Slide) :
  parseSlides toLowerCase marked_parse source = Some slides ->
  nth_error slides i = Some s ->
  id s = Z.of_nat i /\
  markdown s <> [] /\
  trim (markdown s) = markdown s /\
  markdownToHtml toLowerCase marked_parse (markdown s) = Some (html s) /\
  title s = extractTitle (markdown s) (id s).
Proof.
  unfold parseSlides. intros H Hn.
  destruct (SlideListFacts.compileFrom_nth _ _ _ _ _ H i s Hn) as (raw & _ & Hc).
  rewrite NotesFacts.compileSlide_eq in Hc. cbn [Nat.add] in Hc.
  destruct (marked_parse (renderer_code toLowerCase) (slideBody raw))
    as [h|] eqn:E; [|discriminate].
  injection Hc as <-. cbn [id markdown html title].
  destruct (SlideListFacts.slideBody_shape raw) as [Hne Htrim].
  repeat split; assumption.
Qed.

Lemma slides_numbered_trimmed_rendered_witness :
  match parseSlides Sample.toLowerCase Sample.marked_parse
          (str "# A\n\n---\n\n  B  \nNote: x\n") with
  | Some slides =>
      match nth_error slides 1 with
      | Some s => id s = 1 /\ markdown s = str "B"
      | None => False
      end
  | None => False
  end.
Proof.
  destruct (parseSlides Sample.toLowerCase Sample.marked_parse
              (str "# A\n\n---\n\n  B  \nNote: x\n")) as [slides|] eqn:H.
  - destruct (nth_error slides 1) as [s|] eqn:Hn.
    + destruct (slides_numbered_trimmed_rendered _ _ _ _ _ _ H Hn)
        as (Hid & _).
      split; [exact Hid|].
      vm_compute in H. injection H as <-. vm_compute in Hn.
      injection Hn as <-. reflexivity.
    + vm_compute in H. injection H as <-. vm_compute in Hn. discriminate.
  - vm_compute in H. discriminate.
Defined.

(** X13.  [parseSlides] throws exactly when the Markdown engine throws on
    the body of one of the segments the separator pattern splits the text
    into. *)
Theorem parseSlides_throws_iff_rendering_throws
    (toLowerCase : jsstring -> jsstring)
    (marked_parse : (CodeToken -> option jsstring) -> jsstring -> option jsstring)
    (source : jsstring) :
  parseSlides toLowerCase marked_parse source = None <->
  Exists (fun rawSlide =>
            markdownToHtml toLowerCase marked_parse (slideBody rawSlide) = None)
    (split separatorPattern source).
Proof. unfold parseSlides. apply SlideListFacts.compileFrom_none. Qed.

(** ** Trees *)

Module TreeFacts.

(** Induction on a tree, with the property known for all children. *)
Lemma node_induction (P : node -> Prop) :
  (forall d, P (Text d)) ->
  (forall tag cls attrs ch, Forall P ch -> P (Elem tag cls attrs ch)) ->
  forall n, P n.
Proof.
  intros HT HE. fix IH 1. intros [d|tag cls attrs ch]; [apply HT|apply HE].
  induction ch as [|x ch IHch]; constructor; [apply IH|exact IHch].
Qed.

Lemma map_fixed {A} (f : A -> A) (l : list A) :
  Forall (fun x => f x = x) l -> map f l = l.
Proof. induction 1 as [|x l Hx _ IH]; cbn; [reflexivity|]. now rewrite Hx, IH. Qed.

Lemma flat_map_fixed {A} (f : A -> list A) (l : list A) :
  Forall (fun x => f x = [x]) l -> flat_map f l = l.
Proof. induction 1 as [|x l Hx _ IH]; cbn; [reflexivity|]. now rewrite Hx, IH. Qed.

Lemma list_sum_zero (l : list nat) : Forall (fun x => x = O) l -> list_sum l = O.
Proof.
  unfold list_sum. induction 1 as [|x l Hx _ IH]; cbn [fold_right]; [reflexivity|].
  now rewrite Hx, IH.
Qed.

Lemma list_sum_zero_inv (l : list nat) : list_sum l = O -> Forall (fun x => x = O) l.
Proof.
  unfold list_sum. induction l as [|x l IH]; cbn [fold_right]; intros H;
    constructor; [lia|apply IH; lia].
Qed.

Lemma plainPre_placeholders (code : jsstring) : placeholders (plainPre code) = O.
Proof. destruct code; reflexivity. Qed.

Section Engines.
Variable toLowerCase : jsstring -> jsstring.
Variable codeToHtml : jsstring -> LangValue -> jsstring -> option jsstring.
Variable parseFirstElement : jsstring -> option node.

Lemma enhanceCodeNode_clears (theme : jsstring) (showLineNumbers : bool) (n : node) :
  placeholders
    (enhanceCodeNode toLowerCase codeToHtml parseFirstElement false theme
       showLineNumbers n) = O.
Proof.
  induction n as [d|tag cls attrs ch IH] using node_induction; [reflexivity|].
  cbn [enhanceCodeNode]. destruct (isCodePlaceholder tag cls) eqn:E.
  - unfold enhanceCodeBlock. apply plainPre_placeholders.
  - cbn [placeholders]. rewrite E. cbn [Nat.add].
    apply list_sum_zero. apply Forall_map, Forall_map. exact IH.
Qed.

Lemma enhanceCodeNode_inert (highlighter : bool) (theme : jsstring)
    (showLineNumbers : bool) (n : node) :
  placeholders n = O ->
  enhanceCodeNode toLowerCase codeToHtml parseFirstElement highlighter theme
    showLineNumbers n = n.
Proof.
  induction n as [d|tag cls attrs ch IH] using node_induction; [reflexivity|].
  cbn [placeholders enhanceCodeNode].
  destruct (isCodePlaceholder tag cls); [discriminate|]. cbn [Nat.add].
  intros H. f_equal. apply map_fixed.
  apply list_sum_zero_inv, Forall_map in H.
  clear -IH H. induction IH as [|x l Hx _ IHl]; [constructor|].
  inversion_clear H as [|? ? H0 Hl]. constructor; [now apply Hx|now apply IHl].
Qed.
End Engines.

Section Math.
Variable katexRender : jsstring -> bool -> option (list node).

Lemma enhanceMathNode_katex (n : node) :
  forall path,
    existsb (fun a => hasClass (str "katex") (snd a)) path = true ->
    enhanceMathNode katexRender path n = [n].
Proof.
  induction n as [d|tag cls attrs ch IH] using node_induction; intros path H.
  - cbn [enhanceMathNode]. unfold shouldSkipMathNode.
    destruct path as [|p path]; [discriminate|]. rewrite H.
    now rewrite andb_false_r.
  - cbn [enhanceMathNode]. do 2 f_equal. apply flat_map_fixed.
    eapply Forall_impl; [|exact IH]. intros x Hx. cbv beta in Hx. apply Hx.
    cbn [existsb snd]. rewrite H. apply orb_true_r.
Qed.

Lemma enhanceMathNode_dollarFree (n : node) :
  forall path, dollarFree n = true -> enhanceMathNode katexRender path n = [n].
Proof.
  induction n as [d|tag cls attrs ch IH] using node_induction; intros path H.
  - cbn [enhanceMathNode dollarFree] in *. apply negb_true_iff in H.
    now rewrite H.
  - cbn [enhanceMathNode dollarFree] in *. do 2 f_equal. apply flat_map_fixed.
    rewrite forallb_forall in H. rewrite Forall_forall in IH |- *.
    intros x Hx. apply (IH x Hx). now apply H.
Qed.
End Math.

(** *** Text of a fragment *)

Lemma texts_app (a b : list node) : texts (a ++ b) = texts a ++ texts b.
Proof. unfold texts. apply flat_map_app. Qed.

Lemma textContent_textChildren (s : jsstring) :
  texts (textChildren s) = s.
Proof. destruct s; cbn; [reflexivity|]. now rewrite app_nil_r. Qed.

Lemma slice_gap (d : jsstring) (cursor i : nat) :
  (cursor <= i)%nat ->
  texts (if (cursor <? i)%nat then [Text (slice d cursor i)] else [])
  = slice d cursor i.
Proof.
  intros H. destruct (Nat.ltb_spec cursor i).
  - cbn. apply app_nil_r.
  - unfold slice. replace (i - cursor)%nat with O by lia. reflexivity.
Qed.

Lemma pieces (a b rest : list Z) (cursor : nat) :
  (cursor <= length a)%nat ->
  slice (a ++ b ++ rest) cursor (length a) ++ b
  ++ skipn (length a + length b) (a ++ b ++ rest)
  = skipn cursor (a ++ b ++ rest).
Proof.
  intros H. unfold slice.
  rewrite (skipn_app cursor a).
  replace (cursor - length a)%nat with O by lia. cbn [skipn].
  rewrite firstn_app, length_skipn, Nat.sub_diag, firstn_O, app_nil_r.
  rewrite firstn_all2 by (rewrite length_skipn; lia).
  assert (E : skipn (length a + length b) (a ++ b ++ rest) = rest).
  { rewrite (app_assoc a b rest), <- length_app, skipn_app, skipn_all, Nat.sub_diag.
    reflexivity. }
  now rewrite E.
Qed.

Section Fallback.
Variable katexRender : jsstring -> bool -> option (list node).
Hypothesis katexThrows : forall e b, katexRender e b = None.

(** The text of the node built for a match, when the typesetter throws. *)
Lemma mathNode_text (r : mres) : textContent (mathNode katexRender r) = matched r.
Proof.
  unfold mathNode. rewrite katexThrows. cbn [textContent].
  apply textContent_textChildren.
Qed.

Lemma scan_fragment (p : pattern) (po : list Z) :
  forall skip pr cursor,
    (cursor <= length pr + skip)%nat ->
    texts (mathFragment katexRender (rev pr ++ po) (scan p skip pr po) cursor)
    = skipn cursor (rev pr ++ po).
Proof.
  induction po as [|c po IH]; intros skip pr cursor Hc.
  - assert (Hend : forall cur,
              texts (mathFragment katexRender (rev pr ++ []) [] cur)
              = skipn cur (rev pr ++ [])).
    { intros cur. cbn [mathFragment].
      destruct (Nat.ltb_spec cur (length (rev pr ++ []))).
      - cbn. apply app_nil_r.
      - now rewrite skipn_all2. }
    destruct skip as [|n]; cbn [scan]; [|apply Hend].
    destruct (match_at p pr []) as [r|] eqn:E; [|apply Hend].
    apply EngineFacts.match_at_sound in E as (Hi & rest & Hm).
    symmetry in Hm. apply app_eq_nil in Hm as [Hm _].
    cbn [mathFragment]. unfold mlen. rewrite Hi, Hm. cbn [length].
    rewrite texts_app, slice_gap by lia.
    change (texts (mathNode katexRender r :: ?l))
      with (textContent (mathNode katexRender r) ++ texts l).
    rewrite mathNode_text, Hm. cbn [app]. rewrite app_nil_r in *.
    destruct (Nat.ltb_spec (length pr + 0) (length (rev pr))) as [Hlt|_];
      [rewrite length_rev in Hlt; lia|].
    cbn [texts flat_map]. rewrite app_nil_r. unfold slice.
    apply firstn_all2. rewrite length_skipn, length_rev. lia.
  - assert (Hd : forall q, rev (c :: q) ++ po = rev q ++ c :: po).
    { intros q. cbn [rev]. now rewrite <- app_assoc. }
    destruct skip as [|n]; cbn [scan].
    + destruct (match_at p pr (c :: po)) as [r|] eqn:E.
      * apply EngineFacts.match_at_sound in E as (Hi & rest & Hm).
        cbn [mathFragment]. rewrite texts_app, Hi, slice_gap by lia.
        change (texts (mathNode katexRender r :: ?l))
          with (textContent (mathNode katexRender r) ++ texts l).
        rewrite mathNode_text. rewrite <- (Hd pr) at 2.
        rewrite IH by (unfold mlen; cbn [length]; lia).
        rewrite (Hd pr), Hm. unfold mlen.
        rewrite <- (length_rev pr). apply pieces. rewrite length_rev. lia.
      * rewrite <- (Hd pr) at 1. rewrite IH by (cbn [length]; lia).
        now rewrite Hd.
    + rewrite <- (Hd pr) at 1. rewrite IH by (cbn [length]; lia).
      now rewrite Hd.
Qed.

Lemma enhanceMathNode_text (n : node) :
  forall path, texts (enhanceMathNode katexRender path n) = textContent n.
Proof.
  induction n as [d|tag cls attrs ch IH] using node_induction; intros path.
  - cbn [enhanceMathNode].
    destruct (existsb (Z.eqb 36) d && negb (shouldSkipMathNode path));
      [|cbn; apply app_nil_r].
    destruct (matchAll mathPattern d) as [|r rs] eqn:E; [cbn; apply app_nil_r|].
    rewrite <- E. unfold matchAll.
    exact (scan_fragment mathPattern d 0 [] 0 (Nat.le_refl _)).
  - cbn [enhanceMathNode textContent]. unfold texts. cbn [flat_map textContent].
    rewrite app_nil_r. induction IH as [|x l Hx _ IHl]; [reflexivity|].
    cbn [flat_map]. rewrite flat_map_app. fold (texts (enhanceMathNode katexRender ((tag, cls) :: path) x)).
    now rewrite Hx, IHl.
Qed.
End Fallback.

End TreeFacts.

(** X14.  Without highlighter the code stage leaves no [pre.md-code]
    below the root, and running the stage again on its result, with or
    without highlighter, changes nothing. *)
Theorem code_stage_replaces_every_placeholder
    (toLowerCase : jsstring -> jsstring)
    (codeToHtml : jsstring -> LangValue -> jsstring -> option jsstring)
    (parseFirstElement : jsstring -> option node)
    (root : node) (theme theme' : jsstring) (lines lines' highlighter : bool) :
  let enhanced :=
    enhanceCodeBlocks toLowerCase codeToHtml parseFirstElement root false theme lines in
  placeholdersBelow enhanced = O /\
  enhanceCodeBlocks toLowerCase codeToHtml parseFirstElement enhanced highlighter
    theme' lines' = enhanced.
Proof.
  destruct root as [d|tag cls attrs ch]; cbn [enhanceCodeBlocks]; [now split|].
  cbn zeta. cbn [placeholdersBelow enhanceCodeBlocks].
  assert (Z0 : Forall (fun x => placeholders x = O)
                 (map (enhanceCodeNode toLowerCase codeToHtml parseFirstElement
                         false theme lines) ch)).
  { apply Forall_map, Forall_forall. intros x _.
    apply TreeFacts.enhanceCodeNode_clears. }
  split.
  - apply TreeFacts.list_sum_zero, Forall_map. exact Z0.
  - f_equal. apply TreeFacts.map_fixed.
    eapply Forall_impl; [|exact Z0]. intros x Hx.
    now apply TreeFacts.enhanceCodeNode_inert.
Qed.

(** X15.  The math stage returns unchanged every subtree that lies below
    an element of class [katex], at any depth, and every subtree whose
    text nodes hold no dollar sign. *)
Theorem math_stage_skips_katex_and_plain_text
    (katexRender : jsstring -> bool -> option (list node))
    (path : list ancestor) (n : node) :
  existsb (fun a => hasClass (str "katex") (snd a)) path = true
  \/ dollarFree n = true ->
  enhanceMathNode katexRender path n = [n] /\
  enhanceMath katexRender path n = n.
Proof.
  intros H.
  assert (E : enhanceMathNode katexRender path n = [n]).
  { destruct H as [H|H];
      [now apply TreeFacts.enhanceMathNode_katex
      |now apply TreeFacts.enhanceMathNode_dollarFree]. }
  split; [exact E|]. unfold enhanceMath. now rewrite E.
Qed.

Lemma math_stage_skips_katex_and_plain_text_witness :
  let path := [(str "P", []); (str "SPAN", [str "katex"])] in
  let n := Elem (str "EM") [] [] [Text (str "$x$")] in
  existsb (fun a => hasClass (str "katex") (snd a)) path = true /\
  enhanceMathNode katexFails path n = [n].
Proof.
  intros path n.
  assert (H : existsb (fun a => hasClass (str "katex") (snd a)) path = true)
    by (vm_compute; reflexivity).
  split; [exact H|].
  exact (proj1 (math_stage_skips_katex_and_plain_text katexFails path n
                  (or_introl H))).
Defined.

(** X16.  When the typesetter throws on every expression, the math stage
    keeps the text of the tree: the fallback shows each match as it was
    written and the text between the matches is kept. *)
Theorem math_stage_fallback_keeps_text
    (katexRender : jsstring -> bool -> option (list node))
    (outer : list ancestor) (root : node) :
  (forall expression displayMode, katexRender expression displayMode = None) ->
  textContent (enhanceMath katexRender outer root) = textContent root.
Proof.
  intros Hk. unfold enhanceMath.
  pose proof (TreeFacts.enhanceMathNode_text katexRender Hk root outer) as H.
  destruct (enhanceMathNode katexRender outer root) as [|r [|r' l]];
    try reflexivity.
  rewrite <- H. cbn. now rewrite app_nil_r.
Qed.

Lemma math_stage_fallback_keeps_text_witness :
  let root := Elem (str "P") [] [] [Text (str "cost $a+b$ and $$c$$ end")] in
  (forall expression displayMode, katexFails expression displayMode = None) /\
  textContent (enhanceMath katexFails [] root) = textContent root /\
  enhanceMath katexFails [] root <> root.
Proof.
  intros root.
  assert (H : forall expression displayMode, katexFails expression displayMode = None)
    by reflexivity.
  split; [exact H|]. split.
  - exact (math_stage_fallback_keeps_text katexFails [] root H).
  - vm_compute. discriminate.
Defined.

(** ** Decoration of a highlighted block *)

Module DecorationFacts.

Lemma decorateLines_text (n : node) :
  forall i, textContent (fst (decorateLines n i)) = textContent n.
Proof.
  induction n as [d|tag cls attrs ch IH] using TreeFacts.node_induction;
    intros i; [reflexivity|].
  cbn [decorateLines].
  destruct (if hasClass (str "line") cls
            then (addClass (str "deck-code-line") cls,
                  setAttr (str "style.animationDelay")
                    (numberToString (Z.of_nat i * 70) ++ str "ms")
                    (setAttr (str "data-line-number")
                       (numberToString (Z.of_nat i + 1)) attrs), S i)
            else (cls, attrs, i)) as [[cls' attrs'] i1].
  match goal with
  | |- context [let '(_, _) := ?g ch i1 in _] => set (go := g)
  end.
  assert (G : forall l j,
             Forall (fun x => forall i, textContent (fst (decorateLines x i))
                                        = textContent x) l ->
             flat_map textContent (fst (go l j)) = flat_map textContent l).
  { clear. induction l as [|x l IHl]; intros j H; [reflexivity|].
    inversion_clear H as [|? ? Hx Hl]. cbn [go].
    specialize (Hx j). destruct (decorateLines x j) as [x' j1].
    specialize (IHl j1 Hl). fold go. destruct (go l j1) as [t' j2].
    cbn [fst flat_map] in *. now rewrite Hx, IHl. }
  specialize (G ch i1 IH). destruct (go ch i1) as [ch' i2].
  cbn [fst textContent] in *. exact G.
Qed.

Lemma decorateChildren_text (ch : list node) :
  texts (decorateChildren ch) = texts ch.
Proof.
  unfold decorateChildren.
  assert (G : forall l acc j,
             texts (fst (fold_left
                           (fun acc x =>
                              let '(x', j) := decorateLines x (snd acc) in
                              (fst acc ++ [x'], j)) l (acc, j)))
             = texts acc ++ texts l).
  { induction l as [|x l IHl]; intros acc j; cbn [fold_left fst snd].
    - cbn. now rewrite app_nil_r.
    - pose proof (decorateLines_text x j) as Hx.
      destruct (decorateLines x j) as [x' j1]. cbn [fst] in Hx.
      rewrite IHl, TreeFacts.texts_app. cbn [texts flat_map] in *.
      now rewrite app_nil_r, Hx, <- app_assoc. }
  exact (G ch [] O).
Qed.

Lemma mem_app (c : jsstring) (a b : list jsstring) :
  mem c (a ++ b) = mem c a || mem c b.
Proof. unfold mem. apply existsb_app. Qed.

Lemma addClass_has (c : jsstring) (cls : list jsstring) :
  hasClass c (addClass c cls) = true.
Proof.
  unfold addClass. destruct (hasClass c cls) eqn:E; [exact E|].
  unfold hasClass in *. rewrite mem_app, E. cbn. now rewrite StringFacts.eqb_refl.
Qed.

Lemma addClass_keeps (c d : jsstring) (cls : list jsstring) :
  hasClass d cls = true -> hasClass d (addClass c cls) = true.
Proof.
  unfold addClass. intros H. destruct (hasClass c cls); [exact H|].
  unfold hasClass in *. now rewrite mem_app, H.
Qed.

Lemma filter_mem (c d : jsstring) (cls : list jsstring) :
  mem d (filter (fun x => negb (JsString.eqb x c)) cls)
  = mem d cls && negb (JsString.eqb d c).
Proof.
  induction cls as [|x cls IH]; [reflexivity|]. cbn [filter].
  destruct (JsString.eqb x c) eqn:E; cbn [negb mem existsb].
  - fold (mem d cls). fold (mem d (filter (fun x => negb (JsString.eqb x c)) cls)).
    rewrite IH. apply StringFacts.eqb_eq in E. subst x.
    destruct (JsString.eqb d c) eqn:E'; cbn [negb orb]; [now rewrite !andb_false_r|].
    reflexivity.
  - unfold mem in *. cbn [existsb]. rewrite IH.
    destruct (JsString.eqb d x) eqn:E'; cbn [orb]; [|reflexivity].
    apply StringFacts.eqb_eq in E'. subst x.
    destruct (JsString.eqb d c) eqn:E2; [congruence|].
    now destruct (existsb (JsString.eqb d) cls).
Qed.

End DecorationFacts.

(** X17.  Decorating the element the highlighter returned keeps its text;
    afterwards the element carries the class [deck-code], and the class
    [deck-code-with-lines] exactly when line numbers are shown, whatever
    classes it had before. *)
Theorem decoration_keeps_text_and_sets_classes
    (showLineNumbers : bool) (tag : jsstring) (cls : list jsstring)
    (attrs : list (jsstring * jsstring)) (ch : list node) :
  exists cls' ch',
    decorateHighlighted showLineNumbers (Elem tag cls attrs ch)
    = Elem tag cls' attrs ch' /\
    textContent (Elem tag cls' attrs ch') = textContent (Elem tag cls attrs ch) /\
    hasClass (str "deck-code") cls' = true /\
    hasClass (str "deck-code-with-lines") cls' = showLineNumbers.
Proof.
  eexists. eexists. split; [reflexivity|]. split; [|split].
  - cbn [textContent]. apply DecorationFacts.decorateChildren_text.
  - unfold toggleClass. destruct showLineNumbers.
    + apply DecorationFacts.addClass_keeps, DecorationFacts.addClass_has.
    + unfold hasClass. rewrite DecorationFacts.filter_mem.
      fold (hasClass (str "deck-code") (addClass (str "deck-code") cls)).
      now rewrite DecorationFacts.addClass_has.
  - unfold toggleClass. destruct showLineNumbers.
    + apply DecorationFacts.addClass_has.
    + unfold hasClass. rewrite DecorationFacts.filter_mem.
      rewrite StringFacts.eqb_refl. apply andb_false_r.
Qed.

(** ** The written hash *)

Module WrittenHashFacts.
Import DeepLink.

(** The parameter list the hash-writing effect serializes. *)
Definition writtenParams (oldHash : jsstring) (currentSlide : Number.number)
    (themeId : jsstring) (isPresenterWindow : bool) : list (jsstring * jsstring) :=
  let params := URLSearchParams (stripHash oldHash) in
  let params :=
    set (str "slide")
      (Number.toString (Number.add currentSlide (Number.Int 1))) params in
  let params := set (str "theme") themeId params in
  if isPresenterWindow then set (str "presenter") (str "1") params
  else delete (str "presenter") params.

Lemma numberToString_facts (n : Z) :
  0 <= n ->
  parseIntMath (numberToString n) = Some n /\ CodecFacts.digits (numberToString n).
Proof.
  intros H. destruct (Z.eq_dec n 0) as [->|Hn].
  - split; [vm_compute; reflexivity|]. vm_compute numberToString.
    constructor; [lia|constructor].
  - destruct (CodecFacts.parseIntMath_numberToString n) as (Hp & Hd & _); [lia|].
    now split.
Qed.

(** The slide parameter written for an index below [2^53]. *)
Lemma written_slide (n : Z) :
  0 <= n < 2 ^ 53 ->
  Number.toString (Number.add (Number.Int n) (Number.Int 1))
  = numberToString (n + 1).
Proof.
  intros H. rewrite NumberFacts.add_int by lia. apply NumberFacts.toString_int. lia.
Qed.

(** Reading a key from the hash the effect wrote. *)
Lemma written_get (oldHash : jsstring) (n : Z) (themeId : jsstring)
    (isPresenterWindow : bool) (k : jsstring) :
  codeUnits oldHash -> 0 <= n < 2 ^ 53 -> DeepLinkFacts.ascii themeId ->
  DeepLinkFacts.ascii k ->
  get k (URLSearchParams (stripHash
           (writeHash oldHash (Number.Int n) themeId isPresenterWindow)))
  = option_map DeepLinkFacts.recode
      (get k (writtenParams oldHash (Number.Int n) themeId isPresenterWindow)).
Proof.
  intros Hold Hslide Hta Hk.
  destruct (numberToString_facts (n + 1)) as (_ & Hd); [lia|].
  pose proof (CodecFacts.digits_ascii _ Hd) as Hda.
  unfold writeHash, writtenParams. rewrite (written_slide n Hslide).
  set (p0 := URLSearchParams (stripHash oldHash)).
  set (p1 := set (str "slide") (numberToString (n + 1)) p0).
  set (p2 := set (str "theme") themeId p1).
  set (p3 := if isPresenterWindow then set (str "presenter") (str "1") p2
             else delete (str "presenter") p2).
  assert (W0 : FormFacts.wfParams p0)
    by apply CodecFacts.URLSearchParams_wf, CodecFacts.stripHash_codeUnits, Hold.
  assert (W1 : FormFacts.wfParams p1).
  { apply FormFacts.set_wf; [| |exact W0]; apply CodecFacts.ascii_codeUnits;
      [apply RoundTripFacts.str_ascii_slide|exact Hda]. }
  assert (W2 : FormFacts.wfParams p2).
  { apply FormFacts.set_wf; [| |exact W1]; apply CodecFacts.ascii_codeUnits;
      [apply RoundTripFacts.str_ascii_theme|exact Hta]. }
  assert (W3 : FormFacts.wfParams p3).
  { unfold p3. destruct isPresenterWindow; [|now apply FormFacts.delete_wf].
    apply FormFacts.set_wf; [| |exact W2]; apply CodecFacts.ascii_codeUnits;
      [apply RoundTripFacts.str_ascii_presenter|apply RoundTripFacts.str_ascii_one]. }
  assert (N3 : p3 <> []).
  { unfold p3. destruct isPresenterWindow; [apply FormFacts.set_nonempty|].
    unfold p2. intros E.
    assert (G : get (str "theme")
                  (delete (str "presenter") (set (str "theme") themeId p1)) = None)
      by now rewrite E.
    rewrite FormFacts.get_delete_other, FormFacts.get_set_same in G
      by (vm_compute; discriminate).
    discriminate G. }
  pose proof (RoundTripFacts.toString_nonempty p3 W3 N3) as Hs.
  destruct (toString p3) as [|c s] eqn:Ets; [contradiction|].
  rewrite <- Ets. now apply RoundTripFacts.read_written.
Qed.

Lemma writtenParams_slide (oldHash : jsstring) (currentSlide : Number.number)
    (themeId : jsstring) (isPresenterWindow : bool) :
  get (str "slide") (writtenParams oldHash currentSlide themeId isPresenterWindow)
  = Some (Number.toString (Number.add currentSlide (Number.Int 1))).
Proof.
  unfold writtenParams. destruct isPresenterWindow.
  - rewrite !FormFacts.get_set_other by (vm_compute; discriminate).
    apply FormFacts.get_set_same.
  - rewrite FormFacts.get_delete_other, FormFacts.get_set_other
      by (vm_compute; discriminate).
    apply FormFacts.get_set_same.
Qed.

Lemma writtenParams_theme (oldHash : jsstring) (currentSlide : Number.number)
    (themeId : jsstring) (isPresenterWindow : bool) :
  get (str "theme") (writtenParams oldHash currentSlide themeId isPresenterWindow)
  = Some themeId.
Proof.
  unfold writtenParams. destruct isPresenterWindow.
  - rewrite FormFacts.get_set_other by (vm_compute; discriminate).
    apply FormFacts.get_set_same.
  - rewrite FormFacts.get_delete_other by (vm_compute; discriminate).
    apply FormFacts.get_set_same.
Qed.


End WrittenHashFacts.



(** X19.  Reading back the hash the effect wrote for the current state
    changes nothing: for an index that is an integer within the slides,
    the [hashchange] listener, run on that hash, returns the state it was
    given. *)
Theorem written_hash_read_back_changes_nothing
    (m c : Z) (oldHash : jsstring) (isPresenterWindow : bool)
    (st : App.AppState) :
  codeUnits oldHash ->
  0 <= c <= m -> c < 2 ^ 53 ->
  App.app_currentSlide st = Number.Int c ->
  knownTheme (App.app_themeId st) = true ->
  App.onHashChange (Number.Int m)
    (DeepLink.writeHash oldHash (App.app_currentSlide st) (App.app_themeId st)
       isPresenterWindow) st
  = st.
Proof.
  intros Hold Hcur Hc53 Hc Htheme. destruct st as [md cur th dir].
  cbn [App.app_currentSlide App.app_themeId] in *. subst cur.
  destruct (CodecFacts.knownTheme_facts th Htheme) as (Hta & Htn & Hti).
  destruct (WrittenHashFacts.numberToString_facts (c + 1)) as (Hp & Hd); [lia|].
  pose proof (CodecFacts.digits_ascii _ Hd) as Hda.
  unfold App.onHashChange, DeepLink.readHashState.
  rewrite !WrittenHashFacts.written_get
    by first [assumption | lia | apply RoundTripFacts.str_ascii_slide
             | apply RoundTripFacts.str_ascii_theme
             | apply RoundTripFacts.str_ascii_presenter].
  rewrite WrittenHashFacts.writtenParams_slide, WrittenHashFacts.writtenParams_theme.
  rewrite WrittenHashFacts.written_slide by lia.
  cbn [option_map DeepLink.slideIndex DeepLink.themeId].
  rewrite (DeepLinkFacts.recode_ascii _ Hda), (DeepLinkFacts.recode_ascii _ Hta).
  unfold DeepLink.parseInt10. rewrite Hp, Htn, Hti. cbn [andb].
  unfold Number.ofInteger. rewrite NumberFacts.round_int by lia.
  cbn [Number.isFinite]. rewrite NumberFacts.sub_int by lia.
  rewrite NumberFacts.max_int.
  replace (Z.max 0 (c + 1 - 1)) with c by lia.
  unfold App.goToSlide, App.setThemeId, App.setCurrentSlide.
  cbn [App.app_currentSlide App.app_markdown App.app_themeId
       App.slideTransitionDirection].
  rewrite (AppFacts.clamp_fixed c m) by lia.
  unfold Number.gtb. rewrite OrderFacts.ltb_irrefl. reflexivity.
Qed.

Lemma written_hash_read_back_changes_nothing_witness :
  let st := {| App.app_markdown := str "# A"; App.app_currentSlide := Number.Int 2;
               App.app_themeId := str "vibrant";
               App.slideTransitionDirection := App.backward |} in
  0 <= 2 <= 5 /\
  App.onHashChange (Number.Int 5)
    (DeepLink.writeHash (str "#slide=1") (App.app_currentSlide st)
       (App.app_themeId st) true) st
  = st.
Proof.
  intros st.
  assert (Hold : codeUnits (str "#slide=1")).
  { apply Forall_forall. intros c Hc. vm_compute in Hc.
    repeat destruct Hc as [<-|Hc]; try contradiction; lia. }
  assert (Hcur : 0 <= 2 <= 5) by lia.
  assert (Hb : 2 < 2 ^ 53) by reflexivity.
  assert (Hi : App.app_currentSlide st = Number.Int 2) by reflexivity.
  assert (Hth : knownTheme (App.app_themeId st) = true) by (vm_compute; reflexivity).
  split; [exact Hcur|].
  exact (written_hash_read_back_changes_nothing 5 2 (str "#slide=1") true st
           Hold Hcur Hb Hi Hth).
Defined.

(** ** Navigation *)

(** X20.  Going to the same slide twice is going there once: the second
    call changes neither the index nor the transition direction, for
    every target, [NaN] included. *)
Theorem goToSlide_twice (maxSlideIndex index : Number.number) (st : App.AppState) :
  App.goToSlide maxSlideIndex index (App.goToSlide maxSlideIndex index st)
  = App.goToSlide maxSlideIndex index st.
Proof.
  destruct st as [md cur th dir].
  unfold App.goToSlide, App.setCurrentSlide.
  cbn [App.app_currentSlide App.app_markdown App.app_themeId
       App.slideTransitionDirection].
  set (next := App.clamp index (Number.Int 0) maxSlideIndex).
  unfold Number.gtb. rewrite !OrderFacts.ltb_irrefl. reflexivity.
Qed.

(** ** Keys *)



(** X22.  The key P, in either case, is taken from the page wherever it
    is pressed, the editor included: [preventDefault] is called, the
    state stays, and the presenter window is opened exactly when the
    window is not the presenter window. *)
Theorem keydown_p_is_always_intercepted
    (toLowerCase : jsstring -> jsstring) (maxSlideIndex : Number.number)
    (key : jsstring) (inEditor isPresenterWindow : bool) (st : App.AppState) :
  key <> str "F11" -> toLowerCase key = str "p" ->
  Keyboard.onKeyDown toLowerCase maxSlideIndex isPresenterWindow key inEditor st
  = {| Keyboard.defaultPrevented := true; Keyboard.fullscreenToggled := false;
       Keyboard.presenterOpened := negb isPresenterWindow; Keyboard.after := st |}.
Proof.
  intros Hk Hp. unfold Keyboard.onKeyDown.
  destruct (JsString.eqb key (str "F11")) eqn:E.
  - apply StringFacts.eqb_eq in E. contradiction.
  - rewrite Hp. reflexivity.
Qed.

Lemma keydown_p_is_always_intercepted_witness :
  let st := {| App.app_markdown := str "# A"; App.app_currentSlide := Number.Int 1;
               App.app_themeId := str "hacker";
               App.slideTransitionDirection := App.forward |} in
  Keyboard.defaultPrevented
    (Keyboard.onKeyDown Sample.toLowerCase (Number.Int 4) false (str "P") true st)
  = true.
Proof.
  intros st.
  assert (Hk : str "P" <> str "F11") by (vm_compute; discriminate).
  assert (Hp : Sample.toLowerCase (str "P") = str "p") by (vm_compute; reflexivity).
  now rewrite (keydown_p_is_always_intercepted Sample.toLowerCase (Number.Int 4)
                 (str "P") true false st Hk Hp).
Defined.



(** X24.  Outside the editor, or in the presenter window, the key Home
    leads to the first slide and the key End to the last one, for a
    lower-casing that does not turn these two names into the letter p. *)
Theorem keydown_home_and_end
    (toLowerCase : jsstring -> jsstring) (m : Z)
    (inEditor isPresenterWindow : bool) (st : App.AppState) :
  0 <= m ->
  inEditor = false \/ isPresenterWindow = true ->
  toLowerCase (str "Home") <> str "p" -> toLowerCase (str "End") <> str "p" ->
  App.app_currentSlide
    (Keyboard.after
       (Keyboard.onKeyDown toLowerCase (Number.Int m) isPresenterWindow (str "Home")
          inEditor st)) = Number.Int 0 /\
  App.app_currentSlide
    (Keyboard.after
       (Keyboard.onKeyDown toLowerCase (Number.Int m) isPresenterWindow (str "End")
          inEditor st)) = Number.Int m.
Proof.
  intros Hm Hwhere Hh He. unfold Keyboard.onKeyDown.
  assert (Hin : inEditor && negb isPresenterWindow = false)
    by (destruct Hwhere as [-> | ->]; [reflexivity|apply andb_false_r]).
  rewrite Hin.
  destruct (JsString.eqb (toLowerCase (str "Home")) (str "p")) eqn:E1;
    [apply StringFacts.eqb_eq in E1; contradiction|].
  destruct (JsString.eqb (toLowerCase (str "End")) (str "p")) eqn:E2;
    [apply StringFacts.eqb_eq in E2; contradiction|].
  split.
  - change (JsString.eqb (str "Home") (str "F11")) with false.
    change (mem (str "Home") Keyboard.forwardKeys) with false.
    change (mem (str "Home") Keyboard.backwardKeys) with false.
    change (JsString.eqb (str "Home") (str "Home")) with true.
    cbn [Keyboard.after]. unfold App.goToSlide.
    cbn [App.setCurrentSlide App.app_currentSlide].
    apply AppFacts.clamp_fixed. lia.
  - change (JsString.eqb (str "End") (str "F11")) with false.
    change (mem (str "End") Keyboard.forwardKeys) with false.
    change (mem (str "End") Keyboard.backwardKeys) with false.
    change (JsString.eqb (str "End") (str "Home")) with false.
    change (JsString.eqb (str "End") (str "End")) with true.
    cbn [Keyboard.after]. unfold App.goToSlide.
    cbn [App.setCurrentSlide App.app_currentSlide].
    apply AppFacts.clamp_fixed. lia.
Qed.

Lemma keydown_home_and_end_witness :
  let st := {| App.app_markdown := str "# A"; App.app_currentSlide := Number.Int 2;
               App.app_themeId := str "hacker";
               App.slideTransitionDirection := App.forward |} in
  App.app_currentSlide
    (Keyboard.after
       (Keyboard.onKeyDown Sample.toLowerCase (Number.Int 4) false (str "End")
          false st)) = Number.Int 4.
Proof.
  intros st.
  assert (Hm : 0 <= 4) by lia.
  assert (Hh : Sample.toLowerCase (str "Home") <> str "p")
    by (vm_compute; discriminate).
  assert (He : Sample.toLowerCase (str "End") <> str "p")
    by (vm_compute; discriminate).
  exact (proj2 (keydown_home_and_end Sample.toLowerCase 4 false false st Hm
                  (or_introl eq_refl) Hh He)).
Defined.

(** ** Received states *)

(** X27.  [channel.onmessage] changes the local state only for a message
    from another context that carries a state whose theme passes the
    membership test on the theme table; then the text and the theme are
    those of the message and the index is the clamped one. *)
Theorem remote_state_applied_only_if_in_table
    (clientId : jsstring) (maxSlideIndex : Number.number)
    (payload : option App.SharedMessage) (st : App.AppState) :
  App.onmessage clientId maxSlideIndex payload st <> st ->
  exists p s,
    payload = Some p /\ App.sourceId p <> clientId /\ App.state p = Some s /\
    inThemeConfig (App.themeId s) = true /\
    let st' := App.onmessage clientId maxSlideIndex payload st in
    App.app_markdown st' = App.markdown s /\
    App.app_themeId st' = App.themeId s /\
    App.app_currentSlide st'
    = App.clamp (App.currentSlide s) (Number.Int 0) maxSlideIndex.
Proof.
  intros Hchanged.
  destruct (AppFacts.onmessage_cases clientId maxSlideIndex payload st)
    as [Heq|(p & s & Hp & Hsrc & Hs & Ht & Heq)]; [contradiction|].
  exists p, s. repeat split; try assumption; cbv zeta; rewrite Heq; reflexivity.
Qed.

Lemma remote_state_applied_only_if_in_table_witness :
  exists p s,
    Some {| App.sourceId := str "peer";
            App.state := Some {| App.markdown := str "# New";
                                 App.currentSlide := Number.Frac 3 1;
                                 App.themeId := str "hacker" |} |} = Some p /\
    App.sourceId p <> str "local" /\ App.state p = Some s /\
    inThemeConfig (App.themeId s) = true.
Proof.
  destruct (remote_state_applied_only_if_in_table (str "local") (Number.Int 5)
              (Some {| App.sourceId := str "peer";
                       App.state := Some {| App.markdown := str "# New";
                                            App.currentSlide := Number.Frac 3 1;
                                            App.themeId := str "hacker" |} |})
              {| App.app_markdown := str "# Old"; App.app_currentSlide := Number.Int 2;
                 App.app_themeId := str "corporate";
                 App.slideTransitionDirection := App.forward |})
    as (p & s & H1 & H2 & H3 & H4 & _).
  - vm_compute. discriminate.
  - exists p, s. auto.
Defined.

(** ** The presenter clock *)

Module ClockFacts.

Lemma padStart2_two (n : Z) :
  0 <= n < 100 -> Presenter.padStart2 (numberToString n) = twoDigits n.
Proof.
  intros H.
  assert (A : forallb (fun k => JsString.eqb
                                  (Presenter.padStart2 (numberToString (Z.of_nat k)))
                                  (twoDigits (Z.of_nat k)))
                (List.seq 0 100) = true) by (vm_compute; reflexivity).
  pose proof (proj1 (forallb_forall _ _) A (Z.to_nat n)) as B.
  cbv beta in B. rewrite Z2Nat.id in B by lia.
  apply StringFacts.eqb_eq, B, in_seq. lia.
Qed.

End ClockFacts.

(** X25.  For a whole number of seconds: below one hour
    [formatElapsedTimer] writes minutes and seconds with two digits each,
    a negative count as zero; from one hour on, as far as the count is
    exact, it writes the hours first, and minutes and seconds still take
    two digits each. *)
Theorem formatElapsedTimer_fields (totalSeconds : Z) :
  (totalSeconds < 3600 ->
   Presenter.formatElapsedTimer totalSeconds
   = twoDigits (Z.max 0 totalSeconds / 60) ++ str ":"
     ++ twoDigits (Z.max 0 totalSeconds mod 60)) /\
  (3600 <= totalSeconds < 2 ^ 53 ->
   Presenter.formatElapsedTimer totalSeconds
   = Presenter.padStart2 (numberToString (totalSeconds / 3600)) ++ str ":"
     ++ twoDigits (totalSeconds mod 3600 / 60) ++ str ":"
     ++ twoDigits (totalSeconds mod 60)).
Proof.
  unfold Presenter.formatElapsedTimer. cbv zeta. split; intros H.
  - set (s := Z.max 0 totalSeconds). assert (Hs : 0 <= s < 3600) by lia.
    rewrite (Z.div_small s 3600), (Z.mod_small s 3600) by lia.
    change (0 >? 0) with false. cbv iota.
    rewrite !ClockFacts.padStart2_two by divmod. reflexivity.
  - rewrite (Z.max_r 0 totalSeconds) by lia.
    assert (Hh : (totalSeconds / 3600 >? 0) = true) by (apply Z.gtb_lt; divmod).
    rewrite Hh. rewrite !(ClockFacts.padStart2_two (_ / 60)),
      !(ClockFacts.padStart2_two (_ mod 60)) by divmod.
    reflexivity.
Qed.

Lemma formatElapsedTimer_fields_witness :
  754 < 3600 /\ Presenter.formatElapsedTimer 754 = str "12:34".
Proof.
  split; [lia|].
  rewrite (proj1 (formatElapsedTimer_fields 754)) by lia. vm_compute. reflexivity.
Defined.

(** ** Render ids *)

Module RenderIdFacts.

Lemma split_at_dash (a : list Z) :
  forall b x y,
    Forall (fun c => c <> 45) a -> Forall (fun c => c <> 45) b ->
    a ++ [45] ++ x = b ++ [45] ++ y -> a = b /\ x = y.
Proof.
  induction a as [|c a IH]; intros [|d b] x y Ha Hb H; cbn [app] in H.
  - injection H as <-. now split.
  - injection H as <- _. inversion_clear Hb as [|? ? Hd _]. contradiction.
  - injection H as -> _. inversion_clear Ha as [|? ? Hc _]. contradiction.
  - injection H as <- H. inversion_clear Ha as [|? ? _ Ha'].
    inversion_clear Hb as [|? ? _ Hb'].
    destruct (IH b x y Ha' Hb' H) as [-> ->]. now split.
Qed.

Lemma numberToString_no_dash (n : Z) :
  0 <= n -> Forall (fun c => c <> 45) (numberToString n).
Proof.
  intros H. destruct (WrittenHashFacts.numberToString_facts n H) as (_ & Hd).
  eapply Forall_impl; [|exact Hd]. intros c Hc. cbv beta in Hc. lia.
Qed.

Lemma numberToString_inj (a b : Z) :
  0 <= a -> 0 <= b -> numberToString a = numberToString b -> a = b.
Proof.
  intros Ha Hb H.
  destruct (WrittenHashFacts.numberToString_facts a Ha) as (Pa & _).
  destruct (WrittenHashFacts.numberToString_facts b Hb) as (Pb & _).
  rewrite H in Pa. congruence.
Qed.

Lemma ids_split (a b c a' b' c' : list Z) :
  Forall (fun c => c <> 45) a -> Forall (fun c => c <> 45) b ->
  Forall (fun c => c <> 45) a' -> Forall (fun c => c <> 45) b' ->
  str "mermaid-" ++ a ++ str "-" ++ b ++ str "-" ++ c
  = str "mermaid-" ++ a' ++ str "-" ++ b' ++ str "-" ++ c' ->
  a = a' /\ b = b' /\ c = c'.
Proof.
  intros Ha Hb Ha' Hb' H. apply app_inv_head in H.
  assert (Hdash : str "-" = [45]) by reflexivity. rewrite Hdash in H.
  apply split_at_dash in H as [E1 H]; [|assumption|assumption].
  apply split_at_dash in H as [E2 E3]; [|assumption|assumption].
  now repeat split.
Qed.

Lemma renderId_parts (slideId index now : Z) :
  renderId slideId index now
  = str "mermaid-" ++ numberToString slideId ++ str "-" ++ numberToString index
    ++ str "-" ++ numberToString now.
Proof. reflexivity. Qed.

End RenderIdFacts.

(** X26.  The id handed to the diagram renderer determines the slide, the
    position of the diagram and the time: two diagrams of one pass never
    get the same id, even when the clock has not advanced. *)
Theorem renderId_injective (slideId index now slideId' index' now' : Z) :
  0 <= slideId < 2 ^ 53 -> 0 <= index < 2 ^ 53 -> 0 <= now < 2 ^ 53 ->
  0 <= slideId' < 2 ^ 53 -> 0 <= index' < 2 ^ 53 -> 0 <= now' < 2 ^ 53 ->
  renderId slideId index now = renderId slideId' index' now' ->
  slideId = slideId' /\ index = index' /\ now = now'.
Proof.
  intros [Hs _] [Hi _] [Hn _] [Hs' _] [Hi' _] [Hn' _] H.
  rewrite !RenderIdFacts.renderId_parts in H.
  destruct (RenderIdFacts.ids_split
              (numberToString slideId) (numberToString index) (numberToString now)
              (numberToString slideId') (numberToString index')
              (numberToString now')
              (RenderIdFacts.numberToString_no_dash _ Hs)
              (RenderIdFacts.numberToString_no_dash _ Hi)
              (RenderIdFacts.numberToString_no_dash _ Hs')
              (RenderIdFacts.numberToString_no_dash _ Hi') H) as (E1 & E2 & E3).
  split; [|split]; apply RenderIdFacts.numberToString_inj; assumption.
Qed.

Lemma renderId_injective_witness :
  renderId 3 0 1700000000000 <> renderId 3 1 1700000000000.
Proof.
  intros H.
  assert (B3 : 0 <= 3 < 2 ^ 53) by (split; [lia|reflexivity]).
  assert (B0 : 0 <= 0 < 2 ^ 53) by (split; [lia|reflexivity]).
  assert (B1 : 0 <= 1 < 2 ^ 53) by (split; [lia|reflexivity]).
  assert (Bn : 0 <= 1700000000000 < 2 ^ 53) by (split; [lia|reflexivity]).
  assert (E : 0 = 1)
    by exact (proj1 (proj2 (renderId_injective 3 0 1700000000000 3 1 1700000000000
                              B3 B0 Bn B3 B1 Bn H))).
  discriminate E.
Defined.
